(** * tudu: the state-management core of [src/App.jsx]

    A shallow embedding of the pure core of the to-do application: the
    recurrence calculator [getNextRecurrenceDate], the undo/redo wrapper
    [undoable], the tree helpers [toggleAllNestedTasks] and
    [findTaskAndUpdate], the reducer [todoReducer], and the derived views:
    [getFilteredAndSortedTodos], [getKanbanColumns], the tag bar, the tasks
    of the hourly notification, the counters of [getProgress] and the
    identifier paths of the task components. *)

From Stdlib Require Import ZArith List String Ascii Bool Lia Permutation Sorted.
Import ListNotations.

Set Warnings "-register-all".
Local Open Scope Z_scope.

(* ================================================================= *)
(** ** Data model *)

(** The recurrence values the form offers besides the empty one
    ([<option value="daily">] and so on).  The loop of
    [getNextRecurrenceDate] has no branch for another string; the form does
    not produce one. *)
Inductive period : Type := daily | weekly | monthly.

(** A task object.  The optional fields are [None] where the JavaScript
    value is falsy ([null], [undefined] or the empty string); a date string
    ["YYYY-MM-DD"], which is what the date inputs produce and what
    [getNextRecurrenceDate] returns, is represented by its day number since
    1970-01-01; [createdAt] by its time value in milliseconds.  [subtasks] is
    always an array. *)
Inductive task : Type := mkTask {
  id : string;
  text : string;
  completed : bool;
  createdAt : Z;
  dueDate : option Z;
  startDate : option Z;
  priority : string;
  recurrence : option period;
  tags : list string;
  description : option string;
  subtasks : list task
}.

(** [{ ...task, subtasks: s }] *)
Definition set_subtasks (t : task) (s : list task) : task :=
  mkTask (id t) (text t) (completed t) (createdAt t) (dueDate t) (startDate t)
         (priority t) (recurrence t) (tags t) (description t) s.

(** [{ ...task, completed: c, subtasks: s }] *)
Definition set_completed_subtasks (t : task) (c : bool) (s : list task) : task :=
  mkTask (id t) (text t) c (createdAt t) (dueDate t) (startDate t)
         (priority t) (recurrence t) (tags t) (description t) s.

(** [{ ...task, completed: c, subtasks: s, dueDate: d, startDate: sd }] *)
Definition set_toggled (t : task) (c : bool) (s : list task)
           (d sd : option Z) : task :=
  mkTask (id t) (text t) c (createdAt t) d sd
         (priority t) (recurrence t) (tags t) (description t) s.

(** A forest: the root-level tasks. *)
Definition forest : Type := list task.

(** An identifier path, root first. *)
Definition path : Type := list string.

(** [task.id === x] *)
Definition has_id (x : string) (t : task) : bool := String.eqb (id t) x.

(* ================================================================= *)
(** ** Tree helpers *)

(** [toggleAllNestedTasks(tasks, completedStatus)].  The guard
    [!Array.isArray(tasks)] never fires on a [list task]. *)
Fixpoint toggleTask (completedStatus : bool) (t : task) : task :=
  set_completed_subtasks t completedStatus
    (map (toggleTask completedStatus) (subtasks t)).

Definition toggleAllNestedTasks (tasks : list task) (completedStatus : bool)
  : list task :=
  map (toggleTask completedStatus) tasks.

(** [findTaskAndUpdate(tasks, idPath, updateFunction)].  On the empty path
    [currentId] is [undefined], which no identifier equals, so the [map]
    returns every task as it is. *)
Fixpoint findTaskAndUpdate (tasks : list task) (idPath : path)
         (updateFunction : task -> task) : list task :=
  match idPath with
  | [] => map (fun task => task) tasks
  | [id0] =>
      map (fun task => if has_id id0 task then updateFunction task else task)
          tasks
  | currentId :: restOfPath =>
      map (fun task =>
             if has_id currentId task
             then set_subtasks task
                    (findTaskAndUpdate (subtasks task) restOfPath
                                       updateFunction)
             else task)
          tasks
  end.

(** The tasks a path leads to (section 4.2 of the design): at each step the
    candidate sequence is scanned for the tasks whose [id] is the path
    component, and the walk descends into their [subtasks].  With unique
    identifiers this is at most one task. *)
Fixpoint resolve (tasks : list task) (idPath : path) : list task :=
  match idPath with
  | [] => []
  | [x] => filter (has_id x) tasks
  | x :: rest =>
      flat_map (fun t => resolve (subtasks t) rest) (filter (has_id x) tasks)
  end.

(** The candidate sequence that the walk scans after the components [pre]. *)
Fixpoint candidates (tasks : list task) (pre : path) : list task :=
  match pre with
  | [] => tasks
  | x :: rest => candidates (flat_map subtasks (filter (has_id x) tasks)) rest
  end.

(** Every node of a forest, parents before children. *)
Fixpoint nodes_of (t : task) : list task :=
  t :: flat_map nodes_of (subtasks t).

Definition nodes (tasks : list task) : list task := flat_map nodes_of tasks.

(* ================================================================= *)
(** ** Dates

    The time value of a JavaScript [Date] is an integer number of
    milliseconds since the epoch.  The functions below are the abstract
    operations of the ECMAScript Date object (Day, TimeWithinDay,
    DaysInYear, DayFromYear, YearFromTime, MonthFromTime, DateFromTime,
    MakeDay, MakeDate, LocalTime, UTC), which [getDate], [setDate],
    [getMonth] and [setMonth] are defined by.  The offset of the local time
    zone from UTC depends on the instant ([timeZone] below), and time values
    are not limited to the range that TimeClip enforces. *)

Definition msPerDay : Z := 86400000.

Definition Day (t : Z) : Z := t / msPerDay.

Definition TimeWithinDay (t : Z) : Z := t mod msPerDay.

Definition DaysInYear (y : Z) : Z :=
  if negb (y mod 4 =? 0) then 365
  else if negb (y mod 100 =? 0) then 366
  else if negb (y mod 400 =? 0) then 365
  else 366.

Definition DayFromYear (y : Z) : Z :=
  365 * (y - 1970) + (y - 1969) / 4 - (y - 1901) / 100 + (y - 1601) / 400.

(** The largest [y] with [DayFromYear y <= Day t]: an estimate from the mean
    length of a year, corrected by one year where needed. *)
Definition YearFromTime (t : Z) : Z :=
  let d := Day t in
  let y := 1970 + (400 * d) / 146097 in
  if d <? DayFromYear y then y - 1
  else if DayFromYear (y + 1) <=? d then y + 1
  else y.

Definition InLeapYear (t : Z) : Z :=
  if DaysInYear (YearFromTime t) =? 366 then 1 else 0.

Definition DayWithinYear (t : Z) : Z := Day t - DayFromYear (YearFromTime t).

(** Day within the year on which month [m] (0 to 11) starts. *)
Definition monthStart (m leap : Z) : Z :=
  if m =? 0 then 0
  else if m =? 1 then 31
  else if m =? 2 then 59 + leap
  else if m =? 3 then 90 + leap
  else if m =? 4 then 120 + leap
  else if m =? 5 then 151 + leap
  else if m =? 6 then 181 + leap
  else if m =? 7 then 212 + leap
  else if m =? 8 then 243 + leap
  else if m =? 9 then 273 + leap
  else if m =? 10 then 304 + leap
  else 334 + leap.

(** Day within the year on which the month after [m] starts (the end of
    the year after December). *)
Definition monthEnd (m leap : Z) : Z :=
  if m =? 11 then 365 + leap else monthStart (m + 1) leap.

Definition MonthFromTime (t : Z) : Z :=
  let d := DayWithinYear t in
  let leap := InLeapYear t in
  if d <? 31 then 0
  else if d <? 59 + leap then 1
  else if d <? 90 + leap then 2
  else if d <? 120 + leap then 3
  else if d <? 151 + leap then 4
  else if d <? 181 + leap then 5
  else if d <? 212 + leap then 6
  else if d <? 243 + leap then 7
  else if d <? 273 + leap then 8
  else if d <? 304 + leap then 9
  else if d <? 334 + leap then 10
  else 11.

Definition DateFromTime (t : Z) : Z :=
  DayWithinYear t - monthStart (MonthFromTime t) (InLeapYear t) + 1.

Definition MakeDay (year month date : Z) : Z :=
  let ym := year + month / 12 in
  let mn := month mod 12 in
  let leap := if DaysInYear ym =? 366 then 1 else 0 in
  DayFromYear ym + monthStart mn leap + date - 1.

Definition MakeDate (day time : Z) : Z := day * msPerDay + time.

(** The local time zone, [LocalTZA(t, isUTC)]: the offset of local time
    from UTC in milliseconds, at the instant [t] ([offsetAt], [isUTC] true)
    and at the local time [t] ([offsetOfLocal], [isUTC] false).  At a local
    time that a transition skips or repeats, [offsetOfLocal] is the offset
    before the transition. *)
Record timeZone : Type := mkZone {
  offsetAt : Z -> Z;
  offsetOfLocal : Z -> Z
}.

(** A time zone without transitions. *)
Definition fixedZone (tza : Z) : timeZone :=
  mkZone (fun _ => tza) (fun _ => tza).

Definition LocalTime (tz : timeZone) (t : Z) : Z := t + offsetAt tz t.

Definition UTC (tz : timeZone) (t : Z) : Z := t - offsetOfLocal tz t.

(** [date.getDate()], [date.getMonth()], [date.setDate(dt)] and
    [date.setMonth(month)] on a date whose time value is [t]; the setters
    return the new time value. *)
Definition getDate (tz : timeZone) (t : Z) : Z :=
  DateFromTime (LocalTime tz t).

Definition getMonth (tz : timeZone) (t : Z) : Z :=
  MonthFromTime (LocalTime tz t).

Definition setDate (tz : timeZone) (t dt : Z) : Z :=
  let lt := LocalTime tz t in
  UTC tz (MakeDate (MakeDay (YearFromTime lt) (MonthFromTime lt) dt)
                   (TimeWithinDay lt)).

Definition setMonth (tz : timeZone) (t month : Z) : Z :=
  let lt := LocalTime tz t in
  UTC tz (MakeDate (MakeDay (YearFromTime lt) month (DateFromTime lt))
                   (TimeWithinDay lt)).

(** [new Date(s)] for a date string [s] = "YYYY-MM-DD" (given by its day
    number): midnight UTC of that day. *)
Definition newDate (s : Z) : Z := s * msPerDay.

(** [date.toISOString().split('T')[0]]: the UTC calendar day, as a date
    string. *)
Definition isoDate (t : Z) : Z := Day t.

(** The date string of a civil date, month 1 to 12. *)
Definition ymd (y m d : Z) : Z := MakeDay y (m - 1) d.

(* ================================================================= *)
(** ** Recurrence calculator *)

(** The body of the [while] loop. *)
Definition advance (tz : timeZone) (recurrence : period) (date : Z) : Z :=
  match recurrence with
  | daily => setDate tz date (getDate tz date + 1)
  | weekly => setDate tz date (getDate tz date + 7)
  | monthly => setMonth tz date (getMonth tz date + 1)
  end.

(** [while (date < now) { ... }], as a big-step relation: [whileLoop tz r
    now date result] when the loop entered with [date] exits with
    [result]. *)
Inductive whileLoop (tz : timeZone) (recurrence : period) (now : Z)
  : Z -> Z -> Prop :=
| whileLoop_exit date :
    now <= date -> whileLoop tz recurrence now date date
| whileLoop_iter date result :
    date < now ->
    whileLoop tz recurrence now (advance tz recurrence date) result ->
    whileLoop tz recurrence now date result.

(** The loop run for at most [fuel] iterations. *)
Fixpoint whileLoop_fuel (fuel : nat) (tz : timeZone) (recurrence : period)
         (now date : Z) : Z :=
  match fuel with
  | O => date
  | S fuel' =>
      if date <? now
      then whileLoop_fuel fuel' tz recurrence now (advance tz recurrence date)
      else date
  end.

(** A number of iterations after which the loop has exited in a time zone
    whose offsets differ by at most twelve hours: there every iteration
    moves the date at least half a day ([whileLoop_fuel_returns] below).
    Whenever the value computed with it is not before [now], it is the value
    the loop exits with ([whileLoop_fuel_exit] below). *)
Definition loopBound (now date : Z) : nat :=
  Z.to_nat (2 * ((now - date) / msPerDay + 1)).

(** [getNextRecurrenceDate(startDate, recurrence)]; [now] is the value of
    [new Date()]. *)
Definition getNextRecurrenceDate (tz : timeZone) (now : Z)
           (startDate : option Z) (recurrence : option period) : option Z :=
  match startDate, recurrence with
  | Some s, Some r =>
      let date := newDate s in
      Some (isoDate (whileLoop_fuel (loopBound now date) tz r now date))
  | _, _ => None
  end.

(** [k] iterations of the loop body. *)
Fixpoint advanced (tz : timeZone) (recurrence : period) (k : nat) (date : Z)
  : Z :=
  match k with
  | O => date
  | S k' => advanced tz recurrence k' (advance tz recurrence date)
  end.

(* ================================================================= *)
(** ** Arrays *)

(** An element of the root array: a task object, or [undefined] (which
    [splice] can insert, see [REORDER_TODOS]). *)
Abbreviation slot := (option task).

(** A root array is an object: [aref] is its identity, which is what [===]
    compares, and [elems] its contents, which is what structural equality
    compares. *)
Record array : Type := mkArray { aref : nat; elems : list slot }.

(** [a === b] on arrays. *)
Definition same_array (a b : array) : bool := Nat.eqb (aref a) (aref b).

(** The tasks of an array when a callback reads a property of every element:
    [None] when an element is [undefined] (the read throws a TypeError). *)
Fixpoint tasks_of (xs : list slot) : option (list task) :=
  match xs with
  | [] => Some []
  | None :: _ => None
  | Some t :: xs' =>
      match tasks_of xs' with
      | Some l => Some (t :: l)
      | None => None
      end
  end.

(** [xs[i]]: [undefined] outside the array. *)
Definition get {A} (xs : list A) (i : Z) : option A :=
  if i <? 0 then None else nth_error xs (Z.to_nat i).

(** The start position [splice] and [slice] compute from a relative index:
    a negative index counts from the end. *)
Definition relativeIndex (len i : Z) : Z :=
  if i <? 0 then Z.max (len + i) 0 else Z.min i len.

(** [xs.slice(0, e)] *)
Definition slice0 {A} (xs : list A) (e : Z) : list A :=
  firstn (Z.to_nat (relativeIndex (Z.of_nat (List.length xs)) e)) xs.

(** [xs.splice(start, deleteCount, ...items)]: the array after the call and
    the removed elements. *)
Definition splice {A} (xs : list A) (start deleteCount : Z) (items : list A)
  : list A * list A :=
  let len := Z.of_nat (List.length xs) in
  let actualStart := relativeIndex len start in
  let actualDeleteCount := Z.min (Z.max deleteCount 0) (len - actualStart) in
  let before := firstn (Z.to_nat actualStart) xs in
  let rest := skipn (Z.to_nat actualStart) xs in
  (before ++ items ++ skipn (Z.to_nat actualDeleteCount) rest,
   firstn (Z.to_nat actualDeleteCount) rest).

(** [state.findIndex(t => t.id === x)]: the first position, or -1; [None]
    when the scan reaches an [undefined] element first. *)
Fixpoint findIndexFrom (i : Z) (xs : list slot) (x : string) : option Z :=
  match xs with
  | [] => Some (-1)
  | None :: _ => None
  | Some t :: xs' => if has_id x t then Some i else findIndexFrom (i + 1) xs' x
  end.

Definition findIndex (xs : list slot) (x : string) : option Z :=
  findIndexFrom 0 xs x.

(* ================================================================= *)
(** ** Reducer *)

(** What a dispatch reads from its surroundings: the identity of the array it
    allocates for its result, the value of [crypto.randomUUID()], the value of
    [new Date()] and the local time zone. *)
Record env : Type := mkEnv {
  fresh : nat;
  uuid : string;
  clock : Z;
  LocalTZA : timeZone
}.

(** The payload of [ADD_TODO] and [ADD_NESTED_TASK]. *)
Record fields : Type := mkFields {
  f_text : string;
  f_dueDate : option Z;
  f_startDate : option Z;
  f_recurrence : option period;
  f_priority : string;
  f_tags : list string;
  f_description : option string
}.

(** One key of an [updates] object. *)
Inductive update : Type :=
| u_id (v : string)
| u_text (v : string)
| u_completed (v : bool)
| u_createdAt (v : Z)
| u_dueDate (v : option Z)
| u_startDate (v : option Z)
| u_priority (v : string)
| u_recurrence (v : option period)
| u_tags (v : list string)
| u_description (v : option string)
| u_subtasks (v : list task).

(** The actions.  The payload of [IMPORT_TODOS] is an array of the data
    model; the import dialog dispatches whatever array [JSON.parse] returns,
    and a state with other elements is not covered here. *)
Inductive action : Type :=
| ADD_TODO (payload : fields)
| ADD_NESTED_TASK (idPath : path) (payload : fields)
| TOGGLE_TODO (i : string)
| TOGGLE_NESTED_TASK (idPath : path)
| DELETE_TODO (i : string)
| DELETE_NESTED_TASK (idPath : path)
| UPDATE_TODO (i : string) (updates : list update)
| UPDATE_NESTED_TASK (idPath : path) (updates : list update)
| REORDER_TODOS (dragId dropId : string)
| CLEAR_COMPLETED
| IMPORT_TODOS (payload : array)
| UNDO
| REDO
| OTHER.

(** [{ ...task, ...updates }] *)
Definition assign (t : task) (u : update) : task :=
  match u with
  | u_id v => mkTask v (text t) (completed t) (createdAt t) (dueDate t) (startDate t) (priority t) (recurrence t) (tags t) (description t) (subtasks t)
  | u_text v => mkTask (id t) v (completed t) (createdAt t) (dueDate t) (startDate t) (priority t) (recurrence t) (tags t) (description t) (subtasks t)
  | u_completed v => mkTask (id t) (text t) v (createdAt t) (dueDate t) (startDate t) (priority t) (recurrence t) (tags t) (description t) (subtasks t)
  | u_createdAt v => mkTask (id t) (text t) (completed t) v (dueDate t) (startDate t) (priority t) (recurrence t) (tags t) (description t) (subtasks t)
  | u_dueDate v => mkTask (id t) (text t) (completed t) (createdAt t) v (startDate t) (priority t) (recurrence t) (tags t) (description t) (subtasks t)
  | u_startDate v => mkTask (id t) (text t) (completed t) (createdAt t) (dueDate t) v (priority t) (recurrence t) (tags t) (description t) (subtasks t)
  | u_priority v => mkTask (id t) (text t) (completed t) (createdAt t) (dueDate t) (startDate t) v (recurrence t) (tags t) (description t) (subtasks t)
  | u_recurrence v => mkTask (id t) (text t) (completed t) (createdAt t) (dueDate t) (startDate t) (priority t) v (tags t) (description t) (subtasks t)
  | u_tags v => mkTask (id t) (text t) (completed t) (createdAt t) (dueDate t) (startDate t) (priority t) (recurrence t) v (description t) (subtasks t)
  | u_description v => mkTask (id t) (text t) (completed t) (createdAt t) (dueDate t) (startDate t) (priority t) (recurrence t) (tags t) v (subtasks t)
  | u_subtasks v => mkTask (id t) (text t) (completed t) (createdAt t) (dueDate t) (startDate t) (priority t) (recurrence t) (tags t) (description t) v
  end.

Definition merge (t : task) (updates : list update) : task :=
  fold_left assign updates t.

(** The callback of [TOGGLE_TODO] and [TOGGLE_NESTED_TASK] on the task it
    matches. *)
Definition toggled (e : env) (t : task) : task :=
  let newCompletedState := negb (completed t) in
  let recur :=
    newCompletedState &&
    match recurrence t with Some _ => true | None => false end in
  let newDueDate :=
    if recur
    then getNextRecurrenceDate (LocalTZA e) (clock e) (dueDate t)
                               (recurrence t)
    else dueDate t in
  let newStartDate :=
    if recur
    then getNextRecurrenceDate (LocalTZA e) (clock e) (startDate t)
                               (recurrence t)
    else startDate t in
  let updatedSubtasks :=
    toggleAllNestedTasks (subtasks t) newCompletedState in
  set_toggled t newCompletedState updatedSubtasks newDueDate newStartDate.

(** [clearNestedCompleted(tasks)]:
    [tasks.filter(task => !task.completed).map(task => ({ ...task,
    subtasks: clearNestedCompleted(task.subtasks) }))], written as one pass
    over the array ([clearNestedCompleted_eq] below is the source's form). *)
Fixpoint clearTask (t : task) : task :=
  set_subtasks t
    ((fix clearList (l : list task) : list task :=
        match l with
        | [] => []
        | c :: l' =>
            if negb (completed c) then clearTask c :: clearList l'
            else clearList l'
        end) (subtasks t)).

Definition clearNestedCompleted (tasks : list task) : list task :=
  map clearTask (filter (fun task => negb (completed task)) tasks).

Definition newTodo (e : env) (p : fields) : task :=
  mkTask (uuid e) (f_text p) false (clock e) (f_dueDate p) None
         (f_priority p) None (f_tags p) (f_description p) [].

Definition newSubtask (e : env) (p : fields) : task :=
  mkTask (uuid e) (f_text p) false (clock e) (f_dueDate p) (f_startDate p)
         (f_priority p) (f_recurrence p) (f_tags p) (f_description p) [].

(** [task.id !== targetId], where [targetId] is [undefined] on an empty
    path. *)
Definition not_target (targetId : option string) (t : task) : bool :=
  match targetId with
  | Some x => negb (has_id x t)
  | None => true
  end.

(** The cases of the [switch] that read every root task, on the tasks of
    the state. *)
Definition reduceTasks (e : env) (state : list task) (a : action)
  : list task :=
  match a with
  | ADD_NESTED_TASK idPath p =>
      findTaskAndUpdate state idPath
        (fun parentTask =>
           set_subtasks parentTask (newSubtask e p :: subtasks parentTask))
  | TOGGLE_TODO i =>
      map (fun todo => if has_id i todo then toggled e todo else todo) state
  | TOGGLE_NESTED_TASK idPath => findTaskAndUpdate state idPath (toggled e)
  | DELETE_TODO i => filter (fun todo => negb (has_id i todo)) state
  | DELETE_NESTED_TASK idPath =>
      let parentPath := removelast idPath in
      let targetId := get idPath (Z.of_nat (List.length idPath) - 1) in
      match parentPath with
      | [] => filter (not_target targetId) state
      | _ =>
          findTaskAndUpdate state parentPath
            (fun parentTask =>
               set_subtasks parentTask
                 (filter (not_target targetId) (subtasks parentTask)))
      end
  | UPDATE_TODO i updates =>
      map (fun todo => if has_id i todo then merge todo updates else todo)
          state
  | UPDATE_NESTED_TASK idPath updates =>
      findTaskAndUpdate state idPath (fun task => merge task updates)
  | CLEAR_COMPLETED =>
      let newTodos := filter (fun todo => negb (completed todo)) state in
      map (fun todo => set_subtasks todo (clearNestedCompleted (subtasks todo)))
          newTodos
  | _ => state
  end.

(** The [REORDER_TODOS] case. *)
Definition reorderTodos (state : list slot) (dragId dropId : string)
  : option (list slot) :=
  match findIndex state dragId with
  | None => None
  | Some dragIndex =>
      match findIndex state dropId with
      | None => None
      | Some dropIndex =>
          let newTodos := state in
          let (newTodos1, removed) := splice newTodos dragIndex 1 [] in
          let draggedTodo : slot :=
            match removed with
            | x :: _ => x
            | [] => None
            end in
          Some (fst (splice newTodos1 dropIndex 0 [draggedTodo]))
      end
  end.

(** [todoReducer(state = [], action)].  [None] when the call throws. *)
Definition todoReducer (e : env) (state : option array) (a : action)
  : option array :=
  let state :=
    match state with
    | Some s => s
    | None => mkArray (fresh e) []
    end in
  match a with
  | ADD_TODO p => Some (mkArray (fresh e) (Some (newTodo e p) :: elems state))
  | REORDER_TODOS dragId dropId =>
      match reorderTodos (elems state) dragId dropId with
      | Some newTodos => Some (mkArray (fresh e) newTodos)
      | None => None
      end
  | IMPORT_TODOS payload => Some payload
  | UNDO | REDO | OTHER => Some state
  | _ =>
      match tasks_of (elems state) with
      | Some tasks =>
          Some (mkArray (fresh e) (map Some (reduceTasks e tasks a)))
      | None => None
      end
  end.

(* ================================================================= *)
(** ** History wrapper *)

Section Undoable.

Context {State Action Env : Type}.

(** [action.type === 'UNDO'] and [action.type === 'REDO'] *)
Variables isUNDO isREDO : Action -> bool.

(** [===] on states *)
Variable same : State -> State -> bool.

(** The wrapped reducer; [None] when it throws. *)
Variable reducer : Env -> option State -> Action -> option State.

Record hstate : Type := mkHistory {
  history : list State;
  historyIndex : Z
}.

(** [state.history[state.historyIndex]] *)
Definition present (state : hstate) : option State :=
  get (history state) (historyIndex state).

(** [newPresent === state.history[state.historyIndex]]; a state is never
    [undefined]. *)
Definition unchanged (newPresent : State) (old : option State) : bool :=
  match old with
  | Some p => same newPresent p
  | None => false
  end.

(** The function [undoable(reducer)] returns, applied to a state and an
    action.  [None] when the reducer throws. *)
Definition undoable (e : Env) (state : hstate) (action : Action)
  : option hstate :=
  if isUNDO action then
    let prevIndex := Z.max 0 (historyIndex state - 1) in
    Some (mkHistory (history state) prevIndex)
  else if isREDO action then
    let nextIndex :=
      Z.min (Z.of_nat (List.length (history state)) - 1)
            (historyIndex state + 1) in
    Some (mkHistory (history state) nextIndex)
  else
    match reducer e (present state) action with
    | None => None
    | Some newPresent =>
        if unchanged newPresent (present state) then Some state
        else
          let newHistory :=
            slice0 (history state) (historyIndex state + 1) in
          Some (mkHistory (newHistory ++ [newPresent])
                          (Z.of_nat (List.length newHistory)))
    end.

(** The default state, [{ history: [reducer(undefined, {})],
    historyIndex: 0 }]. *)
Definition initialState (e : Env) (emptyAction : Action) : option hstate :=
  match reducer e None emptyAction with
  | Some s => Some (mkHistory [s] 0)
  | None => None
  end.

(** The state [useUndoableReducer(reducer, initialPresent)] starts from,
    and the flags it returns. *)
Definition startState (initialPresent : State) : hstate :=
  mkHistory [initialPresent] 0.

Definition canUndo (state : hstate) : bool := 0 <? historyIndex state.

Definition canRedo (state : hstate) : bool :=
  historyIndex state <? Z.of_nat (List.length (history state)) - 1.

(** A sequence of dispatches, each with what it reads from its
    surroundings. *)
Fixpoint dispatchAll (state : hstate) (steps : list (Env * Action))
  : option hstate :=
  match steps with
  | [] => Some state
  | (e, a) :: steps' =>
      match undoable e state a with
      | Some state' => dispatchAll state' steps'
      | None => None
      end
  end.

(** The states reachable from a start state. *)
Inductive reachable : hstate -> Prop :=
| reachable_start initialPresent : reachable (startState initialPresent)
| reachable_step state e action state' :
    reachable state -> undoable e state action = Some state' ->
    reachable state'.

(** The successive results of the reducer on a sequence of actions none of
    which the wrapper takes for a no-op: [chain s0 steps ss] when the
    reducer, started from [s0], returns the states [ss] one after the
    other, each a different object from the state it was computed from. *)
Inductive chain : State -> list (Env * Action) -> list State -> Prop :=
| chain_nil s0 : chain s0 [] []
| chain_cons s0 e a s1 steps ss :
    isUNDO a = false -> isREDO a = false ->
    reducer e (Some s0) a = Some s1 ->
    same s1 s0 = false ->
    chain s1 steps ss ->
    chain s0 ((e, a) :: steps) (s1 :: ss).

End Undoable.

Arguments hstate : clear implicits.
Arguments mkHistory {State} _ _.

Definition isUNDO (a : action) : bool :=
  match a with UNDO => true | _ => false end.

Definition isREDO (a : action) : bool :=
  match a with REDO => true | _ => false end.

(** [undoable(todoReducer)] *)
Definition todoUndoable : env -> hstate array -> action -> option (hstate array) :=
  undoable isUNDO isREDO same_array todoReducer.

(* ================================================================= *)
(** ** Derived view *)

(** [s.toLowerCase()] for a string of ASCII characters: the letters A to Z
    are the only ones it changes. *)
Definition lowerChar (c : ascii) : ascii :=
  let n := nat_of_ascii c in
  if (Nat.leb 65 n && Nat.leb n 90)%bool then ascii_of_nat (n + 32) else c.

Fixpoint toLowerCase (s : string) : string :=
  match s with
  | EmptyString => EmptyString
  | String c s' => String (lowerChar c) (toLowerCase s')
  end.

(** [s.includes(q)] *)
Fixpoint includes (s q : string) : bool :=
  (String.prefix q s ||
   match s with
   | EmptyString => false
   | String _ s' => includes s' q
   end)%bool.

(** The numbers the comparator computes with. *)
Inductive number : Type := Num (z : Z) | Infinity | NegInfinity | NaN.

(** [a - b] *)
Definition minus (a b : number) : number :=
  match a, b with
  | Num x, Num y => Num (x - y)
  | Num _, Infinity => NegInfinity
  | Num _, NegInfinity => Infinity
  | Infinity, Num _ => Infinity
  | Infinity, NegInfinity => Infinity
  | NegInfinity, Num _ => NegInfinity
  | NegInfinity, Infinity => NegInfinity
  | _, _ => NaN
  end.

(** [v > 0]: what makes [sort] put the second argument first; a [NaN]
    result counts as 0. *)
Definition positive (v : number) : bool :=
  match v with
  | Num z => 0 <? z
  | Infinity => true
  | _ => false
  end.

(** [xs.sort(comparefn)].  For a consistent comparator the result is the
    stable sorted rearrangement, which is computed here by insertion. *)
Fixpoint insert {A} (comparefn : A -> A -> number) (x : A) (l : list A)
  : list A :=
  match l with
  | [] => [x]
  | y :: l' =>
      if positive (comparefn x y) then y :: insert comparefn x l'
      else x :: l
  end.

Definition sort {A} (comparefn : A -> A -> number) (l : list A) : list A :=
  fold_right (insert comparefn) [] l.

(** The properties that the object [priorityOrder] inherits from
    [Object.prototype]: each is a function or, for ["__proto__"], an object. *)
Definition inheritedKeys : list string :=
  ["constructor"; "hasOwnProperty"; "isPrototypeOf"; "propertyIsEnumerable";
   "toLocaleString"; "toString"; "valueOf"; "__proto__";
   "__defineGetter__"; "__defineSetter__"; "__lookupGetter__";
   "__lookupSetter__"]%string.

(** [priorityOrder[p] || 0], as the number that the subtraction makes of it:
    an own property is 3, 2 or 1; an inherited one is truthy and not a
    number, so that it converts to [NaN]; every other lookup is [undefined],
    for which [|| 0] gives 0. *)
Definition priorityOrder (p : string) : number :=
  if String.eqb p "High"%string then Num 3
  else if String.eqb p "Medium"%string then Num 2
  else if String.eqb p "Low"%string then Num 1
  else if existsb (String.eqb p) inheritedKeys then NaN
  else Num 0.

(** [a.dueDate ? new Date(a.dueDate).getTime() : Infinity] *)
Definition dueVal (a : task) : number :=
  match dueDate a with
  | Some d => Num (newDate d)
  | None => Infinity
  end.

(** The comparator of [getFilteredAndSortedTodos]. *)
Definition compareTodos (sortBy sortOrder : string) (a b : task) : number :=
  if String.eqb sortBy "priority"%string then
    let aVal := priorityOrder (priority a) in
    let bVal := priorityOrder (priority b) in
    if String.eqb sortOrder "asc"%string then minus aVal bVal else minus bVal aVal
  else if String.eqb sortBy "dueDate"%string then
    let aVal := dueVal a in
    let bVal := dueVal b in
    if String.eqb sortOrder "asc"%string then minus aVal bVal else minus bVal aVal
  else
    let aCreatedAt := Num (createdAt a) in
    let bCreatedAt := Num (createdAt b) in
    minus bCreatedAt aCreatedAt.

(** The filtering steps of [getFilteredAndSortedTodos()], with the
    component state they read as arguments; [filteredTag] is [None] when it
    is [null]. *)
Definition filterTodos (todos : list task) (searchQuery : string)
           (filteredTag : option string) (statusFilter : string) : list task :=
  let filtered :=
    filter (fun todo =>
              (includes (toLowerCase (text todo)) (toLowerCase searchQuery) ||
               match description todo with
               | Some d => includes (toLowerCase d) (toLowerCase searchQuery)
               | None => false
               end)%bool)
           todos in
  let filtered :=
    match filteredTag with
    | Some tag => filter (fun todo => existsb (String.eqb tag) (tags todo))
                         filtered
    | None => filtered
    end in
  if String.eqb statusFilter "active"%string then
    filter (fun todo => negb (completed todo)) filtered
  else if String.eqb statusFilter "completed"%string then
    filter (fun todo => completed todo) filtered
  else filtered.

(** [getFilteredAndSortedTodos()] *)
Definition getFilteredAndSortedTodos (todos : list task)
           (searchQuery : string) (filteredTag : option string)
           (statusFilter sortBy sortOrder : string) : list task :=
  sort (compareTodos sortBy sortOrder)
       (filterTodos todos searchQuery filteredTag statusFilter).

(* ================================================================= *)
(** ** Vocabulary of the properties *)

(** A task without its subtree. *)
Definition label (t : task) : task := set_subtasks t [].

(** [{ ...n, completed: c }] *)
Definition with_completed (c : bool) (n : task) : task :=
  set_completed_subtasks n c (subtasks n).

(** Every node of a forest with its ancestors (nearest first), parents
    before children. *)
Fixpoint nodes_under (ancestors : list task) (t : task)
  : list (list task * task) :=
  (ancestors, t) :: flat_map (nodes_under (t :: ancestors)) (subtasks t).

Definition nodes_with_ancestors (tasks : list task)
  : list (list task * task) :=
  flat_map (nodes_under []) tasks.

(** Neither the node nor any of its ancestors is completed. *)
Definition survives (n : list task * task) : bool :=
  forallb (fun t => negb (completed t)) (snd n :: fst n).

(** The due date as a point of the line closed by "no due date", which is
    later than every date. *)
Definition due_le (a b : task) : Prop :=
  match dueDate a, dueDate b with
  | Some x, Some y => x <= y
  | Some _, None => True
  | None, Some _ => False
  | None, None => True
  end.

(* ================================================================= *)
(** ** Induction on task trees *)

Section TaskInduction.

Variable P : task -> Prop.
Hypothesis step : forall t, Forall P (subtasks t) -> P t.

Fixpoint task_nested_ind (t : task) : P t :=
  step t
    ((fix all (l : list task) : Forall P l :=
        match l with
        | [] => Forall_nil P
        | c :: l' => Forall_cons c (task_nested_ind c) (all l')
        end) (subtasks t)).

End TaskInduction.

(* ================================================================= *)
(** ** Sample data *)

Definition sampleEnv (n : nat) (u : string) : env :=
  mkEnv n u 1000 (fixedZone 0).

(** Central European time in 2024: one hour ahead of UTC, and two hours from
    31 March, 01:00 UTC, to 27 October, 01:00 UTC. *)
Definition centralEurope2024 : timeZone :=
  let hour := 3600000 in
  let spring := newDate (ymd 2024 3 31) + hour in
  let autumn := newDate (ymd 2024 10 27) + hour in
  mkZone (fun t => if t <? spring then hour
                   else if t <? autumn then 2 * hour
                   else hour)
         (fun t => if t <? spring + 2 * hour then hour
                   else if t <? autumn + 2 * hour then 2 * hour
                   else hour).

(** Eastern time in 2024: five hours behind UTC, and four hours from
    10 March, 07:00 UTC, to 3 November, 06:00 UTC. *)
Definition eastern2024 : timeZone :=
  let hour := 3600000 in
  let spring := newDate (ymd 2024 3 10) + 7 * hour in
  let autumn := newDate (ymd 2024 11 3) + 6 * hour in
  mkZone (fun t => if t <? spring then - (5 * hour)
                   else if t <? autumn then - (4 * hour)
                   else - (5 * hour))
         (fun t => if t <? spring - 4 * hour then - (5 * hour)
                   else if t <? autumn - 4 * hour then - (4 * hour)
                   else - (5 * hour)).

Definition sampleTask (i : string) (c : bool) (subs : list task) : task :=
  mkTask i i c 0 None None "Low" None [] None subs.

Definition sampleFields : fields :=
  mkFields "Buy milk" None None None "Low" [] None.

(** Two tasks added to the empty list. *)
Definition sampleSteps : list (env * action) :=
  [(sampleEnv 1 "id-1", ADD_TODO sampleFields);
   (sampleEnv 2 "id-2", ADD_TODO sampleFields)].

Definition sampleS0 : array := mkArray 0 [].

Definition sampleS1 : array :=
  mkArray 1 [Some (newTodo (sampleEnv 1 "id-1") sampleFields)].

Definition sampleS2 : array :=
  mkArray 2 [Some (newTodo (sampleEnv 2 "id-2") sampleFields);
             Some (newTodo (sampleEnv 1 "id-1") sampleFields)].

(* ================================================================= *)
(** ** Further derived views *)

(** The clock as the views read it: [clock n] is the value of the [n]-th
    evaluation of [new Date()].  A callback that reads the clock takes the
    number of readings so far and returns the number after it. *)
Fixpoint filterReading (callback : task -> nat -> bool * nat) (n : nat)
         (todos : list task) : list task * nat :=
  match todos with
  | [] => ([], n)
  | t :: rest =>
      let (keep, n1) := callback t n in
      let (kept, n2) := filterReading callback n1 rest in
      (if keep then t :: kept else kept, n2)
  end.

(** [t.dueDate && !t.completed && new Date(t.dueDate) < new Date()]; the
    clock is read only when the first two conditions hold. *)
Definition overdueCallback (clock : nat -> Z) (t : task) (n : nat)
  : bool * nat :=
  match dueDate t with
  | Some d =>
      if negb (completed t) then (newDate d <? clock n, S n) else (false, n)
  | None => (false, n)
  end.

(** [t.dueDate && !t.completed && new Date(t.dueDate) >= new Date()] *)
Definition upcomingCallback (clock : nat -> Z) (t : task) (n : nat)
  : bool * nat :=
  match dueDate t with
  | Some d =>
      if negb (completed t) then (clock n <=? newDate d, S n) else (false, n)
  | None => (false, n)
  end.

Record columns : Type := mkColumns {
  overdue : list task;
  upcoming : list task;
  completedColumn : list task
}.

(** [getKanbanColumns()], entered after [n] readings of the clock. *)
Definition getKanbanColumns (clock : nat -> Z) (n : nat) (todos : list task)
  : columns :=
  let (overdue, n1) := filterReading (overdueCallback clock) n todos in
  let (upcoming, _) := filterReading (upcomingCallback clock) n1 todos in
  let completed := filter (fun t => completed t) todos in
  mkColumns overdue upcoming completed.

(** The tasks the hourly check notifies of, [upcomingTasks]; [now] is read
    once, before the filter. *)
Definition upcomingTasks (now : Z) (todos : list task) : list task :=
  filter (fun todo =>
            match dueDate todo with
            | None => false
            | Some d =>
                if completed todo then false
                else
                  let timeUntilDue := newDate d - now in
                  (0 <? timeUntilDue) &&
                  (timeUntilDue <=? 24 * 60 * 60 * 1000)
            end)
         todos.

(** [[...new Set(xs)]]: the elements in the order of their first
    occurrence. *)
Fixpoint setOf (seen xs : list string) : list string :=
  match xs with
  | [] => []
  | x :: rest =>
      if existsb (String.eqb x) seen then setOf seen rest
      else x :: setOf (x :: seen) rest
  end.

(** The tags of the tag bar,
    [[...new Set(todos.flatMap(todo => todo.tags || []).filter(t => t))]]. *)
Definition tagBar (todos : list task) : list string :=
  setOf []
    (filter (fun t => negb (String.eqb t ""))
            (flat_map (fun todo => tags todo) todos)).

(** [countTasks(t)] of [getProgress], on the two counters [totalTasks] and
    [completedTasks]. *)
Record counters : Type := mkCounters {
  totalTasks : Z;
  completedTasks : Z
}.

Fixpoint countTasks (t : task) (c : counters) : counters :=
  let c1 :=
    mkCounters (totalTasks c + 1)
               (if completed t then completedTasks c + 1
                else completedTasks c) in
  fold_left (fun acc s => countTasks s acc) (subtasks t) c1.

(** The counters of [getProgress(tasks)] after its [forEach]. *)
Definition progressCounters (tasks : list task) : counters :=
  fold_left (fun acc t => countTasks t acc) tasks (mkCounters 0 0).

(** The identifier paths the components dispatch with: a [NestedTaskItem]
    has [currentIdPath = [...parentIdPath, task.id]] and renders its subtasks
    with [parentIdPath = currentIdPath]; a [TodoItem] renders its subtasks
    with [parentIdPath = [todo.id]]. *)
Fixpoint nestedItemPaths (parentIdPath : path) (t : task)
  : list (path * task) :=
  let currentIdPath := parentIdPath ++ [id t] in
  (currentIdPath, t) :: flat_map (nestedItemPaths currentIdPath) (subtasks t).

Definition todoItemPaths (todo : task) : list (path * task) :=
  flat_map (nestedItemPaths [id todo]) (subtasks todo).

(* ================================================================= *)
(** ** Further vocabulary *)

(** The identifiers of all nodes of a forest. *)
Definition ids (tasks : list task) : list string := map id (nodes tasks).

(** The clock does not run backwards. *)
Definition monotone (clock : nat -> Z) : Prop :=
  forall i j, (i <= j)%nat -> clock i <= clock j.

(** The key of an update. *)
Definition same_key (u v : update) : bool :=
  match u, v with
  | u_id _, u_id _ | u_text _, u_text _ | u_completed _, u_completed _
  | u_createdAt _, u_createdAt _ | u_dueDate _, u_dueDate _
  | u_startDate _, u_startDate _ | u_priority _, u_priority _
  | u_recurrence _, u_recurrence _ | u_tags _, u_tags _
  | u_description _, u_description _ | u_subtasks _, u_subtasks _ => true
  | _, _ => false
  end.

(** An update that leaves the identifier and the subtasks alone. *)
Definition plain (u : update) : bool :=
  match u with
  | u_id _ | u_subtasks _ => false
  | _ => true
  end.

(** The rank of a priority: High above Medium, Medium above Low, and Low
    above every other value. *)
Definition priorityRank (p : string) : Z :=
  if String.eqb p "High"%string then 3
  else if String.eqb p "Medium"%string then 2
  else if String.eqb p "Low"%string then 1
  else 0.

(** A priority that is not the name of an inherited property. *)
Definition plainPriority (t : task) : Prop := ~ In (priority t) inheritedKeys.

(** Non-decreasing priority, non-increasing priority, and newest first. *)
Definition priority_le (a b : task) : Prop :=
  priorityRank (priority a) <= priorityRank (priority b).

Definition priority_ge (a b : task) : Prop :=
  priorityRank (priority b) <= priorityRank (priority a).

Definition newer_first (a b : task) : Prop := createdAt b <= createdAt a.

(** Latest due date first, a task without a due date before every date. *)
Definition due_ge (a b : task) : Prop := due_le b a.

(** The actions whose case reads a property of every root task. *)
Definition readsEveryTask (a : action) : bool :=
  match a with
  | ADD_NESTED_TASK _ _ | TOGGLE_TODO _ | TOGGLE_NESTED_TASK _
  | DELETE_TODO _ | DELETE_NESTED_TASK _ | UPDATE_TODO _ _
  | UPDATE_NESTED_TASK _ _ | CLEAR_COMPLETED => true
  | _ => false
  end.

(** [IMPORT_TODOS], which replaces the state by its payload. *)
Definition isIMPORT (a : action) : bool :=
  match a with IMPORT_TODOS _ => true | _ => false end.

(** The actions that lead from a forest to a forest, [IMPORT_TODOS] apart:
    all but [REORDER_TODOS] on the empty forest. *)
Definition keepsForest (tasks : list task) (a : action) : bool :=
  match a with
  | REORDER_TODOS _ _ =>
      match tasks with
      | [] => false
      | _ :: _ => true
      end
  | _ => true
  end.

(** A time zone whose offset from UTC is [tza] at every time. *)
Definition constantOffset (tz : timeZone) (tza : Z) : Prop :=
  (forall t, offsetAt tz t = tza) /\ (forall t, offsetOfLocal tz t = tza).

(** A time zone whose offsets differ by at most twelve hours. *)
Definition steady (tz : timeZone) : Prop :=
  forall t u, Z.abs (offsetAt tz t - offsetOfLocal tz u) <= msPerDay / 2.

(** The length of a recurrence period in days, at most. *)
Definition periodDays (r : period) : Z :=
  match r with
  | daily => 1
  | weekly => 7
  | monthly => 31
  end.

(** The total of a weight over the nodes of a forest. *)
Definition weight (w : task -> nat) (tasks : list task) : nat :=
  list_sum (map w (nodes tasks)).

(** The weight that counts the nodes with the identifier [x]. *)
Definition carries (x : string) (t : task) : nat :=
  if has_id x t then 1%nat else 0%nat.

(** The actions that cannot bring a second copy of an identifier into the
    forest by their payload: all but [IMPORT_TODOS] and the updates that set
    the key [id] or [subtasks]. *)
Definition keepsIdentifiers (a : action) : bool :=
  match a with
  | UPDATE_TODO _ updates | UPDATE_NESTED_TASK _ updates =>
      forallb plain updates
  | IMPORT_TODOS _ => false
  | _ => true
  end.

(* ================================================================= *)
(** ** Proof steps *)

(** Case analysis on every condition of a chain of conditionals. *)
Ltac destruct_conditions :=
  repeat match goal with
         | |- context [if ?c then _ else _] => destruct c
         end.

(** Case analysis on every comparison [a <? b], keeping what it decides. *)
Ltac destruct_ltb :=
  repeat match goal with
         | |- context [?a <? ?b] => destruct (Z.ltb_spec a b); cbv iota
         end.

(** The disjunct that holds by computation. *)
Ltac pick_case :=
  first [ repeat split; reflexivity
        | left; repeat split; reflexivity
        | right; pick_case ].

(** Two history states with the same history are equal when their indices
    are. *)
Ltac same_history :=
  apply (f_equal Some), (f_equal (mkHistory _)); lia.

(* ================================================================= *)
(** ** Path resolver: properties *)

Lemma set_subtasks_same (t : task) : set_subtasks t (subtasks t) = t.
Proof. destruct t; reflexivity. Qed.

Lemma map_same {A} (f : A -> A) (l : list A) :
  (forall x, In x l -> f x = x) -> map f l = l.
Proof.
  induction l as [|a l IH]; simpl; intros H; [reflexivity|].
  rewrite H by (left; reflexivity).
  rewrite IH; [reflexivity|]. intros x Hx; apply H; right; exact Hx.
Qed.

Lemma candidates_app (l1 l2 : list task) (p : path) :
  candidates (l1 ++ l2) p = candidates l1 p ++ candidates l2 p.
Proof.
  revert l1 l2; induction p as [|x p IH]; intros l1 l2; simpl; [reflexivity|].
  rewrite filter_app, flat_map_app. apply IH.
Qed.

Lemma candidates_In (tasks : list task) (x : string) (p : path) (t u : task) :
  In t tasks -> has_id x t = true -> In u (candidates (subtasks t) p) ->
  In u (candidates tasks (x :: p)).
Proof.
  intros Ht Hid Hu; simpl.
  apply in_split in Ht; destruct Ht as (l1 & l2 & ->).
  rewrite filter_app, flat_map_app, candidates_app. apply in_or_app; right.
  simpl; rewrite Hid; simpl. rewrite candidates_app.
  apply in_or_app; left; exact Hu.
Qed.

(** C7. Path resolution round-trip: updating with the identity function
    returns a forest structurally equal to the input; this holds for every
    path, so in particular for every valid path to a task. *)
Theorem findTaskAndUpdate_identity (tasks : forest) (idPath : path) :
  findTaskAndUpdate tasks idPath (fun task => task) = tasks.
Proof.
  revert tasks; induction idPath as [|x rest IH]; intros tasks.
  - simpl. apply map_id.
  - destruct rest as [|y rest'].
    + simpl. apply map_same. intros t _. destruct (has_id x t); reflexivity.
    + change (map (fun task => if has_id x task
                    then set_subtasks task
                           (findTaskAndUpdate (subtasks task) (y :: rest')
                                              (fun task0 => task0))
                    else task) tasks = tasks).
      apply map_same. intros t _. destruct (has_id x t); [|reflexivity].
      rewrite IH. apply set_subtasks_same.
Qed.

(** C6. Unresolvable path is a no-op: when the path holds, at some level, an
    identifier that no task of the candidate sequence of that level has, the
    update returns the input forest, whatever the transformation. *)
Theorem findTaskAndUpdate_unresolvable
        (tasks : forest) (f : task -> task) (pre : path) (x : string)
        (post : path) :
  forallb (fun t => negb (has_id x t)) (candidates tasks pre) = true ->
  findTaskAndUpdate tasks (pre ++ x :: post) f = tasks.
Proof.
  revert tasks; induction pre as [|y pre IH]; intros tasks H.
  - simpl in H. rewrite forallb_forall in H.
    assert (Hno : forall t, In t tasks -> has_id x t = false).
    { intros t Ht. specialize (H t Ht). destruct (has_id x t); [discriminate|reflexivity]. }
    destruct post as [|z post]; simpl; apply map_same; intros t Ht;
      rewrite (Hno t Ht); reflexivity.
  - rewrite forallb_forall in H.
    assert (Hstep : forall t, In t tasks -> has_id y t = true ->
                findTaskAndUpdate (subtasks t) (pre ++ x :: post) f = subtasks t).
    { intros t Ht Hid. apply IH. rewrite forallb_forall. intros u Hu.
      apply H. eapply candidates_In; eassumption. }
    change ((y :: pre) ++ x :: post) with (y :: (pre ++ x :: post)).
    destruct (pre ++ x :: post) as [|z rest] eqn:E.
    { destruct pre; discriminate. }
    change (map (fun task => if has_id y task
                  then set_subtasks task
                         (findTaskAndUpdate (subtasks task) (z :: rest) f)
                  else task) tasks = tasks).
    apply map_same. intros t Ht. destruct (has_id y t) eqn:Hid; [|reflexivity].
    rewrite (Hstep t Ht Hid). apply set_subtasks_same.
Qed.

(* ================================================================= *)
(** ** Task trees: auxiliary facts *)

Lemma tasks_of_map_Some (tasks : list task) :
  tasks_of (map Some tasks) = Some tasks.
Proof.
  induction tasks as [|t l IH]; simpl; [reflexivity|]. rewrite IH; reflexivity.
Qed.

(* ================================================================= *)
(** ** Toggle cascade *)

(** The source's form of [toggleAllNestedTasks]. *)
Lemma toggleAllNestedTasks_eq (tasks : list task) (completedStatus : bool) :
  toggleAllNestedTasks tasks completedStatus =
  map (fun task =>
         let updatedSubtasks :=
           toggleAllNestedTasks (subtasks task) completedStatus in
         set_completed_subtasks task completedStatus updatedSubtasks)
      tasks.
Proof.
  unfold toggleAllNestedTasks. apply map_ext. intros t.
  destruct t; reflexivity.
Qed.

Lemma toggleTask_labels (c : bool) (t : task) :
  map label (nodes_of (toggleTask c t)) =
  map (fun n => with_completed c (label n)) (nodes_of t).
Proof.
  induction t as [t Hsub] using task_nested_ind.
  assert (Hrec : map label (flat_map nodes_of (map (toggleTask c) (subtasks t))) =
                 map (fun n => with_completed c (label n))
                     (flat_map nodes_of (subtasks t))).
  { induction Hsub as [|c0 l0 Hc _ IH0]; [reflexivity|].
    simpl. rewrite !map_app, Hc, IH0. reflexivity. }
  destruct t; simpl in *. rewrite Hrec. reflexivity.
Qed.

Lemma toggleAllNestedTasks_labels (c : bool) (tasks : list task) :
  map label (nodes (toggleAllNestedTasks tasks c)) =
  map (fun n => with_completed c (label n)) (nodes tasks).
Proof.
  unfold nodes, toggleAllNestedTasks.
  induction tasks as [|t l IH]; [reflexivity|].
  simpl. rewrite !map_app, toggleTask_labels, IH. reflexivity.
Qed.

Lemma toggleAllNestedTasks_all (c : bool) (tasks : list task) :
  Forall (fun n => completed n = c) (nodes (toggleAllNestedTasks tasks c)).
Proof.
  apply Forall_forall. intros n Hn.
  apply (in_map label) in Hn. rewrite toggleAllNestedTasks_labels in Hn.
  apply in_map_iff in Hn. destruct Hn as (m & Hm & _).
  apply (f_equal completed) in Hm. simpl in Hm. congruence.
Qed.

Lemma toggled_id (e : env) (t : task) : id (toggled e t) = id t.
Proof. reflexivity. Qed.

Lemma filter_update (x : string) (g h : task -> task) (tasks : list task) :
  (forall t, has_id x t = true -> has_id x (h t) = true /\ h t = g t) ->
  (forall t, has_id x t = false -> has_id x (h t) = false) ->
  filter (has_id x) (map h tasks) = map g (filter (has_id x) tasks).
Proof.
  intros Hyes Hno. induction tasks as [|t l IH]; simpl; [reflexivity|].
  destruct (has_id x t) eqn:E.
  - destruct (Hyes t E) as [-> ->]. simpl. f_equal. exact IH.
  - rewrite (Hno t E). exact IH.
Qed.

Lemma flat_map_filter_update (x : string) (k : task -> list task)
      (g h : task -> task) (tasks : list task) :
  (forall t, has_id x (h t) = has_id x t) ->
  (forall t, has_id x t = true -> k (h t) = map g (k t)) ->
  flat_map k (filter (has_id x) (map h tasks)) =
  map g (flat_map k (filter (has_id x) tasks)).
Proof.
  intros Hid Hk. induction tasks as [|t l IH]; [reflexivity|].
  cbn [map filter]. rewrite Hid. destruct (has_id x t) eqn:E; [|exact IH].
  cbn [flat_map]. rewrite map_app, IH, (Hk t E). reflexivity.
Qed.

(** The tasks a path leads to after an update along that path are the
    updated tasks, when the update keeps identifiers. *)
Lemma resolve_findTaskAndUpdate (g : task -> task) :
  (forall t, id (g t) = id t) ->
  forall (idPath : path) (tasks : list task),
    resolve (findTaskAndUpdate tasks idPath g) idPath =
    map g (resolve tasks idPath).
Proof.
  intros Hg. induction idPath as [|x rest IH]; intros tasks; [reflexivity|].
  destruct rest as [|y rest'].
  - simpl. apply filter_update.
    + intros t E. rewrite E. split; [|reflexivity].
      unfold has_id in *. rewrite Hg. exact E.
    + intros t E. rewrite E. exact E.
  - change (flat_map (fun t => resolve (subtasks t) (y :: rest'))
              (filter (has_id x)
                 (map (fun task => if has_id x task
                         then set_subtasks task
                                (findTaskAndUpdate (subtasks task) (y :: rest') g)
                         else task) tasks)) =
            map g (flat_map (fun t => resolve (subtasks t) (y :: rest'))
                            (filter (has_id x) tasks))).
    apply flat_map_filter_update.
    + intros t. destruct (has_id x t) eqn:E; [|exact E]. exact E.
    + intros t E. rewrite E. apply IH.
Qed.

(** C4. Toggle cascade: [TOGGLE_TODO] and [TOGGLE_NESTED_TASK] replace every
    task the identifier or path leads to by its toggled version, and the
    toggled version of a task has the flipped [completed] flag and a subtree
    in which every node, whatever its flag was, has that new value and is
    otherwise as before. *)
Theorem toggle_cascade (e : env) (r : nat) (tasks : forest) :
  (forall i,
      todoReducer e (Some (mkArray r (map Some tasks))) (TOGGLE_TODO i) =
      Some (mkArray (fresh e) (map Some (reduceTasks e tasks (TOGGLE_TODO i))))
      /\ resolve (reduceTasks e tasks (TOGGLE_TODO i)) [i] =
         map (toggled e) (resolve tasks [i])) /\
  (forall idPath,
      todoReducer e (Some (mkArray r (map Some tasks)))
                  (TOGGLE_NESTED_TASK idPath) =
      Some (mkArray (fresh e)
                    (map Some (reduceTasks e tasks (TOGGLE_NESTED_TASK idPath))))
      /\ resolve (reduceTasks e tasks (TOGGLE_NESTED_TASK idPath)) idPath =
         map (toggled e) (resolve tasks idPath)) /\
  (forall T,
      id (toggled e T) = id T /\
      completed (toggled e T) = negb (completed T) /\
      Forall (fun n => completed n = negb (completed T))
             (nodes (subtasks (toggled e T))) /\
      map label (nodes (subtasks (toggled e T))) =
      map (fun n => with_completed (negb (completed T)) (label n))
          (nodes (subtasks T))).
Proof.
  split; [|split].
  - intros i. split.
    + unfold todoReducer. cbn [elems]. rewrite tasks_of_map_Some. reflexivity.
    + apply (resolve_findTaskAndUpdate (toggled e) (toggled_id e) [i]).
  - intros idPath. split.
    + unfold todoReducer. cbn [elems]. rewrite tasks_of_map_Some. reflexivity.
    + apply (resolve_findTaskAndUpdate (toggled e) (toggled_id e)).
  - intros T. split; [reflexivity|]. split; [reflexivity|]. split.
    + apply toggleAllNestedTasks_all.
    + apply toggleAllNestedTasks_labels.
Qed.

(* ================================================================= *)
(** ** Clearing completed tasks *)

Lemma clearTask_eq (t : task) :
  clearTask t = set_subtasks t (clearNestedCompleted (subtasks t)).
Proof.
  destruct t as [i tx c ca dd sd pr re tg de subs].
  unfold clearNestedCompleted. cbn [clearTask subtasks]. f_equal.
  induction subs as [|s l IH]; [reflexivity|].
  cbn [filter map]. destruct (negb (completed s)); cbn [map]; rewrite IH;
    reflexivity.
Qed.

(** The source's form of [clearNestedCompleted]. *)
Lemma clearNestedCompleted_eq (tasks : list task) :
  clearNestedCompleted tasks =
  map (fun task => set_subtasks task (clearNestedCompleted (subtasks task)))
      (filter (fun task => negb (completed task)) tasks).
Proof.
  unfold clearNestedCompleted at 1. apply map_ext. intros t. apply clearTask_eq.
Qed.

Lemma reduceTasks_CLEAR_COMPLETED (e : env) (tasks : list task) :
  reduceTasks e tasks CLEAR_COMPLETED = clearNestedCompleted tasks.
Proof.
  rewrite clearNestedCompleted_eq. reflexivity.
Qed.

Lemma nodes_under_eq (ancestors : list task) (t : task) :
  nodes_under ancestors t =
  (ancestors, t) :: flat_map (nodes_under (t :: ancestors)) (subtasks t).
Proof. destruct t; reflexivity. Qed.

Lemma nodes_of_eq (t : task) :
  nodes_of t = t :: flat_map nodes_of (subtasks t).
Proof. destruct t; reflexivity. Qed.

Lemma survives_cons (ancestors : list task) (t : task) :
  survives (ancestors, t) =
  forallb (fun a => negb (completed a)) (t :: ancestors).
Proof. reflexivity. Qed.

(** Below a completed ancestor nothing survives. *)
Lemma survives_none (t : task) :
  forall ancestors,
    forallb (fun a => negb (completed a)) ancestors = false ->
    filter survives (nodes_under ancestors t) = [].
Proof.
  induction t as [t Hsub] using task_nested_ind. intros ancestors Hanc.
  assert (Hanc' : forallb (fun a => negb (completed a)) (t :: ancestors) = false).
  { cbn [forallb]. rewrite Hanc. apply andb_false_r. }
  rewrite nodes_under_eq. cbn [filter]. rewrite survives_cons, Hanc'.
  revert Hanc'. generalize (t :: ancestors) as anc'. intros anc' Hanc'.
  induction Hsub as [|c l Hc _ IH]; [reflexivity|].
  cbn [flat_map]. rewrite filter_app, (Hc anc' Hanc'), IH. reflexivity.
Qed.

Lemma survivors_of_task (t : task) :
  forall ancestors,
    forallb (fun a => negb (completed a)) ancestors = true ->
    map (fun n => label (snd n)) (filter survives (nodes_under ancestors t)) =
    if completed t then [] else map label (nodes_of (clearTask t)).
Proof.
  induction t as [t Hsub] using task_nested_ind. intros ancestors Hanc.
  rewrite nodes_under_eq. cbn [filter]. rewrite survives_cons.
  destruct (completed t) eqn:Ec.
  - assert (Hanc' : forallb (fun a => negb (completed a)) (t :: ancestors) = false).
    { cbn [forallb]. rewrite Ec. reflexivity. }
    rewrite Hanc'.
    revert Hanc'. generalize (t :: ancestors) as anc'. intros anc' Hanc'.
    clear Hsub. induction (subtasks t) as [|c l IH]; [reflexivity|].
    cbn [flat_map]. rewrite filter_app, (survives_none c anc' Hanc').
    exact IH.
  - assert (Hanc' : forallb (fun a => negb (completed a)) (t :: ancestors) = true).
    { cbn [forallb]. rewrite Ec, Hanc. reflexivity. }
    rewrite Hanc', clearTask_eq, nodes_of_eq.
    cbn [map snd subtasks set_subtasks]. f_equal.
    revert Hanc'. generalize (t :: ancestors) as anc'. intros anc' Hanc'.
    unfold clearNestedCompleted.
    induction Hsub as [|c l Hc _ IH]; [reflexivity|].
    cbn [flat_map filter]. rewrite filter_app, map_app, (Hc anc' Hanc'), IH.
    destruct (completed c); cbn [negb map flat_map]; [reflexivity|].
    rewrite map_app. reflexivity.
Qed.

Lemma survivors_of_forest (tasks : list task) :
  map label (nodes (clearNestedCompleted tasks)) =
  map (fun n => label (snd n)) (filter survives (nodes_with_ancestors tasks)).
Proof.
  unfold nodes, nodes_with_ancestors, clearNestedCompleted.
  induction tasks as [|t l IH]; [reflexivity|].
  cbn [flat_map filter]. rewrite filter_app, map_app, <- IH.
  rewrite (survivors_of_task t [] eq_refl).
  destruct (completed t); cbn [negb map flat_map]; [reflexivity|].
  rewrite map_app. reflexivity.
Qed.

(** C2. [CLEAR_COMPLETED] removes every completed task at every depth: the
    result is [clearNestedCompleted] of the forest, which drops the completed
    tasks of a level with their subtrees and clears the subtasks of the
    others in the same way; its nodes are, in order, the nodes of the input
    that are not completed and have no completed ancestor, and none of them
    is completed. *)
Theorem clear_completed_survivors (e : env) (r : nat) (tasks : forest) :
  let result := reduceTasks e tasks CLEAR_COMPLETED in
  todoReducer e (Some (mkArray r (map Some tasks))) CLEAR_COMPLETED =
  Some (mkArray (fresh e) (map Some result)) /\
  result =
  map (fun task => set_subtasks task (clearNestedCompleted (subtasks task)))
      (filter (fun task => negb (completed task)) tasks) /\
  (forall sub, clearNestedCompleted sub =
     map (fun task => set_subtasks task (clearNestedCompleted (subtasks task)))
         (filter (fun task => negb (completed task)) sub)) /\
  map label (nodes result) =
  map (fun n => label (snd n)) (filter survives (nodes_with_ancestors tasks)) /\
  Forall (fun n => completed n = false) (nodes result).
Proof.
  intros result. split; [|split; [|split; [|split]]].
  - unfold todoReducer. cbn [elems]. rewrite tasks_of_map_Some. reflexivity.
  - reflexivity.
  - apply clearNestedCompleted_eq.
  - unfold result. rewrite reduceTasks_CLEAR_COMPLETED.
    apply survivors_of_forest.
  - unfold result. rewrite reduceTasks_CLEAR_COMPLETED.
    apply Forall_forall. intros n Hn. apply (in_map label) in Hn.
    rewrite survivors_of_forest in Hn. apply in_map_iff in Hn.
    destruct Hn as ([anc m] & Hm & Hin). apply filter_In in Hin.
    destruct Hin as [_ Hs]. unfold survives in Hs. cbn [fst snd forallb] in Hs.
    apply andb_true_iff in Hs. destruct Hs as [Hs _].
    apply (f_equal completed) in Hm. cbn in Hm. rewrite <- Hm.
    destruct (completed m); [discriminate|reflexivity].
Qed.

(* ================================================================= *)
(** ** Reordering the root tasks *)

Lemma relativeIndex_range (len i : Z) :
  0 <= len -> 0 <= relativeIndex len i <= len.
Proof. unfold relativeIndex. destruct (i <? 0) eqn:E; lia. Qed.

Lemma splice_delete_at {A} (l1 : list A) (x : A) (l2 : list A) (start : Z) :
  relativeIndex (Z.of_nat (List.length (l1 ++ x :: l2))) start =
  Z.of_nat (List.length l1) ->
  splice (l1 ++ x :: l2) start 1 [] = (l1 ++ l2, [x]).
Proof.
  intros H. unfold splice. rewrite H, Nat2Z.id.
  rewrite firstn_app, firstn_all, Nat.sub_diag, skipn_app, skipn_all,
    Nat.sub_diag.
  cbn [firstn skipn app]. rewrite app_nil_r.
  replace (Z.to_nat _) with 1%nat.
  - reflexivity.
  - rewrite length_app. cbn [List.length]. lia.
Qed.

Lemma splice_insert_at {A} (ys : list A) (start : Z) (x : A) :
  let p := Z.to_nat (relativeIndex (Z.of_nat (List.length ys)) start) in
  fst (splice ys start 0 [x]) = firstn p ys ++ x :: skipn p ys.
Proof.
  intros p. unfold splice. cbn [fst].
  pose proof (relativeIndex_range (Z.of_nat (List.length ys)) start
                                  (Nat2Z.is_nonneg _)) as Hr.
  replace (Z.to_nat (Z.min (Z.max 0 0) _)) with 0%nat by lia.
  reflexivity.
Qed.

(** [findIndex] on an array of tasks: -1 when no task has the identifier,
    and the position of the first one that has it otherwise. *)
Lemma findIndexFrom_tasks (x : string) (tasks : list task) :
  forall i,
    (forallb (fun t => negb (has_id x t)) tasks = true /\
     findIndexFrom i (map Some tasks) x = Some (-1)) \/
    (exists l1 t l2,
        tasks = l1 ++ t :: l2 /\ has_id x t = true /\
        forallb (fun t => negb (has_id x t)) l1 = true /\
        findIndexFrom i (map Some tasks) x =
        Some (i + Z.of_nat (List.length l1))).
Proof.
  induction tasks as [|t l IH]; intros i.
  - left. split; reflexivity.
  - cbn [map findIndexFrom forallb]. destruct (has_id x t) eqn:E.
    + right. exists [], t, l. cbn [List.length app forallb].
      repeat split; try reflexivity; try assumption. f_equal. lia.
    + destruct (IH (i + 1)) as [[Hall Hf] | (l1 & u & l2 & -> & Hu & Hl1 & Hf)].
      * left. split; [exact Hall | exact Hf].
      * right. exists (t :: l1), u, l2. cbn [List.length app forallb].
        rewrite E, Hl1. repeat split; try reflexivity; try assumption.
        rewrite Hf. f_equal. lia.
Qed.

(** Where the dragged task lands: [t], at position [relativeIndex] of what
    is left, when it is the element between [l1] and [l2]. *)
Lemma reorderTodos_tasks (l1 : list task) (t : task) (l2 : list task)
      (dragId dropId : string) (dragIndex dropIndex : Z) :
  findIndex (map Some (l1 ++ t :: l2)) dragId = Some dragIndex ->
  findIndex (map Some (l1 ++ t :: l2)) dropId = Some dropIndex ->
  relativeIndex (Z.of_nat (List.length (l1 ++ t :: l2))) dragIndex =
  Z.of_nat (List.length l1) ->
  let p := Z.to_nat (relativeIndex (Z.of_nat (List.length (l1 ++ l2)))
                                   dropIndex) in
  reorderTodos (map Some (l1 ++ t :: l2)) dragId dropId =
  Some (map Some (firstn p (l1 ++ l2) ++ t :: skipn p (l1 ++ l2))).
Proof.
  intros Hdrag Hdrop Hrel p. unfold reorderTodos. rewrite Hdrag, Hdrop.
  rewrite map_app. cbn [map].
  rewrite (splice_delete_at (map Some l1) (Some t) (map Some l2) dragIndex).
  - rewrite splice_insert_at. rewrite <- map_app, length_map.
    fold p. rewrite (map_app Some (firstn p (l1 ++ l2))). cbn [map].
    rewrite firstn_map, skipn_map. reflexivity.
  - rewrite length_map. rewrite <- Hrel. f_equal.
    rewrite !length_app. cbn [List.length]. rewrite !length_map. reflexivity.
Qed.

Lemma Permutation_reinsert {A} (l1 l2 : list A) (x : A) (p : nat) :
  Permutation (l1 ++ x :: l2)
              (firstn p (l1 ++ l2) ++ x :: skipn p (l1 ++ l2)).
Proof.
  transitivity (x :: l1 ++ l2).
  - symmetry. apply Permutation_middle.
  - rewrite <- (firstn_skipn p (l1 ++ l2)) at 1. apply Permutation_middle.
Qed.

Lemma forallb_false_exists {A} (f : A -> bool) (l : list A) :
  forallb f l = true ->
  forall l1 x l2, l = l1 ++ x :: l2 -> f x = true.
Proof.
  intros H l1 x l2 ->. rewrite forallb_app in H.
  apply andb_true_iff in H. destruct H as [_ H]. cbn [forallb] in H.
  apply andb_true_iff in H. tauto.
Qed.

(** C10. [REORDER_TODOS] on a non-empty forest returns a rearrangement of
    the root tasks, whatever the two identifiers; when no root task has the
    identifier [dragId], it is the last root task that is taken out and put
    back at the drop position; on the empty forest the result is an array
    with one [undefined] element. *)
Theorem reorder_permutes_roots (e : env) (r : nat) (t0 : task)
        (rest : list task) (dragId dropId : string) :
  let tasks := t0 :: rest in
  (exists result,
      todoReducer e (Some (mkArray r (map Some tasks)))
                  (REORDER_TODOS dragId dropId) =
      Some (mkArray (fresh e) (map Some result)) /\
      Permutation tasks result /\
      (forallb (fun t => negb (has_id dragId t)) tasks = true ->
       exists dropIndex,
         findIndex (map Some tasks) dropId = Some dropIndex /\
         let others := removelast tasks in
         let p := Z.to_nat (relativeIndex (Z.of_nat (List.length others))
                                          dropIndex) in
         result = firstn p others ++ last tasks t0 :: skipn p others)) /\
  todoReducer e (Some (mkArray r [])) (REORDER_TODOS dragId dropId) =
  Some (mkArray (fresh e) [None]) /\
  ~ Permutation (@nil slot) [None].
Proof.
  intros tasks. split; [|split].
  - assert (Hdrop : exists dropIndex,
               findIndex (map Some tasks) dropId = Some dropIndex).
    { unfold findIndex.
      destruct (findIndexFrom_tasks dropId tasks 0)
        as [[_ H] | (l1 & u & l2 & _ & _ & _ & H)]; eauto. }
    destruct Hdrop as (dropIndex & Hdrop).
    destruct (findIndexFrom_tasks dragId tasks 0)
      as [[Hall Hf] | (l1 & u & l2 & Hsplit & Hu & Hl1 & Hf)].
    + (* no task has the identifier: the last one goes *)
      assert (Hlast : tasks = removelast tasks ++ last tasks t0 :: []).
      { apply app_removelast_last. discriminate. }
      pose proof (reorderTodos_tasks (removelast tasks) (last tasks t0) []
                    dragId dropId (-1) dropIndex) as H.
      rewrite <- Hlast, app_nil_r in H.
      specialize (H Hf Hdrop).
      assert (Hrel : relativeIndex (Z.of_nat (List.length tasks)) (-1) =
                     Z.of_nat (List.length (removelast tasks))).
      { rewrite Hlast at 1. rewrite length_app. cbn [List.length].
        unfold relativeIndex. cbn. lia. }
      specialize (H Hrel). cbn zeta in H.
      eexists. split; [|split].
      * unfold todoReducer. cbn [elems]. rewrite H. reflexivity.
      * rewrite Hlast at 1.
        match goal with
        | |- Permutation _ (firstn ?p _ ++ _) =>
            pose proof (Permutation_reinsert (removelast tasks) []
                                             (last tasks t0) p) as HP
        end.
        rewrite app_nil_r in HP. exact HP.
      * intros _. exists dropIndex. split; [exact Hdrop | reflexivity].
    + pose proof (reorderTodos_tasks l1 u l2 dragId dropId
                    (Z.of_nat (List.length l1)) dropIndex) as H.
      rewrite <- Hsplit in H. rewrite Z.add_0_l in Hf. specialize (H Hf Hdrop).
      assert (Hrel : relativeIndex (Z.of_nat (List.length tasks))
                                   (Z.of_nat (List.length l1)) =
                     Z.of_nat (List.length l1)).
      { rewrite Hsplit, length_app. cbn [List.length]. unfold relativeIndex.
        destruct (Z.of_nat (List.length l1) <? 0) eqn:E; lia. }
      specialize (H Hrel). cbn zeta in H.
      eexists. split; [|split].
      * unfold todoReducer. cbn [elems]. rewrite H. reflexivity.
      * rewrite Hsplit. apply Permutation_reinsert.
      * intros Hall. exfalso.
        pose proof (forallb_false_exists _ _ Hall l1 u l2 Hsplit) as Hn.
        cbn in Hn. rewrite Hu in Hn. discriminate.
  - reflexivity.
  - intros H. apply Permutation_length in H. discriminate.
Qed.

(* ================================================================= *)
(** ** Sorting by due date *)

Lemma insert_Permutation {A} (cmp : A -> A -> number) (x : A) (l : list A) :
  Permutation (x :: l) (insert cmp x l).
Proof.
  induction l as [|y l IH]; cbn [insert]; [reflexivity|].
  destruct (positive (cmp x y)); [|reflexivity].
  rewrite perm_swap. apply perm_skip, IH.
Qed.

Lemma sort_Permutation {A} (cmp : A -> A -> number) (l : list A) :
  Permutation l (sort cmp l).
Proof.
  induction l as [|x l IH]; cbn [sort fold_right]; [reflexivity|].
  rewrite <- insert_Permutation. apply perm_skip, IH.
Qed.

Section SortedByKey.

Context {A : Type}.
Variable cmp : A -> A -> number.
Variable le : A -> A -> Prop.
Hypothesis le_trans : forall a b c, le a b -> le b c -> le a c.
Hypothesis cmp_le : forall a b, positive (cmp a b) = false -> le a b.
Hypothesis cmp_gt : forall a b, positive (cmp a b) = true -> le b a.

Lemma insert_sorted (x : A) (l : list A) :
  StronglySorted le l -> StronglySorted le (insert cmp x l).
Proof.
  induction 1 as [|y l Hl IH Hy]; cbn [insert].
  - constructor; constructor.
  - destruct (positive (cmp x y)) eqn:E.
    + constructor; [exact IH|].
      rewrite <- insert_Permutation. constructor; [|exact Hy].
      apply cmp_gt, E.
    + constructor; [constructor; assumption|].
      constructor; [apply cmp_le, E|].
      eapply Forall_impl; [|exact Hy]. intros z Hz.
      eapply le_trans; [apply cmp_le, E | exact Hz].
Qed.

Lemma sort_sorted (l : list A) : StronglySorted le (sort cmp l).
Proof.
  induction l as [|x l IH]; cbn [sort fold_right]; [constructor|].
  apply insert_sorted, IH.
Qed.

End SortedByKey.

Lemma due_le_trans (a b c : task) : due_le a b -> due_le b c -> due_le a c.
Proof.
  unfold due_le.
  destruct (dueDate a), (dueDate b), (dueDate c); try tauto; lia.
Qed.

Lemma compare_due_le (a b : task) :
  positive (compareTodos "dueDate" "asc" a b) = false -> due_le a b.
Proof.
  unfold due_le. cbn. unfold dueVal, newDate, msPerDay.
  destruct (dueDate a), (dueDate b); cbn; try discriminate; try tauto.
  intros H. apply Z.ltb_ge in H. lia.
Qed.

Lemma compare_due_gt (a b : task) :
  positive (compareTodos "dueDate" "asc" a b) = true -> due_le b a.
Proof.
  unfold due_le. cbn. unfold dueVal, newDate, msPerDay.
  destruct (dueDate a), (dueDate b); cbn; try discriminate; try tauto.
  intros H. apply Z.ltb_lt in H. lia.
Qed.

Lemma StronglySorted_suffix {A} (le : A -> A -> Prop) (l1 l2 : list A) :
  StronglySorted le (l1 ++ l2) -> StronglySorted le l2.
Proof.
  induction l1 as [|x l1 IH]; cbn [app]; intros H; [exact H|].
  apply StronglySorted_inv in H. apply IH, H.
Qed.

Lemma sort_by_due_sorted (l : list task) :
  StronglySorted due_le (sort (compareTodos "dueDate" "asc") l).
Proof.
  apply (sort_sorted _ due_le due_le_trans compare_due_le compare_due_gt).
Qed.

(** C9. Due-date sort order: sorted by due date in ascending order, the
    tasks that pass the filters are in non-decreasing order of [due_le], in
    which a task without a due date is later than every date; by positions,
    of two tasks of the sorted list the later one has a due date only if the
    earlier one has, and then the earlier date is not the greater one. *)
Theorem due_date_sort_order (todos : list task) (searchQuery : string)
        (filteredTag : option string) (statusFilter : string) :
  let sorted := getFilteredAndSortedTodos todos searchQuery filteredTag
                                          statusFilter "dueDate" "asc" in
  StronglySorted due_le sorted /\
  Permutation (filterTodos todos searchQuery filteredTag statusFilter) sorted /\
  (forall l1 a l2 b l3,
      sorted = l1 ++ a :: l2 ++ b :: l3 ->
      match dueDate b with
      | Some y => exists x, dueDate a = Some x /\ x <= y
      | None => True
      end).
Proof.
  intros sorted. split; [|split].
  - apply sort_by_due_sorted.
  - apply sort_Permutation.
  - intros l1 a l2 b l3 E.
    pose proof (sort_by_due_sorted
                  (filterTodos todos searchQuery filteredTag statusFilter))
      as H.
    fold (getFilteredAndSortedTodos todos searchQuery filteredTag statusFilter
                                    "dueDate" "asc") in H.
    fold sorted in H. rewrite E in H.
    apply StronglySorted_suffix in H. apply StronglySorted_inv in H.
    destruct H as [_ H]. rewrite Forall_forall in H.
    specialize (H b (in_elt b l2 l3)).
    unfold due_le in H. destruct (dueDate a), (dueDate b); try tauto.
    eexists; split; [reflexivity | exact H].
Qed.

(* ================================================================= *)
(** ** Calendar arithmetic *)

Lemma DayFromYear_succ (y : Z) : DayFromYear (y + 1) = DayFromYear y + DaysInYear y.
Proof.
  unfold DayFromYear, DaysInYear.
  destruct (Z.eqb_spec (y mod 4) 0), (Z.eqb_spec (y mod 100) 0),
    (Z.eqb_spec (y mod 400) 0); cbn [negb];
    Z.div_mod_to_equations; lia.
Qed.

Lemma DayFromYear_mono (y1 y2 : Z) :
  y1 < y2 -> DayFromYear y1 < DayFromYear y2.
Proof.
  unfold DayFromYear. intros H. Z.div_mod_to_equations. lia.
Qed.

(** [YearFromTime t] is the year that the day of [t] falls in, that is the
    largest year that starts on or before that day. *)
Lemma YearFromTime_spec (t : Z) :
  DayFromYear (YearFromTime t) <= Day t < DayFromYear (YearFromTime t + 1).
Proof.
  unfold YearFromTime. set (d := Day t). clearbody d.
  set (y := 1970 + 400 * d / 146097).
  assert (Hy : y = 1970 + 400 * d / 146097) by reflexivity. clearbody y.
  destruct (Z.ltb_spec d (DayFromYear y)) as [H1|H1].
  - replace (y - 1 + 1) with y by lia. split; [|exact H1].
    revert H1. unfold DayFromYear. Z.div_mod_to_equations. lia.
  - destruct (Z.leb_spec (DayFromYear (y + 1)) d) as [H2|H2].
    + split; [exact H2|].
      revert H2. unfold DayFromYear. Z.div_mod_to_equations. lia.
    + split; assumption.
Qed.

Lemma YearFromTime_largest (t y : Z) :
  DayFromYear y <= Day t -> y <= YearFromTime t.
Proof.
  intros H. destruct (Z.le_gt_cases y (YearFromTime t)) as [|Hgt]; [assumption|].
  pose proof (YearFromTime_spec t) as [_ Hs].
  destruct (Z.eq_dec y (YearFromTime t + 1)) as [->|Hne]; [lia|].
  pose proof (DayFromYear_mono (YearFromTime t + 1) y ltac:(lia)). lia.
Qed.

Lemma MonthFromTime_range (t : Z) : 0 <= MonthFromTime t <= 11.
Proof.
  unfold MonthFromTime. destruct_conditions; lia.
Qed.

Lemma InLeapYear_cases (t : Z) :
  (InLeapYear t = 0 /\ DaysInYear (YearFromTime t) = 365) \/
  (InLeapYear t = 1 /\ DaysInYear (YearFromTime t) = 366).
Proof.
  unfold InLeapYear.
  assert (H : DaysInYear (YearFromTime t) = 365 \/
              DaysInYear (YearFromTime t) = 366).
  { unfold DaysInYear.
    destruct_conditions; auto. }
  destruct H as [-> | ->]; [left | right]; split; reflexivity.
Qed.

Lemma Day_TimeWithinDay (t : Z) : Day t * msPerDay + TimeWithinDay t = t.
Proof.
  unfold Day, TimeWithinDay, msPerDay.
  pose proof (Z.div_mod t 86400000 ltac:(lia)). lia.
Qed.

(** [MakeDay] at the fields of a time value gives back its day, moved by the
    change of the day of the month. *)
Lemma MakeDay_same_month (t n : Z) :
  MakeDay (YearFromTime t) (MonthFromTime t) (DateFromTime t + n) = Day t + n.
Proof.
  pose proof (MonthFromTime_range t) as Hm.
  unfold MakeDay, DateFromTime, DayWithinYear.
  replace (MonthFromTime t / 12) with 0 by (Z.div_mod_to_equations; lia).
  replace (MonthFromTime t mod 12) with (MonthFromTime t)
    by (Z.div_mod_to_equations; lia).
  rewrite Z.add_0_r. fold (InLeapYear t). lia.
Qed.

Lemma setDate_getDate (tz : timeZone) (t n : Z) :
  setDate tz t (getDate tz t + n) = UTC tz (LocalTime tz t + n * msPerDay).
Proof.
  unfold setDate, getDate, MakeDate. cbn zeta.
  rewrite MakeDay_same_month. f_equal.
  pose proof (Day_TimeWithinDay (LocalTime tz t)) as H. lia.
Qed.

(** One month later is 28 to 31 days later. *)
Lemma MakeDay_next_month (t : Z) :
  exists n, 28 <= n <= 31 /\
    MakeDay (YearFromTime t) (MonthFromTime t + 1) (DateFromTime t) = Day t + n.
Proof.
  pose proof (MonthFromTime_range t) as Hm.
  pose proof (InLeapYear_cases t) as Hl.
  pose proof (DayFromYear_succ (YearFromTime t)) as Hs.
  unfold MakeDay, DateFromTime, DayWithinYear.
  destruct (Z.eq_dec (MonthFromTime t) 11) as [E|E].
  - rewrite E. change ((11 + 1) / 12) with 1. change ((11 + 1) mod 12) with 0.
    exists 31. split; [lia|]. rewrite Hs. unfold monthStart. cbn.
    destruct Hl as [[-> ->] | [-> ->]]; lia.
  - replace ((MonthFromTime t + 1) / 12) with 0
      by (Z.div_mod_to_equations; lia).
    replace ((MonthFromTime t + 1) mod 12) with (MonthFromTime t + 1)
      by (Z.div_mod_to_equations; lia).
    rewrite Z.add_0_r. fold (InLeapYear t).
    exists (monthStart (MonthFromTime t + 1) (InLeapYear t) -
            monthStart (MonthFromTime t) (InLeapYear t)).
    split; [|lia].
    assert (Hcases : MonthFromTime t = 0 \/ MonthFromTime t = 1 \/
                     MonthFromTime t = 2 \/ MonthFromTime t = 3 \/
                     MonthFromTime t = 4 \/ MonthFromTime t = 5 \/
                     MonthFromTime t = 6 \/ MonthFromTime t = 7 \/
                     MonthFromTime t = 8 \/ MonthFromTime t = 9 \/
                     MonthFromTime t = 10) by lia.
    destruct Hl as [[-> _] | [-> _]];
      repeat (destruct Hcases as [-> | Hcases]; [cbn; lia|]);
      rewrite Hcases; cbn; lia.
Qed.

Lemma setMonth_getMonth (tz : timeZone) (t : Z) :
  exists n, 28 <= n <= 31 /\
    setMonth tz t (getMonth tz t + 1) = UTC tz (LocalTime tz t + n * msPerDay).
Proof.
  destruct (MakeDay_next_month (LocalTime tz t)) as (n & Hn & E).
  exists n. split; [exact Hn|].
  unfold setMonth, getMonth, MakeDate. cbn zeta. rewrite E. f_equal.
  pose proof (Day_TimeWithinDay (LocalTime tz t)) as H. lia.
Qed.

(** Each iteration of the loop moves the local time by whole days: one,
    seven, or the days of the local month, and reads the result as a local
    time again. *)
Lemma advance_local (tz : timeZone) (r : period) (t : Z) :
  exists n,
    1 <= n <= periodDays r /\
    (r = daily -> n = 1) /\ (r = weekly -> n = 7) /\
    (r = monthly -> 28 <= n) /\
    advance tz r t = UTC tz (LocalTime tz t + n * msPerDay).
Proof.
  destruct r; cbn [advance periodDays].
  - exists 1. split; [lia|]. split; [reflexivity|].
    split; [discriminate|]. split; [discriminate|]. apply setDate_getDate.
  - exists 7. split; [lia|]. split; [discriminate|].
    split; [reflexivity|]. split; [discriminate|]. apply setDate_getDate.
  - destruct (setMonth_getMonth tz t) as (n & Hn & E).
    exists n. split; [lia|]. split; [discriminate|].
    split; [discriminate|]. split; [lia | exact E].
Qed.

Lemma UTC_LocalTime_constant (tz : timeZone) (tza t x : Z) :
  constantOffset tz tza -> UTC tz (LocalTime tz t + x) = t + x.
Proof.
  intros [Hat Hof]. unfold UTC, LocalTime. rewrite Hat, Hof. lia.
Qed.

Lemma constantOffset_steady (tz : timeZone) (tza : Z) :
  constantOffset tz tza -> steady tz.
Proof.
  intros [Hat Hof] t u. rewrite Hat, Hof, Z.sub_diag. cbn. lia.
Qed.

(** With a constant offset each iteration moves the date by whole days. *)
Lemma advance_period (tz : timeZone) (tza : Z) (r : period) (t : Z) :
  constantOffset tz tza ->
  exists n, 1 <= n <= periodDays r /\ advance tz r t = t + n * msPerDay.
Proof.
  intros Hc. destruct (advance_local tz r t) as (n & Hn & _ & _ & _ & E).
  exists n. split; [exact Hn|].
  rewrite E. apply (UTC_LocalTime_constant tz tza), Hc.
Qed.

(** In a steady time zone each iteration moves the date by half a day at
    least. *)
Lemma advance_progress (tz : timeZone) (r : period) (t : Z) :
  steady tz -> t + msPerDay / 2 <= advance tz r t.
Proof.
  intros Hs. destruct (advance_local tz r t) as (n & Hn & _ & _ & _ & E).
  rewrite E. unfold UTC, LocalTime.
  specialize (Hs t (t + offsetAt tz t + n * msPerDay)).
  change (msPerDay / 2) with 43200000 in *. unfold msPerDay in *. lia.
Qed.

(** The year of a day between the starts of two successive years. *)
Lemma YearFromTime_unique (t y : Z) :
  DayFromYear y <= Day t < DayFromYear (y + 1) -> YearFromTime t = y.
Proof.
  intros [Hlo Hhi]. pose proof (YearFromTime_largest t y Hlo) as Hle.
  destruct (Z.eq_dec (YearFromTime t) y) as [|Hne]; [assumption|].
  pose proof (YearFromTime_spec t) as [Hs _].
  destruct (Z.eq_dec (YearFromTime t) (y + 1)) as [E|Hne']; [rewrite E in Hs; lia|].
  pose proof (DayFromYear_mono (y + 1) (YearFromTime t) ltac:(lia)). lia.
Qed.

Lemma Day_MakeDate (day time : Z) :
  0 <= time < msPerDay -> Day (MakeDate day time) = day.
Proof.
  unfold Day, MakeDate, msPerDay. intros H.
  Z.div_mod_to_equations. lia.
Qed.

(** The first day of each month and of the month after it, within the
    year. *)
Lemma month_cases (m leap : Z) :
  0 <= m <= 11 ->
  (m = 0 /\ monthStart m leap = 0 /\ monthEnd m leap = 31) \/
  (m = 1 /\ monthStart m leap = 31 /\ monthEnd m leap = 59 + leap) \/
  (m = 2 /\ monthStart m leap = 59 + leap /\ monthEnd m leap = 90 + leap) \/
  (m = 3 /\ monthStart m leap = 90 + leap /\ monthEnd m leap = 120 + leap) \/
  (m = 4 /\ monthStart m leap = 120 + leap /\ monthEnd m leap = 151 + leap) \/
  (m = 5 /\ monthStart m leap = 151 + leap /\ monthEnd m leap = 181 + leap) \/
  (m = 6 /\ monthStart m leap = 181 + leap /\ monthEnd m leap = 212 + leap) \/
  (m = 7 /\ monthStart m leap = 212 + leap /\ monthEnd m leap = 243 + leap) \/
  (m = 8 /\ monthStart m leap = 243 + leap /\ monthEnd m leap = 273 + leap) \/
  (m = 9 /\ monthStart m leap = 273 + leap /\ monthEnd m leap = 304 + leap) \/
  (m = 10 /\ monthStart m leap = 304 + leap /\ monthEnd m leap = 334 + leap) \/
  (m = 11 /\ monthStart m leap = 334 + leap /\ monthEnd m leap = 365 + leap).
Proof.
  intros Hm.
  assert (Hcases : m = 0 \/ m = 1 \/ m = 2 \/ m = 3 \/ m = 4 \/ m = 5 \/
                   m = 6 \/ m = 7 \/ m = 8 \/ m = 9 \/ m = 10 \/ m = 11)
    by lia.
  repeat (destruct Hcases as [-> | Hcases]; [pick_case|]).
  subst m. pick_case.
Qed.

(** The fields of a civil date: a time on day [d] of month [m] (0 to 11)
    of year [y] has the year [y], the month [m] and the date [d]. *)
Lemma civil_fields (y m d time : Z) :
  let leap := if DaysInYear y =? 366 then 1 else 0 in
  0 <= m <= 11 -> 1 <= d ->
  monthStart m leap + d <= monthEnd m leap ->
  0 <= time < msPerDay ->
  let t := MakeDate (MakeDay y m d) time in
  YearFromTime t = y /\ MonthFromTime t = m /\ DateFromTime t = d.
Proof.
  intros leap Hm Hd Hend Htime t.
  assert (Hday : Day t = DayFromYear y + monthStart m leap + d - 1).
  { unfold t. rewrite Day_MakeDate by exact Htime. unfold MakeDay.
    replace (m / 12) with 0 by (Z.div_mod_to_equations; lia).
    replace (m mod 12) with m by (Z.div_mod_to_equations; lia).
    rewrite Z.add_0_r. reflexivity. }
  assert (Hl : leap = 0 \/ leap = 1)
    by (unfold leap; destruct (DaysInYear y =? 366); auto).
  assert (Hleap : DaysInYear y = 365 + leap).
  { unfold leap.
    assert (H : DaysInYear y = 365 \/ DaysInYear y = 366)
      by (unfold DaysInYear; destruct_conditions; auto).
    destruct H as [-> | ->]; reflexivity. }
  pose proof (month_cases m leap Hm) as Hcase.
  assert (Hyear : YearFromTime t = y).
  { apply YearFromTime_unique. rewrite DayFromYear_succ, Hday, Hleap. lia. }
  assert (Hin : InLeapYear t = leap).
  { unfold InLeapYear. rewrite Hyear. reflexivity. }
  assert (Hwithin : DayWithinYear t = monthStart m leap + d - 1).
  { unfold DayWithinYear. rewrite Hyear, Hday. lia. }
  assert (Hmonth : MonthFromTime t = m).
  { unfold MonthFromTime. rewrite Hwithin, Hin.
    revert Hcase Hend.
    generalize (monthStart m leap) (monthEnd m leap). intros ms me Hcase Hend.
    repeat (destruct Hcase as [(? & ? & ?) | Hcase]; [destruct_ltb; lia|]).
    destruct Hcase as (? & ? & ?). destruct_ltb; lia. }
  split; [exact Hyear|]. split; [exact Hmonth|].
  unfold DateFromTime. rewrite Hwithin, Hmonth, Hin. lia.
Qed.

(** [MakeDay] counts a month beyond December in the following years. *)
Lemma MakeDay_normal (y m d : Z) :
  MakeDay (y + m / 12) (m mod 12) d = MakeDay y m d.
Proof.
  unfold MakeDay.
  replace (y + m / 12 + m mod 12 / 12) with (y + m / 12)
    by (Z.div_mod_to_equations; lia).
  replace (m mod 12 mod 12) with (m mod 12)
    by (Z.div_mod_to_equations; lia).
  reflexivity.
Qed.

Lemma MakeDay_next (y m d : Z) :
  MakeDay (y + m / 12) (m mod 12 + 1) d = MakeDay y (m + 1) d.
Proof.
  unfold MakeDay.
  replace (y + m / 12 + (m mod 12 + 1) / 12) with (y + (m + 1) / 12)
    by (Z.div_mod_to_equations; lia).
  replace ((m mod 12 + 1) mod 12) with ((m + 1) mod 12)
    by (Z.div_mod_to_equations; lia).
  reflexivity.
Qed.

(** With a constant offset from 0 up to a day, a month after a date up to
    the 28th is the same day of the next month. *)
Lemma advance_monthly_same_day (tz : timeZone) (tza y m d : Z) :
  constantOffset tz tza -> 0 <= tza < msPerDay -> 1 <= d <= 28 ->
  advance tz monthly (newDate (MakeDay y m d)) = newDate (MakeDay y (m + 1) d).
Proof.
  intros [Hat Hof] Htza Hd.
  rewrite <- (MakeDay_normal y m d), <- (MakeDay_next y m d).
  generalize (y + m / 12). intros y'.
  assert (Hm : 0 <= m mod 12 <= 11) by (Z.div_mod_to_equations; lia).
  revert Hm. generalize (m mod 12). intros m' Hm.
  assert (Hfields : let t := MakeDate (MakeDay y' m' d) tza in
                    YearFromTime t = y' /\ MonthFromTime t = m' /\
                    DateFromTime t = d).
  { apply civil_fields; try lia.
    assert (Hl : (if DaysInYear y' =? 366 then 1 else 0) = 0 \/
                 (if DaysInYear y' =? 366 then 1 else 0) = 1)
      by (destruct (DaysInYear y' =? 366); auto).
    pose proof (month_cases m' (if DaysInYear y' =? 366 then 1 else 0) Hm).
    lia. }
  cbn zeta in Hfields. destruct Hfields as (Hy & Hmo & Hda).
  unfold advance, setMonth, getMonth, LocalTime, UTC, newDate.
  rewrite Hat, Hof.
  change (MakeDay y' m' d * msPerDay + tza)
    with (MakeDate (MakeDay y' m' d) tza).
  rewrite Hy, Hmo, Hda. unfold MakeDate, TimeWithinDay.
  replace ((MakeDay y' m' d * msPerDay + tza) mod msPerDay) with tza; [lia|].
  unfold msPerDay in *. Z.div_mod_to_equations. lia.
Qed.

(* ================================================================= *)
(** ** Recurrence calculator: properties *)

Lemma advanced_S (tz : timeZone) (r : period) (k : nat) (t : Z) :
  advanced tz r (S k) t = advance tz r (advanced tz r k t).
Proof.
  revert t; induction k as [|k IH]; intros t; [reflexivity|].
  change (advanced tz r (S (S k)) t)
    with (advanced tz r (S k) (advance tz r t)).
  rewrite IH. reflexivity.
Qed.

Lemma advanced_lt (tz : timeZone) (r : period) (t : Z) (j k : nat) :
  steady tz -> (j < k)%nat -> advanced tz r j t < advanced tz r k t.
Proof.
  intros Hs. induction 1 as [|k _ IH].
  - rewrite advanced_S.
    pose proof (advance_progress tz r (advanced tz r j t) Hs).
    change (msPerDay / 2) with 43200000 in *. lia.
  - rewrite advanced_S.
    pose proof (advance_progress tz r (advanced tz r k t) Hs).
    change (msPerDay / 2) with 43200000 in *. lia.
Qed.

Lemma advanced_daily (tz : timeZone) (tza : Z) (k : nat) (t : Z) :
  constantOffset tz tza ->
  advanced tz daily k t = t + Z.of_nat k * msPerDay.
Proof.
  intros Hc. induction k as [|k IH]; [cbn; lia|].
  rewrite advanced_S, IH. cbn [advance].
  rewrite setDate_getDate, (UTC_LocalTime_constant tz tza) by exact Hc. lia.
Qed.

Lemma advanced_weekly (tz : timeZone) (tza : Z) (k : nat) (t : Z) :
  constantOffset tz tza ->
  advanced tz weekly k t = t + 7 * Z.of_nat k * msPerDay.
Proof.
  intros Hc. induction k as [|k IH]; [cbn; lia|].
  rewrite advanced_S, IH. cbn [advance].
  rewrite setDate_getDate, (UTC_LocalTime_constant tz tza) by exact Hc. lia.
Qed.

(** Month by month, each step is 28 to 31 days. *)
Lemma advanced_monthly_days (tz : timeZone) (tza : Z) (k : nat) (t : Z) :
  constantOffset tz tza ->
  exists n, 28 * Z.of_nat k <= n <= 31 * Z.of_nat k /\
            advanced tz monthly k t = t + n * msPerDay.
Proof.
  intros Hc. induction k as [|k (n & Hn & IH)].
  - exists 0. split; [lia | cbn; lia].
  - rewrite advanced_S, IH.
    destruct (advance_local tz monthly (t + n * msPerDay))
      as (m & Hm & _ & _ & Hlo & E).
    specialize (Hlo eq_refl). cbn [periodDays] in Hm.
    rewrite E, (UTC_LocalTime_constant tz tza) by exact Hc.
    exists (n + m). split; lia.
Qed.

(** Month by month from a day up to the 28th, with an offset from 0 up to a
    day: the same day of the following months. *)
Lemma advanced_monthly (tz : timeZone) (tza y m d : Z) (k : nat) :
  constantOffset tz tza -> 0 <= tza < msPerDay -> 1 <= d <= 28 ->
  advanced tz monthly k (newDate (MakeDay y m d)) =
  newDate (MakeDay y (m + Z.of_nat k) d).
Proof.
  intros Hc Htza Hd. induction k as [|k IH].
  - cbn [advanced]. rewrite Z.add_0_r. reflexivity.
  - rewrite advanced_S, IH.
    rewrite (advance_monthly_same_day tz tza) by assumption.
    do 2 f_equal. lia.
Qed.

Lemma isoDate_newDate (s : Z) : isoDate (newDate s) = s.
Proof. unfold isoDate, newDate, Day, msPerDay. apply Z.div_mul. lia. Qed.

(** What the loop returns is the first of the successive dates that is not
    before [now]. *)
Lemma whileLoop_first (tz : timeZone) (r : period) (now date result : Z) :
  whileLoop tz r now date result ->
  exists k, result = advanced tz r k date /\ now <= result /\
            forall j, (j < k)%nat -> advanced tz r j date < now.
Proof.
  induction 1 as [date Hge | date result Hlt _ (k & Hk & Hnow & Hfirst)].
  - exists 0%nat. split; [reflexivity|]. split; [exact Hge|]. lia.
  - exists (S k). split; [exact Hk|]. split; [exact Hnow|].
    intros [|j] Hj; [exact Hlt|]. apply Hfirst. lia.
Qed.

(** A value of the bounded loop that is not before [now] is the value the
    loop exits with, in every time zone. *)
Lemma whileLoop_fuel_exit (tz : timeZone) (r : period) (now : Z)
      (fuel : nat) :
  forall date,
    now <= whileLoop_fuel fuel tz r now date ->
    whileLoop tz r now date (whileLoop_fuel fuel tz r now date).
Proof.
  induction fuel as [|fuel IH]; intros date H; cbn [whileLoop_fuel] in *.
  - apply whileLoop_exit, H.
  - destruct (Z.ltb_spec date now) as [Hlt|Hge].
    + apply whileLoop_iter; [exact Hlt | apply IH, H].
    + apply whileLoop_exit, Hge.
Qed.

(** With enough fuel the bounded loop is the loop. *)
Lemma whileLoop_fuel_enough (tz : timeZone) (r : period) (now : Z)
      (fuel : nat) :
  steady tz ->
  forall date,
    2 * (now - date) < Z.of_nat fuel * msPerDay ->
    whileLoop tz r now date (whileLoop_fuel fuel tz r now date).
Proof.
  intros Hs. induction fuel as [|fuel IH]; intros date H.
  - cbn [whileLoop_fuel]. apply whileLoop_exit. lia.
  - cbn [whileLoop_fuel]. destruct (Z.ltb_spec date now) as [Hlt|Hge].
    + apply whileLoop_iter; [exact Hlt|]. apply IH.
      pose proof (advance_progress tz r date Hs) as Hp.
      change (msPerDay / 2) with 43200000 in Hp. unfold msPerDay in *. lia.
    + apply whileLoop_exit, Hge.
Qed.

Lemma loopBound_enough (now date : Z) :
  2 * (now - date) < Z.of_nat (loopBound now date) * msPerDay.
Proof.
  unfold loopBound, msPerDay.
  pose proof (Z.div_mod (now - date) 86400000 ltac:(lia)) as Hd.
  pose proof (Z.mod_pos_bound (now - date) 86400000 ltac:(lia)) as Hm.
  destruct (Z.le_gt_cases 0 ((now - date) / 86400000 + 1)) as [Hp|Hn].
  - rewrite Z2Nat.id by lia. lia.
  - replace (Z.to_nat (2 * ((now - date) / 86400000 + 1))) with 0%nat by lia.
    lia.
Qed.

(** In a steady time zone the loop of [getNextRecurrenceDate] exits, with
    the value that the bounded loop computes. *)
Lemma whileLoop_fuel_returns (tz : timeZone) (r : period) (now date : Z) :
  steady tz ->
  whileLoop tz r now date
            (whileLoop_fuel (loopBound now date) tz r now date).
Proof. intros Hs. apply whileLoop_fuel_enough; [exact Hs|]. apply loopBound_enough. Qed.

Lemma whileLoop_deterministic (tz : timeZone) (r : period)
      (now date r1 r2 : Z) :
  whileLoop tz r now date r1 -> whileLoop tz r now date r2 -> r1 = r2.
Proof.
  intros H1. revert r2.
  induction H1 as [date Hge | date r1 Hlt _ IH]; intros r2 H2;
    inversion H2; subst; try lia.
  apply IH. assumption.
Qed.

(** A start date that is not before [now] is returned as it is, in every
    time zone. *)
Lemma getNextRecurrenceDate_future (tz : timeZone) (now s : Z) (r : period) :
  now <= newDate s ->
  getNextRecurrenceDate tz now (Some s) (Some r) = Some s.
Proof.
  intros Hfut. unfold getNextRecurrenceDate. cbn zeta.
  destruct (loopBound now (newDate s)) as [|fuel]; cbn [whileLoop_fuel].
  - rewrite isoDate_newDate. reflexivity.
  - destruct (Z.ltb_spec (newDate s) now) as [Hlt|_]; [lia|].
    rewrite isoDate_newDate. reflexivity.
Qed.

(** With a constant offset the loop exits after a whole number of days, so
    that the date it returns, read as a date, is the value it exits with. *)
Lemma getNextRecurrenceDate_first (tz : timeZone) (tza now s : Z)
      (r : period) :
  constantOffset tz tza ->
  exists k n,
    let result := advanced tz r k (newDate s) in
    whileLoop tz r now (newDate s) result /\
    getNextRecurrenceDate tz now (Some s) (Some r) = Some (s + n) /\
    0 <= n /\ result = newDate (s + n) /\ now <= result /\
    (forall j, (j < k)%nat -> advanced tz r j (newDate s) < now) /\
    (k <> 0%nat ->
     exists m, 1 <= m <= periodDays r /\
               result = advanced tz r (Nat.pred k) (newDate s) + m * msPerDay).
Proof.
  intros Hc. pose proof (constantOffset_steady tz tza Hc) as Hs.
  pose proof (whileLoop_fuel_returns tz r now (newDate s) Hs) as Hloop.
  destruct (whileLoop_first _ _ _ _ _ Hloop) as (k & Hk & Hnow & Hfirst).
  assert (Hdays : forall j, exists n,
               0 <= n /\ advanced tz r j (newDate s) = newDate s + n * msPerDay).
  { induction j as [|j (n & Hn & IH)].
    - exists 0. split; [lia | cbn; lia].
    - rewrite advanced_S, IH.
      destruct (advance_period tz tza r (newDate s + n * msPerDay) Hc)
        as (m & Hm & ->).
      exists (n + m). split; lia. }
  destruct (Hdays k) as (n & Hn & Hadv).
  exists k, n. cbn zeta.
  assert (Hres : advanced tz r k (newDate s) = newDate (s + n))
    by (rewrite Hadv; unfold newDate; lia).
  rewrite <- Hk. split; [exact Hloop|]. split.
  { unfold getNextRecurrenceDate. cbn zeta.
    rewrite Hk, Hres, isoDate_newDate. reflexivity. }
  split; [exact Hn|]. split; [rewrite Hk; exact Hres|].
  split; [exact Hnow|]. split; [exact Hfirst|].
  intros Hne. destruct k as [|k]; [contradiction|]. cbn [Nat.pred].
  rewrite Hk, advanced_S.
  destruct (advance_period tz tza r (advanced tz r k (newDate s)) Hc)
    as (m & Hm & ->).
  exists m. split; [exact Hm | reflexivity].
Qed.


(* ================================================================= *)
(** ** History wrapper: properties *)

Lemma get_middle {A} (pre : list A) (x : A) (post : list A) :
  get (pre ++ x :: post) (Z.of_nat (List.length pre)) = Some x.
Proof.
  unfold get. destruct (Z.ltb_spec (Z.of_nat (List.length pre)) 0); [lia|].
  rewrite Nat2Z.id, nth_error_app2, Nat.sub_diag by lia. reflexivity.
Qed.

Lemma slice0_prefix {A} (pre post : list A) :
  slice0 (pre ++ post) (Z.of_nat (List.length pre)) = pre.
Proof.
  unfold slice0, relativeIndex.
  destruct (Z.ltb_spec (Z.of_nat (List.length pre)) 0); [lia|].
  rewrite length_app, Z.min_l by lia.
  rewrite Nat2Z.id, firstn_app, Nat.sub_diag, firstn_all. cbn [firstn].
  apply app_nil_r.
Qed.

Section UndoableProperties.

Context {State Action Env : Type}.
Variables isUndo isRedo : Action -> bool.
Variable same : State -> State -> bool.
Variable reducer : Env -> option State -> Action -> option State.

Abbreviation step := (undoable isUndo isRedo same reducer).
Abbreviation run := (dispatchAll isUndo isRedo same reducer).

(** An action that is not a no-op, dispatched when the index is at
    [cur], cuts the history after it and appends the new state. *)
Lemma undoable_append (e : Env) (a : Action) (pre post : list State)
      (cur newPresent : State) :
  isUndo a = false -> isRedo a = false ->
  reducer e (Some cur) a = Some newPresent ->
  same newPresent cur = false ->
  step e (mkHistory (pre ++ cur :: post) (Z.of_nat (List.length pre))) a =
  Some (mkHistory (pre ++ [cur; newPresent])
                  (Z.of_nat (List.length pre) + 1)).
Proof.
  intros Hu Hr Hred Hsame. unfold undoable, present.
  cbn [history historyIndex]. rewrite Hu, Hr, get_middle, Hred.
  cbn [unchanged]. rewrite Hsame.
  replace (Z.of_nat (List.length pre) + 1)
    with (Z.of_nat (List.length (pre ++ [cur])))
    by (rewrite length_app; cbn [List.length]; lia).
  change (pre ++ cur :: post) with (pre ++ [cur] ++ post).
  rewrite app_assoc, slice0_prefix, <- app_assoc. reflexivity.
Qed.

Lemma dispatchAll_chain (s0 : State) (steps : list (Env * Action))
      (ss : list State) :
  chain isUndo isRedo same reducer s0 steps ss ->
  forall pre,
    run (mkHistory (pre ++ [s0]) (Z.of_nat (List.length pre))) steps =
    Some (mkHistory (pre ++ s0 :: ss)
                    (Z.of_nat (List.length pre) +
                     Z.of_nat (List.length ss))).
Proof.
  induction 1 as [s0 | s0 e a s1 steps ss Hu Hr Hred Hsame _ IH];
    intros pre.
  - cbn [dispatchAll List.length]. rewrite Z.add_0_r. reflexivity.
  - cbn [dispatchAll].
    rewrite (undoable_append e a pre [] s0 s1 Hu Hr Hred Hsame).
    specialize (IH (pre ++ [s0])).
    rewrite length_app in IH. cbn [List.length] in IH.
    rewrite <- app_assoc in IH. cbn [app] in IH.
    replace (Z.of_nat (List.length pre) + 1)
      with (Z.of_nat (List.length pre + 1)) by lia.
    rewrite IH, <- app_assoc. cbn [List.length app].
    same_history.
Qed.

(** The default state of the wrapper is a start state. *)
Lemma initialState_start (e : Env) (emptyAction : Action)
      (state : hstate State) :
  initialState reducer e emptyAction = Some state ->
  exists s, state = startState s.
Proof.
  unfold initialState. destruct (reducer e None emptyAction) as [s|];
    [|discriminate].
  intros H. inversion H. exists s. reflexivity.
Qed.

(** C8. History index bounds: in every state reachable from a start state
    by dispatches, the index is a position of the history. *)
Theorem historyIndex_bounds (state : hstate State) :
  reachable isUndo isRedo same reducer state ->
  0 <= historyIndex state < Z.of_nat (List.length (history state)).
Proof.
  induction 1 as [s0 | state e a state' _ IH Hstep].
  - cbn. lia.
  - unfold undoable in Hstep.
    destruct (isUndo a).
    { inversion Hstep; subst; cbn [history historyIndex]. lia. }
    destruct (isRedo a).
    { inversion Hstep; subst; cbn [history historyIndex]. lia. }
    destruct (reducer e (present state) a) as [newPresent|]; [|discriminate].
    destruct (unchanged same newPresent (present state)).
    { inversion Hstep; subst. exact IH. }
    inversion Hstep; subst; cbn [history historyIndex].
    rewrite length_app. cbn [List.length]. lia.
Qed.

(** C1, as the code has it: when the reducer returns the very object that
    is the present state, the wrapper returns its state as it is. *)
Theorem noop_keeps_history (e : Env) (state : hstate State) (a : Action)
        (p newPresent : State) :
  isUndo a = false -> isRedo a = false ->
  present state = Some p ->
  reducer e (Some p) a = Some newPresent ->
  same newPresent p = true ->
  step e state a = Some state.
Proof.
  intros Hu Hr Hp Hred Hsame. unfold undoable.
  rewrite Hu, Hr, Hp, Hred. cbn [unchanged]. rewrite Hsame. reflexivity.
Qed.

(** C3. History linearity: [n >= 1] dispatches none of which is a no-op
    lead from [[S0]] to the history [[S0; ...; Sn]] with index [n]; an
    [UNDO] then moves the index to [n - 1], where the present state is
    [S(n-1)]; and a further action that is not a no-op then leaves the
    history [[S0; ...; S(n-1); Sm]] with index [n]. *)
Theorem history_linearity (s0 : State) (steps : list (Env * Action))
        (ss : list State) (sn : State) :
  chain isUndo isRedo same reducer s0 steps (ss ++ [sn]) ->
  let n := Z.of_nat (List.length (ss ++ [sn])) in
  let sprev := last (s0 :: ss) s0 in
  run (startState s0) steps = Some (mkHistory (s0 :: ss ++ [sn]) n) /\
  forall eu u,
    isUndo u = true ->
    step eu (mkHistory (s0 :: ss ++ [sn]) n) u =
    Some (mkHistory (s0 :: ss ++ [sn]) (n - 1)) /\
    present (mkHistory (s0 :: ss ++ [sn]) (n - 1)) = Some sprev /\
    forall em am sm,
      isUndo am = false -> isRedo am = false ->
      reducer em (Some sprev) am = Some sm ->
      same sm sprev = false ->
      step em (mkHistory (s0 :: ss ++ [sn]) (n - 1)) am =
      Some (mkHistory (s0 :: ss ++ [sm]) n).
Proof.
  intros Hchain n sprev.
  assert (Hn : n = Z.of_nat (List.length ss) + 1).
  { unfold n. rewrite length_app. cbn [List.length]. lia. }
  split.
  - pose proof (dispatchAll_chain s0 steps (ss ++ [sn]) Hchain []) as H.
    cbn [app List.length] in H. exact H.
  - intros eu u Hu. split; [|split].
    + unfold undoable. rewrite Hu. cbn [history historyIndex].
      same_history.
    + assert (Hsplit : s0 :: ss = removelast (s0 :: ss) ++ [sprev]).
      { apply app_removelast_last. discriminate. }
      assert (Hlen : Z.of_nat (List.length (removelast (s0 :: ss))) = n - 1).
      { apply (f_equal (@List.length State)) in Hsplit.
        rewrite length_app in Hsplit. cbn [List.length] in Hsplit. lia. }
      unfold present. cbn [history historyIndex].
      change (s0 :: ss ++ [sn]) with ((s0 :: ss) ++ [sn]).
      rewrite Hsplit, <- app_assoc, <- Hlen. apply get_middle.
    + intros em am sm Hum Hrm Hred Hsame.
      assert (Hsplit : s0 :: ss = removelast (s0 :: ss) ++ [sprev]).
      { apply app_removelast_last. discriminate. }
      assert (Hlen : Z.of_nat (List.length (removelast (s0 :: ss))) = n - 1).
      { apply (f_equal (@List.length State)) in Hsplit.
        rewrite length_app in Hsplit. cbn [List.length] in Hsplit. lia. }
      change (s0 :: ss ++ [sn]) with ((s0 :: ss) ++ [sn]).
      change (s0 :: ss ++ [sm]) with ((s0 :: ss) ++ [sm]).
      rewrite Hsplit, <- !app_assoc, <- Hlen. cbn [app].
      rewrite (undoable_append em am _ [sn] sprev sm Hum Hrm Hred Hsame).
      same_history.
Qed.

End UndoableProperties.

(* ================================================================= *)
(** ** The to-do list under the wrapper *)

(** For [todoReducer] a result with other contents than the state is a new
    object, as long as the dispatch allocates a new identity and an imported
    array is not the state itself. *)
Lemma todoReducer_changed_is_new (e : env) (st st' : array) (a : action) :
  todoReducer e (Some st) a = Some st' ->
  elems st' <> elems st ->
  fresh e <> aref st ->
  (forall payload, a = IMPORT_TODOS payload -> aref payload <> aref st) ->
  same_array st' st = false.
Proof.
  intros Hred Hne Hfresh Himp. unfold same_array. apply Nat.eqb_neq.
  destruct a; cbn [todoReducer] in Hred;
    try (destruct (tasks_of (elems st)); [|discriminate]);
    try (destruct (reorderTodos (elems st) dragId dropId); [|discriminate]);
    inversion Hred; subst; cbn [aref]; try assumption;
    try (exfalso; apply Hne; reflexivity).
  apply (Himp st' eq_refl).
Qed.

(** C1, counterexample: on a forest with one active task [CLEAR_COMPLETED]
    returns an array with the same contents as the present state, and the
    wrapper appends it to the history all the same, since it is a new
    object. *)
Lemma noop_by_contents_counterexample :
  ~ (forall (e : env) (state : hstate array) (a : action) (p newPresent : array),
        isUNDO a = false -> isREDO a = false ->
        present state = Some p ->
        todoReducer e (Some p) a = Some newPresent ->
        elems newPresent = elems p ->
        exists state',
          todoUndoable e state a = Some state' /\
          history state' = history state /\
          historyIndex state' = historyIndex state).
Proof.
  intros H.
  specialize (H (sampleEnv 1 "id-1")
                (startState (mkArray 0 [Some (sampleTask "a" false [])]))
                CLEAR_COMPLETED
                (mkArray 0 [Some (sampleTask "a" false [])])
                (mkArray 1 [Some (sampleTask "a" false [])])
                eq_refl eq_refl eq_refl eq_refl eq_refl).
  destruct H as (state' & Hstep & Hhist & _).
  vm_compute in Hstep. inversion Hstep; subst. discriminate Hhist.
Qed.

(** The same dispatch, computed: the history has two entries with the same
    contents, and "undo" has become possible. *)
Example clear_completed_grows_history :
  todoUndoable (sampleEnv 1 "id-1")
               (startState (mkArray 0 [Some (sampleTask "a" false [])]))
               CLEAR_COMPLETED =
  Some (mkHistory [mkArray 0 [Some (sampleTask "a" false [])];
                   mkArray 1 [Some (sampleTask "a" false [])]] 1).
Proof. reflexivity. Qed.

Lemma noop_keeps_history_witness :
  isUNDO OTHER = false /\ isREDO OTHER = false /\
  present (startState (mkArray 0 [])) = Some (mkArray 0 []) /\
  todoReducer (sampleEnv 1 "id-1") (Some (mkArray 0 [])) OTHER =
  Some (mkArray 0 []) /\
  same_array (mkArray 0 []) (mkArray 0 []) = true /\
  todoUndoable (sampleEnv 1 "id-1") (startState (mkArray 0 [])) OTHER =
  Some (startState (mkArray 0 [])).
Proof.
  repeat (split; [reflexivity|]).
  apply (noop_keeps_history isUNDO isREDO same_array todoReducer
           (sampleEnv 1 "id-1") (startState (mkArray 0 [])) OTHER
           (mkArray 0 []) (mkArray 0 []));
    reflexivity.
Defined.

Lemma history_linearity_witness :
  chain isUNDO isREDO same_array todoReducer sampleS0 sampleSteps
        ([sampleS1] ++ [sampleS2]) /\
  dispatchAll isUNDO isREDO same_array todoReducer (startState sampleS0)
              sampleSteps =
  Some (mkHistory [sampleS0; sampleS1; sampleS2] 2) /\
  todoUndoable (sampleEnv 3 "id-3")
               (mkHistory [sampleS0; sampleS1; sampleS2] 2) UNDO =
  Some (mkHistory [sampleS0; sampleS1; sampleS2] 1) /\
  present (mkHistory [sampleS0; sampleS1; sampleS2] 1) = Some sampleS1 /\
  todoUndoable (sampleEnv 4 "id-4")
               (mkHistory [sampleS0; sampleS1; sampleS2] 1)
               (DELETE_TODO "id-1") =
  Some (mkHistory [sampleS0; sampleS1; mkArray 4 []] 2).
Proof.
  assert (H : chain isUNDO isREDO same_array todoReducer sampleS0 sampleSteps
                    ([sampleS1] ++ [sampleS2]))
    by (repeat (econstructor; try reflexivity)).
  split; [exact H|].
  destruct (history_linearity isUNDO isREDO same_array todoReducer
              sampleS0 sampleSteps [sampleS1] sampleS2 H) as [Hrun Hundo].
  split; [exact Hrun|].
  destruct (Hundo (sampleEnv 3 "id-3") UNDO eq_refl)
    as (Hstep & Hpresent & Hnext).
  split; [exact Hstep|]. split; [exact Hpresent|].
  exact (Hnext (sampleEnv 4 "id-4") (DELETE_TODO "id-1") (mkArray 4 [])
               eq_refl eq_refl eq_refl eq_refl).
Defined.

Lemma historyIndex_bounds_witness :
  reachable isUNDO isREDO same_array todoReducer
            (mkHistory [sampleS0; sampleS1] 1) /\
  0 <= 1 < Z.of_nat (List.length [sampleS0; sampleS1]).
Proof.
  assert (H : reachable isUNDO isREDO same_array todoReducer
                        (mkHistory [sampleS0; sampleS1] 1)).
  { eapply reachable_step
      with (e := sampleEnv 1 "id-1") (action := ADD_TODO sampleFields).
    - apply (reachable_start isUNDO isREDO same_array todoReducer sampleS0).
    - reflexivity. }
  split; [exact H|].
  exact (historyIndex_bounds isUNDO isREDO same_array todoReducer
           (mkHistory [sampleS0; sampleS1] 1) H).
Defined.

(** The scenario of the design: add a task, toggle it, undo twice. *)
Example scenario_add_toggle_undo :
  let added := newTodo (sampleEnv 1 "id-1") sampleFields in
  dispatchAll isUNDO isREDO same_array todoReducer (startState sampleS0)
              [(sampleEnv 1 "id-1", ADD_TODO sampleFields);
               (sampleEnv 2 "id-2", TOGGLE_TODO "id-1")] =
  Some (mkHistory [sampleS0; mkArray 1 [Some added];
                   mkArray 2 [Some (with_completed true added)]] 2) /\
  dispatchAll isUNDO isREDO same_array todoReducer (startState sampleS0)
              [(sampleEnv 1 "id-1", ADD_TODO sampleFields);
               (sampleEnv 2 "id-2", TOGGLE_TODO "id-1");
               (sampleEnv 3 "id-3", UNDO)] =
  Some (mkHistory [sampleS0; mkArray 1 [Some added];
                   mkArray 2 [Some (with_completed true added)]] 1) /\
  dispatchAll isUNDO isREDO same_array todoReducer (startState sampleS0)
              [(sampleEnv 1 "id-1", ADD_TODO sampleFields);
               (sampleEnv 2 "id-2", TOGGLE_TODO "id-1");
               (sampleEnv 3 "id-3", UNDO); (sampleEnv 4 "id-4", UNDO)] =
  Some (mkHistory [sampleS0; mkArray 1 [Some added];
                   mkArray 2 [Some (with_completed true added)]] 0).
Proof. repeat split; reflexivity. Qed.

(** The scenario of the design: toggling the root [R] with subtasks [A]
    (which has the subtask [A1]) and [B] completes all four. *)
Example scenario_toggle_root :
  reduceTasks (sampleEnv 1 "id-1")
    [sampleTask "R" false
       [sampleTask "A" false [sampleTask "A1" true []];
        sampleTask "B" false []]]
    (TOGGLE_TODO "R") =
  [sampleTask "R" true
     [sampleTask "A" true [sampleTask "A1" true []];
      sampleTask "B" true []]].
Proof. reflexivity. Qed.

(** The scenario of the design: a completed parent goes with its active
    child. *)
Example scenario_clear_completed_parent :
  reduceTasks (sampleEnv 1 "id-1")
    [sampleTask "P" true [sampleTask "C" false []]] CLEAR_COMPLETED = [].
Proof. reflexivity. Qed.

Lemma findTaskAndUpdate_unresolvable_witness :
  forallb (fun t => negb (has_id "zz" t))
          (candidates [sampleTask "a" false [sampleTask "b" false []]] ["a"%string])
  = true /\
  findTaskAndUpdate [sampleTask "a" false [sampleTask "b" false []]]
                    (["a"%string] ++ "zz"%string :: [])
                    (toggled (sampleEnv 1 "id-1")) =
  [sampleTask "a" false [sampleTask "b" false []]].
Proof.
  split; [reflexivity|].
  apply (findTaskAndUpdate_unresolvable
           [sampleTask "a" false [sampleTask "b" false []]]
           (toggled (sampleEnv 1 "id-1")) ["a"%string] "zz" []).
  reflexivity.
Defined.

(** With identifiers that no root task has, the last task moves before the
    one that was in front of it. *)
Lemma reorder_permutes_roots_witness :
  forallb (fun t => negb (has_id "x" t))
          [sampleTask "a" false []; sampleTask "b" false [];
           sampleTask "c" false []] = true /\
  exists result,
    todoReducer (sampleEnv 1 "id-1")
      (Some (mkArray 0 (map Some [sampleTask "a" false [];
                                  sampleTask "b" false [];
                                  sampleTask "c" false []])))
      (REORDER_TODOS "x" "y") =
    Some (mkArray 1 (map Some result)) /\
    result = [sampleTask "a" false []; sampleTask "c" false [];
              sampleTask "b" false []].
Proof.
  split; [reflexivity|].
  destruct (reorder_permutes_roots (sampleEnv 1 "id-1") 0
              (sampleTask "a" false [])
              [sampleTask "b" false []; sampleTask "c" false []] "x" "y")
    as [(result & Hred & _ & Hlast) _].
  exists result. split; [exact Hred|].
  destruct (Hlast eq_refl) as (dropIndex & Hdrop & Hres).
  vm_compute in Hdrop. injection Hdrop as <-. exact Hres.
Defined.

Lemma due_date_sort_order_witness :
  getFilteredAndSortedTodos
    [mkTask "1" "one" false 0 None None "Low" None [] None [];
     mkTask "2" "two" false 0 (Some 5) None "Low" None [] None [];
     mkTask "3" "three" false 0 (Some 3) None "Low" None [] None []]
    "" None "all" "dueDate" "asc" =
  [] ++ mkTask "3" "three" false 0 (Some 3) None "Low" None [] None []
     :: [] ++ mkTask "2" "two" false 0 (Some 5) None "Low" None [] None []
     :: [mkTask "1" "one" false 0 None None "Low" None [] None []] /\
  exists x, Some 3 = Some x /\ x <= 5.
Proof.
  split; [reflexivity|].
  exact (proj2 (proj2 (due_date_sort_order
           [mkTask "1" "one" false 0 None None "Low" None [] None [];
            mkTask "2" "two" false 0 (Some 5) None "Low" None [] None [];
            mkTask "3" "three" false 0 (Some 3) None "Low" None [] None []]
           "" None "all"))
         [] (mkTask "3" "three" false 0 (Some 3) None "Low" None [] None [])
         [] (mkTask "2" "two" false 0 (Some 5) None "Low" None [] None [])
         [mkTask "1" "one" false 0 None None "Low" None [] None []]
         eq_refl).
Defined.


(** Seen on 2024-06-15 (one millisecond after midnight UTC), in UTC: a
    daily task due 2024-06-10 is next due 2024-06-16, a weekly one
    2024-06-17, a monthly task due 2024-01-15 is next due 2024-07-15, and a
    monthly task due 2024-01-31 is next due 2024-07-02, the overflow of
    "February 31" having moved it to the second day of the month. *)
Example next_occurrence_dates :
  let now := newDate (ymd 2024 6 15) + 1 in
  getNextRecurrenceDate (fixedZone 0) now (Some (ymd 2024 6 10)) (Some daily) =
  Some (ymd 2024 6 16) /\
  getNextRecurrenceDate (fixedZone 0) now (Some (ymd 2024 6 10))
                        (Some weekly) =
  Some (ymd 2024 6 17) /\
  getNextRecurrenceDate (fixedZone 0) now (Some (ymd 2024 1 15))
                        (Some monthly) =
  Some (ymd 2024 7 15) /\
  getNextRecurrenceDate (fixedZone 0) now (Some (ymd 2024 1 31))
                        (Some monthly) =
  Some (ymd 2024 7 2) /\
  getNextRecurrenceDate (fixedZone 0) now (Some (ymd 2024 6 15)) (Some daily) =
  Some (ymd 2024 6 16).
Proof. vm_compute. repeat split. Qed.

Lemma centralEurope2024_steady : steady centralEurope2024.
Proof.
  intros t u. unfold centralEurope2024. cbn [offsetAt offsetOfLocal].
  cbv zeta. destruct_conditions; vm_compute; discriminate.
Qed.

Lemma eastern2024_steady : steady eastern2024.
Proof.
  intros t u. unfold eastern2024. cbn [offsetAt offsetOfLocal].
  cbv zeta. destruct_conditions; vm_compute; discriminate.
Qed.

(** Where the offset changes: the loop moves the local time by whole days,
    and the date it returns is the UTC day of the result.  In Central
    European time a weekly task due 2024-03-30, seen on 2024-06-15, is next
    due 2024-06-21, which is 83 days later, and a daily task due 2024-03-30,
    seen at noon UTC of 2024-03-31, is next due 2024-03-31, whose start is
    past.  In Eastern time a daily task due 2024-03-09, seen at noon UTC of
    2024-03-12, is next due 2024-03-12, whose start is past, and from that
    date it is next due 2024-03-13. *)
Example next_occurrence_offset_change :
  whileLoop centralEurope2024 weekly (newDate (ymd 2024 6 15) + 1)
            (newDate (ymd 2024 3 30))
            (newDate (ymd 2024 6 21) + 23 * 3600000) /\
  getNextRecurrenceDate centralEurope2024 (newDate (ymd 2024 6 15) + 1)
                        (Some (ymd 2024 3 30)) (Some weekly) =
  Some (ymd 2024 6 21) /\
  ymd 2024 6 21 = ymd 2024 3 30 + 83 /\
  whileLoop centralEurope2024 daily (newDate (ymd 2024 3 31) + 12 * 3600000)
            (newDate (ymd 2024 3 30))
            (newDate (ymd 2024 3 31) + 23 * 3600000) /\
  getNextRecurrenceDate centralEurope2024
                        (newDate (ymd 2024 3 31) + 12 * 3600000)
                        (Some (ymd 2024 3 30)) (Some daily) =
  Some (ymd 2024 3 31) /\
  newDate (ymd 2024 3 31) < newDate (ymd 2024 3 31) + 12 * 3600000 /\
  whileLoop eastern2024 daily (newDate (ymd 2024 3 12) + 12 * 3600000)
            (newDate (ymd 2024 3 9))
            (newDate (ymd 2024 3 12) + 23 * 3600000) /\
  getNextRecurrenceDate eastern2024 (newDate (ymd 2024 3 12) + 12 * 3600000)
                        (Some (ymd 2024 3 9)) (Some daily) =
  Some (ymd 2024 3 12) /\
  getNextRecurrenceDate eastern2024 (newDate (ymd 2024 3 12) + 12 * 3600000)
                        (Some (ymd 2024 3 12)) (Some daily) =
  Some (ymd 2024 3 13).
Proof.
  split; [|split; [|split; [|split; [|split; [|split; [|split; [|split]]]]]]].
  - assert (E : whileLoop_fuel
                  (loopBound (newDate (ymd 2024 6 15) + 1)
                             (newDate (ymd 2024 3 30)))
                  centralEurope2024 weekly (newDate (ymd 2024 6 15) + 1)
                  (newDate (ymd 2024 3 30)) =
                newDate (ymd 2024 6 21) + 23 * 3600000)
      by (vm_compute; reflexivity).
    rewrite <- E. apply whileLoop_fuel_returns, centralEurope2024_steady.
  - vm_compute. reflexivity.
  - vm_compute. reflexivity.
  - assert (E : whileLoop_fuel
                  (loopBound (newDate (ymd 2024 3 31) + 12 * 3600000)
                             (newDate (ymd 2024 3 30)))
                  centralEurope2024 daily
                  (newDate (ymd 2024 3 31) + 12 * 3600000)
                  (newDate (ymd 2024 3 30)) =
                newDate (ymd 2024 3 31) + 23 * 3600000)
      by (vm_compute; reflexivity).
    rewrite <- E. apply whileLoop_fuel_returns, centralEurope2024_steady.
  - vm_compute. reflexivity.
  - vm_compute. reflexivity.
  - assert (E : whileLoop_fuel
                  (loopBound (newDate (ymd 2024 3 12) + 12 * 3600000)
                             (newDate (ymd 2024 3 9)))
                  eastern2024 daily
                  (newDate (ymd 2024 3 12) + 12 * 3600000)
                  (newDate (ymd 2024 3 9)) =
                newDate (ymd 2024 3 12) + 23 * 3600000)
      by (vm_compute; reflexivity).
    rewrite <- E. apply whileLoop_fuel_returns, eastern2024_steady.
  - vm_compute. reflexivity.
  - vm_compute. reflexivity.
Qed.


(* ================================================================= *)
(** ** History wrapper: undo and redo *)

Lemma get_firstn_app {A} (l : list A) (k : nat) (x : A) :
  (k <= List.length l)%nat ->
  get (firstn k l ++ [x]) (Z.of_nat k) = Some x.
Proof.
  intros H.
  pose proof (get_middle (firstn k l) x []) as G.
  rewrite length_firstn, Nat.min_l in G by exact H. exact G.
Qed.

Lemma get_firstn_before {A} (l : list A) (k : nat) (x : A) (i : Z) :
  0 <= i < Z.of_nat k -> (k <= List.length l)%nat ->
  get (firstn k l ++ [x]) i = get l i.
Proof.
  intros Hi Hk. unfold get. destruct (Z.ltb_spec i 0); [lia|].
  rewrite nth_error_app1 by (rewrite length_firstn; lia).
  rewrite nth_error_firstn.
  destruct (Nat.ltb_spec (Z.to_nat i) k); [reflexivity | lia].
Qed.

Section UndoRedo.

Context {State Action Env : Type}.
Variables isUndo isRedo : Action -> bool.
Variable same : State -> State -> bool.
Variable reducer : Env -> option State -> Action -> option State.

Abbreviation step := (undoable isUndo isRedo same reducer).
Abbreviation reach := (reachable isUndo isRedo same reducer).

(** The state after an action that is not a no-op. *)
Lemma undoable_new_state (e : Env) (state : hstate State) (a : Action)
      (p newPresent : State) :
  0 <= historyIndex state < Z.of_nat (List.length (history state)) ->
  isUndo a = false -> isRedo a = false ->
  present state = Some p ->
  reducer e (Some p) a = Some newPresent ->
  same newPresent p = false ->
  step e state a =
  Some (mkHistory
          (firstn (Z.to_nat (historyIndex state + 1)) (history state)
           ++ [newPresent])
          (historyIndex state + 1)).
Proof.
  intros Hb Hu Hr Hp Hred Hsame. unfold undoable.
  rewrite Hu, Hr, Hp, Hred. cbn [unchanged]. rewrite Hsame.
  unfold slice0, relativeIndex.
  destruct (Z.ltb_spec (historyIndex state + 1) 0); [lia|].
  rewrite Z.min_l by lia. rewrite length_firstn, Nat.min_l by lia.
  rewrite Z2Nat.id by lia. reflexivity.
Qed.

(** The index of a reachable state is a position of its history. *)
Lemma reachable_index (state : hstate State) :
  reach state ->
  0 <= historyIndex state < Z.of_nat (List.length (history state)).
Proof.
  induction 1 as [s0 | state e a state' _ IH Hstep]; [cbn; lia|].
  unfold undoable in Hstep.
  destruct (isUndo a); [inversion Hstep; subst; cbn; lia|].
  destruct (isRedo a); [inversion Hstep; subst; cbn; lia|].
  destruct (reducer e (present state) a) as [newPresent|]; [|discriminate].
  destruct (unchanged same newPresent (present state));
    inversion Hstep; subst; [exact IH|].
  cbn [history historyIndex]. rewrite length_app. cbn [List.length]. lia.
Qed.

(** X1. Undo then redo: where undo is possible, [UNDO] followed by [REDO]
    leads back to the same wrapper state. *)
Theorem undo_then_redo (state : hstate State) (eu er : Env) (u r : Action) :
  reach state ->
  isUndo u = true -> isUndo r = false -> isRedo r = true ->
  canUndo state = true ->
  exists mid,
    step eu state u = Some mid /\
    historyIndex mid = historyIndex state - 1 /\
    step er mid r = Some state.
Proof.
  intros Hreach Hu Hnu Hr Hcan.
  pose proof (reachable_index state Hreach) as Hb.
  unfold canUndo in Hcan. apply Z.ltb_lt in Hcan.
  exists (mkHistory (history state) (historyIndex state - 1)).
  split; [|split].
  - unfold undoable. rewrite Hu. rewrite Z.max_r by lia. reflexivity.
  - reflexivity.
  - unfold undoable. rewrite Hnu, Hr. cbn [history historyIndex].
    rewrite Z.min_r by lia. destruct state as [h i]. cbn [history historyIndex].
    apply (f_equal Some), (f_equal (mkHistory h)). lia.
Qed.

(** X2. Redo then undo: where redo is possible, [REDO] followed by [UNDO]
    leads back to the same wrapper state. *)
Theorem redo_then_undo (state : hstate State) (eu er : Env) (u r : Action) :
  reach state ->
  isUndo u = true -> isUndo r = false -> isRedo r = true ->
  canRedo state = true ->
  exists mid,
    step er state r = Some mid /\
    historyIndex mid = historyIndex state + 1 /\
    step eu mid u = Some state.
Proof.
  intros Hreach Hu Hnu Hr Hcan.
  pose proof (reachable_index state Hreach) as Hb.
  unfold canRedo in Hcan. apply Z.ltb_lt in Hcan.
  exists (mkHistory (history state) (historyIndex state + 1)).
  split; [|split].
  - unfold undoable. rewrite Hnu, Hr. rewrite Z.min_r by lia. reflexivity.
  - reflexivity.
  - unfold undoable. rewrite Hu. cbn [history historyIndex].
    rewrite Z.max_r by lia. destruct state as [h i]. cbn [history historyIndex].
    apply (f_equal Some), (f_equal (mkHistory h)). lia.
Qed.

(** X3. The flags [canUndo] and [canRedo] tell whether [UNDO] and [REDO]
    do anything: in a reachable state, [UNDO] returns a state with the same
    history and index exactly when [canUndo] is false, and [REDO] exactly
    when [canRedo] is false. *)
Theorem flags_decide (state : hstate State) (e : Env) (u r : Action) :
  reach state ->
  isUndo u = true -> isUndo r = false -> isRedo r = true ->
  (step e state u = Some state <-> canUndo state = false) /\
  (step e state r = Some state <-> canRedo state = false).
Proof.
  intros Hreach Hu Hnu Hr.
  pose proof (reachable_index state Hreach) as Hb.
  destruct state as [h i]. cbn [history historyIndex] in Hb.
  unfold undoable, canUndo, canRedo. rewrite Hu, Hnu, Hr.
  cbn [history historyIndex]. split; split; intros H.
  - injection H as H. apply Z.ltb_ge. lia.
  - apply Z.ltb_ge in H. apply (f_equal Some), (f_equal (mkHistory h)). lia.
  - injection H as H. apply Z.ltb_ge. lia.
  - apply Z.ltb_ge in H. apply (f_equal Some), (f_equal (mkHistory h)). lia.
Qed.

(** X4. An action that is not a no-op keeps the past and drops the future:
    the new history is the old one up to the present followed by the new
    state, which is the new present; redo is no longer possible and undo
    is. *)
Theorem action_drops_future (state : hstate State) (e : Env) (a : Action)
        (p newPresent : State) :
  reach state ->
  isUndo a = false -> isRedo a = false ->
  present state = Some p ->
  reducer e (Some p) a = Some newPresent ->
  same newPresent p = false ->
  exists state',
    step e state a = Some state' /\
    history state' =
    firstn (Z.to_nat (historyIndex state + 1)) (history state)
    ++ [newPresent] /\
    (forall i, 0 <= i <= historyIndex state ->
               get (history state') i = get (history state) i) /\
    present state' = Some newPresent /\
    canRedo state' = false /\ canUndo state' = true.
Proof.
  intros Hreach Hu Hr Hp Hred Hsame.
  pose proof (reachable_index state Hreach) as Hb.
  eexists. split; [apply (undoable_new_state e state a p newPresent); assumption|].
  cbn [history historyIndex]. split; [reflexivity|]. split; [|split; [|split]].
  - intros i Hi. apply get_firstn_before; lia.
  - unfold present. cbn [history historyIndex].
    replace (historyIndex state + 1)
      with (Z.of_nat (Z.to_nat (historyIndex state + 1))) at 2 by lia.
    apply get_firstn_app. lia.
  - unfold canRedo. cbn [history historyIndex]. apply Z.ltb_ge.
    rewrite length_app, length_firstn. cbn [List.length]. lia.
  - unfold canUndo. cbn [history historyIndex]. apply Z.ltb_lt. lia.
Qed.

(** X5. Undo reverts an action: after an action that is not a no-op,
    [UNDO] makes the old present the present again, and [REDO] after it the
    new one. *)
Theorem undo_reverts_action (state : hstate State) (e eu er : Env)
        (a u r : Action) (p newPresent : State) :
  reach state ->
  isUndo a = false -> isRedo a = false ->
  isUndo u = true -> isUndo r = false -> isRedo r = true ->
  present state = Some p ->
  reducer e (Some p) a = Some newPresent ->
  same newPresent p = false ->
  exists state' undone redone,
    step e state a = Some state' /\
    step eu state' u = Some undone /\ present undone = Some p /\
    step er undone r = Some redone /\ present redone = Some newPresent /\
    redone = state'.
Proof.
  intros Hreach Hna Hnr Hu Hnu Hr Hp Hred Hsame.
  pose proof (reachable_index state Hreach) as Hb.
  pose proof (undoable_new_state e state a p newPresent Hb Hna Hnr Hp Hred
                                 Hsame) as Hstep.
  set (h' := firstn (Z.to_nat (historyIndex state + 1)) (history state)
             ++ [newPresent]) in *.
  assert (Hlen : Z.of_nat (List.length h') = historyIndex state + 2).
  { unfold h'. rewrite length_app, length_firstn. cbn [List.length]. lia. }
  exists (mkHistory h' (historyIndex state + 1)),
         (mkHistory h' (historyIndex state)),
         (mkHistory h' (historyIndex state + 1)).
  split; [exact Hstep|]. split; [|split; [|split; [|split]]].
  - unfold undoable. rewrite Hu. cbn [history historyIndex].
    apply (f_equal Some), (f_equal (mkHistory h')). lia.
  - unfold present in *. cbn [history historyIndex]. rewrite <- Hp.
    unfold h'. apply get_firstn_before; lia.
  - unfold undoable. rewrite Hnu, Hr. cbn [history historyIndex].
    apply (f_equal Some), (f_equal (mkHistory h')). lia.
  - unfold present. cbn [history historyIndex]. unfold h'.
    replace (historyIndex state + 1)
      with (Z.of_nat (Z.to_nat (historyIndex state + 1))) at 2 by lia.
    apply get_firstn_app. lia.
  - reflexivity.
Qed.

End UndoRedo.

(* ================================================================= *)
(** ** Path resolver: composition *)

Lemma findTaskAndUpdate_deeper (tasks : list task) (x y : string) (r : path)
      (g : task -> task) :
  findTaskAndUpdate tasks (x :: y :: r) g =
  map (fun task =>
         if has_id x task
         then set_subtasks task (findTaskAndUpdate (subtasks task) (y :: r) g)
         else task)
      tasks.
Proof. reflexivity. Qed.

Lemma resolve_deeper (tasks : list task) (x y : string) (r : path) :
  resolve tasks (x :: y :: r) =
  flat_map (fun t => resolve (subtasks t) (y :: r)) (filter (has_id x) tasks).
Proof. reflexivity. Qed.

Lemma resolve_deeper_In (tasks : list task) (x y : string) (r : path)
      (t u : task) :
  In t tasks -> has_id x t = true -> In u (resolve (subtasks t) (y :: r)) ->
  In u (resolve tasks (x :: y :: r)).
Proof.
  intros Ht Hid Hu. rewrite resolve_deeper. apply in_flat_map.
  exists t. split; [apply filter_In; split; assumption | exact Hu].
Qed.

(** An update depends on the transformation only at the tasks the path
    leads to. *)
Lemma findTaskAndUpdate_ext (g g' : task -> task) :
  forall (idPath : path) (tasks : list task),
    (forall t, In t (resolve tasks idPath) -> g t = g' t) ->
    findTaskAndUpdate tasks idPath g = findTaskAndUpdate tasks idPath g'.
Proof.
  induction idPath as [|x rest IH]; intros tasks H; [reflexivity|].
  destruct rest as [|y r].
  - cbn [findTaskAndUpdate]. apply map_ext_in. intros t Ht.
    destruct (has_id x t) eqn:E; [|reflexivity].
    apply H. cbn [resolve]. apply filter_In. split; assumption.
  - rewrite !findTaskAndUpdate_deeper. apply map_ext_in. intros t Ht.
    destruct (has_id x t) eqn:E; [|reflexivity].
    f_equal. apply IH. intros u Hu. apply H.
    eapply resolve_deeper_In; eassumption.
Qed.

Lemma findTaskAndUpdate_fixed (g : task -> task) (idPath : path)
      (tasks : list task) :
  (forall t, In t (resolve tasks idPath) -> g t = t) ->
  findTaskAndUpdate tasks idPath g = tasks.
Proof.
  intros H.
  rewrite (findTaskAndUpdate_ext g (fun t => t) idPath tasks H).
  revert tasks H. induction idPath as [|x rest IH]; intros tasks H.
  - cbn. apply map_id.
  - destruct rest as [|y r].
    + cbn [findTaskAndUpdate]. apply map_same. intros t _.
      destruct (has_id x t); reflexivity.
    + rewrite findTaskAndUpdate_deeper. apply map_same. intros t Ht.
      destruct (has_id x t) eqn:E; [|reflexivity].
      rewrite IH; [apply set_subtasks_same|].
      intros u Hu. apply H. eapply resolve_deeper_In; eassumption.
Qed.

(** Updating with [g] and then with [h] along the same path is updating
    once with [h] after [g], when [g] keeps identifiers. *)
Lemma findTaskAndUpdate_twice (g h : task -> task) (idPath : path)
      (tasks : list task) :
  (forall t, id (g t) = id t) ->
  findTaskAndUpdate (findTaskAndUpdate tasks idPath g) idPath h =
  findTaskAndUpdate tasks idPath (fun t => h (g t)).
Proof.
  intros Hg. revert tasks. induction idPath as [|x rest IH]; intros tasks.
  - cbn. rewrite !map_id. reflexivity.
  - destruct rest as [|y r].
    + cbn [findTaskAndUpdate]. rewrite map_map. apply map_ext. intros t.
      destruct (has_id x t) eqn:E.
      * unfold has_id in *. rewrite Hg, E. reflexivity.
      * rewrite E. reflexivity.
    + rewrite !findTaskAndUpdate_deeper, map_map. apply map_ext. intros t.
      destruct (has_id x t) eqn:E.
      * change (has_id x (set_subtasks t
                  (findTaskAndUpdate (subtasks t) (y :: r) g)))
          with (has_id x t).
        rewrite E. cbn [subtasks set_subtasks]. rewrite IH. reflexivity.
      * rewrite E. reflexivity.
Qed.

(** X6. Updates along the same path compose: dispatching
    [UPDATE_NESTED_TASK] with [u1] and then with [u2] for the same path gives
    the forest of one dispatch with [{ ...u1, ...u2 }], when [u1] leaves the
    identifier of a task as it is. *)
Theorem updates_compose (e1 e2 e : env) (tasks : forest) (idPath : path)
        (u1 u2 : list update) :
  (forall t, id (merge t u1) = id t) ->
  reduceTasks e2 (reduceTasks e1 tasks (UPDATE_NESTED_TASK idPath u1))
              (UPDATE_NESTED_TASK idPath u2) =
  reduceTasks e tasks (UPDATE_NESTED_TASK idPath (u1 ++ u2)).
Proof.
  intros Hid. cbn [reduceTasks].
  rewrite (findTaskAndUpdate_twice (fun t => merge t u1)
                                   (fun t => merge t u2) idPath tasks Hid).
  apply findTaskAndUpdate_ext. intros t _. unfold merge.
  rewrite fold_left_app. reflexivity.
Qed.

(** An update with an idempotent transformation is idempotent. *)
Lemma findTaskAndUpdate_idempotent (g : task -> task) (idPath : path)
      (tasks : list task) :
  (forall t, g (g t) = g t) ->
  findTaskAndUpdate (findTaskAndUpdate tasks idPath g) idPath g =
  findTaskAndUpdate tasks idPath g.
Proof.
  intros Hg. revert tasks. induction idPath as [|x rest IH]; intros tasks.
  - cbn. rewrite !map_id. reflexivity.
  - destruct rest as [|y r].
    + cbn [findTaskAndUpdate]. rewrite map_map. apply map_ext. intros t.
      destruct (has_id x t) eqn:E; [|rewrite E; reflexivity].
      destruct (has_id x (g t)); [apply Hg | reflexivity].
    + rewrite !findTaskAndUpdate_deeper, map_map. apply map_ext. intros t.
      destruct (has_id x t) eqn:E; [|rewrite E; reflexivity].
      change (has_id x (set_subtasks t
                (findTaskAndUpdate (subtasks t) (y :: r) g)))
        with (has_id x t).
      rewrite E. cbn [subtasks set_subtasks]. rewrite IH. reflexivity.
Qed.

(** The tasks a path with one more component leads to. *)
Lemma resolve_snoc (x : string) :
  forall (idPath : path) (tasks : list task),
    idPath <> [] ->
    resolve tasks (idPath ++ [x]) =
    flat_map (fun t => filter (has_id x) (subtasks t)) (resolve tasks idPath).
Proof.
  induction idPath as [|y rest IH]; intros tasks Hne; [contradiction|].
  destruct rest as [|z r].
  - reflexivity.
  - change ((y :: z :: r) ++ [x]) with (y :: (z :: r) ++ [x]).
    change ((z :: r) ++ [x]) with (z :: (r ++ [x])).
    rewrite !resolve_deeper.
    change (z :: (r ++ [x])) with ((z :: r) ++ [x]).
    induction (filter (has_id y) tasks) as [|t l IHl]; [reflexivity|].
    cbn [flat_map]. rewrite flat_map_app, IHl, IH by discriminate.
    reflexivity.
Qed.

(* ================================================================= *)
(** ** Deleting and adding tasks *)

Lemma nodes_app (l1 l2 : list task) : nodes (l1 ++ l2) = nodes l1 ++ nodes l2.
Proof. unfold nodes. apply flat_map_app. Qed.

Lemma nodes_cons (t : task) (l : list task) :
  nodes (t :: l) = t :: nodes (subtasks t) ++ nodes l.
Proof. unfold nodes. cbn [flat_map]. rewrite nodes_of_eq. reflexivity. Qed.

Lemma nodes_filter_length (f : task -> bool) (l : list task) :
  (List.length (nodes (filter f l)) +
   List.length (nodes (filter (fun t => negb (f t)) l)))%nat =
  List.length (nodes l).
Proof.
  induction l as [|t l IH]; [reflexivity|].
  cbn [filter]. rewrite (nodes_cons t l).
  destruct (f t); cbn [negb]; rewrite nodes_cons; cbn [List.length];
    rewrite !length_app; lia.
Qed.

Lemma filter_filter_negb (f : task -> bool) (l : list task) :
  filter f (filter (fun t => negb (f t)) l) = [].
Proof.
  induction l as [|t l IH]; [reflexivity|].
  cbn [filter]. destruct (f t) eqn:E; cbn [negb filter]; [exact IH|].
  rewrite E. exact IH.
Qed.

(** The number of nodes after an update that takes [d t] nodes out of each
    task [t] it is applied to and puts [a t] nodes in. *)
Lemma nodes_findTaskAndUpdate (g : task -> task) (d a : task -> nat) :
  (forall t, (List.length (nodes_of (g t)) + d t)%nat =
             (List.length (nodes_of t) + a t)%nat) ->
  forall (idPath : path) (tasks : list task),
    idPath <> [] ->
    (List.length (nodes (findTaskAndUpdate tasks idPath g)) +
     list_sum (map d (resolve tasks idPath)))%nat =
    (List.length (nodes tasks) + list_sum (map a (resolve tasks idPath)))%nat.
Proof.
  intros Hg. induction idPath as [|x rest IH]; intros tasks Hne;
    [contradiction|].
  assert (Hcons : forall u l0, List.length (nodes (u :: l0)) =
                    (List.length (nodes_of u) + List.length (nodes l0))%nat).
  { intros u l0. unfold nodes. cbn [flat_map]. apply length_app. }
  destruct rest as [|y r].
  - cbn [findTaskAndUpdate resolve].
    induction tasks as [|t l IHl]; [reflexivity|].
    cbn [map filter]. specialize (Hg t).
    destruct (has_id x t); rewrite !Hcons.
    + cbn [map]. simpl list_sum. lia.
    + lia.
  - rewrite findTaskAndUpdate_deeper, resolve_deeper.
    induction tasks as [|t l IHl]; [reflexivity|].
    cbn [map filter]. rewrite !nodes_cons. cbn [List.length].
    rewrite !length_app. destruct (has_id x t).
    + cbn [flat_map subtasks set_subtasks]. rewrite !map_app, !list_sum_app.
      specialize (IH (subtasks t) ltac:(discriminate)). lia.
    + lia.
Qed.

Lemma nodes_flat_map_length (k : task -> list task) (l : list task) :
  List.length (nodes (flat_map k l)) =
  list_sum (map (fun t => List.length (nodes (k t))) l).
Proof.
  induction l as [|t l IH]; [reflexivity|].
  cbn [flat_map map]. simpl list_sum.
  rewrite nodes_app, length_app, IH. reflexivity.
Qed.

Lemma filter_true_all {A} (f : A -> bool) (l : list A) :
  (forall x, In x l -> f x = true) -> filter f l = l.
Proof.
  induction l as [|a l IH]; intros H; [reflexivity|].
  cbn [filter]. rewrite H by (left; reflexivity).
  rewrite IH; [reflexivity|]. intros x Hx. apply H. right. exact Hx.
Qed.

Lemma removelast_snoc {A} (l : list A) (x : A) : removelast (l ++ [x]) = l.
Proof. apply removelast_last. Qed.

Lemma get_last_snoc {A} (l : list A) (x : A) :
  get (l ++ [x]) (Z.of_nat (List.length (l ++ [x])) - 1) = Some x.
Proof.
  rewrite length_app. cbn [List.length].
  replace (Z.of_nat (List.length l + 1) - 1) with (Z.of_nat (List.length l))
    by lia.
  apply get_middle.
Qed.

(** The deletion at a path with at least two components. *)
Lemma delete_nested_snoc (e : env) (tasks : list task) (parentPath : path)
      (x : string) :
  parentPath <> [] ->
  reduceTasks e tasks (DELETE_NESTED_TASK (parentPath ++ [x])) =
  findTaskAndUpdate tasks parentPath
    (fun parentTask =>
       set_subtasks parentTask
         (filter (fun t => negb (has_id x t)) (subtasks parentTask))).
Proof.
  intros Hne. cbn [reduceTasks]. rewrite removelast_snoc, get_last_snoc.
  destruct parentPath; [contradiction | reflexivity].
Qed.

Lemma path_cases (idPath : path) :
  idPath = [] \/ (exists x, idPath = [x]) \/
  (exists parentPath x, parentPath <> [] /\ idPath = parentPath ++ [x]).
Proof.
  destruct idPath as [|y r] using rev_ind; [left; reflexivity|].
  right. destruct r as [|z r]; [left; exists y; reflexivity|].
  right. exists (z :: r), y. split; [discriminate | reflexivity].
Qed.

(** X7. Delete removes the subtrees: after [DELETE_TODO] or
    [DELETE_NESTED_TASK] the forest has as many nodes fewer as the tasks the
    identifier or path led to had with their subtrees, and the identifier
    or path leads to no task any more. *)
Theorem delete_removes_subtrees (e : env) (tasks : forest) :
  (forall i,
      (List.length (nodes (reduceTasks e tasks (DELETE_TODO i))) +
       List.length (nodes (resolve tasks [i])))%nat =
      List.length (nodes tasks) /\
      resolve (reduceTasks e tasks (DELETE_TODO i)) [i] = []) /\
  (forall idPath,
      (List.length (nodes (reduceTasks e tasks (DELETE_NESTED_TASK idPath))) +
       List.length (nodes (resolve tasks idPath)))%nat =
      List.length (nodes tasks) /\
      resolve (reduceTasks e tasks (DELETE_NESTED_TASK idPath)) idPath = []).
Proof.
  assert (Hroot : forall i,
             (List.length (nodes (filter (fun t => negb (has_id i t)) tasks)) +
              List.length (nodes (filter (has_id i) tasks)))%nat =
             List.length (nodes tasks) /\
             filter (has_id i) (filter (fun t => negb (has_id i t)) tasks) = []).
  { intros i. split; [|apply filter_filter_negb].
    rewrite Nat.add_comm. apply nodes_filter_length. }
  split; [exact Hroot|]. intros idPath.
  destruct (path_cases idPath) as [-> | [(x & ->) | (pp & x & Hne & ->)]].
  - cbn [reduceTasks removelast resolve nodes flat_map List.length].
    replace (filter _ tasks) with tasks.
    + split; [unfold nodes; lia | reflexivity].
    + symmetry. apply filter_true_all. intros t _. reflexivity.
  - exact (Hroot x).
  - rewrite delete_nested_snoc by exact Hne. split.
    + rewrite resolve_snoc by exact Hne. rewrite nodes_flat_map_length.
      pose proof (nodes_findTaskAndUpdate
               (fun parentTask =>
                  set_subtasks parentTask
                    (filter (fun t => negb (has_id x t)) (subtasks parentTask)))
               (fun t => List.length
                           (nodes (filter (has_id x) (subtasks t))))
               (fun _ => 0%nat)) as Hcount.
      assert (Hzero : forall l : list task,
                 list_sum (map (fun _ => 0%nat) l) = 0%nat).
      { induction l as [|u l IHl]; [reflexivity | exact IHl]. }
      rewrite <- (Nat.add_0_r (List.length (nodes tasks))).
      rewrite <- (Hzero (resolve tasks pp)). apply Hcount.
      * intros t. rewrite Nat.add_0_r. rewrite !nodes_of_eq. cbn [List.length subtasks set_subtasks].
        fold (nodes (filter (fun t0 => negb (has_id x t0)) (subtasks t))).
        fold (nodes (subtasks t)).
        pose proof (nodes_filter_length (has_id x) (subtasks t)). lia.
      * exact Hne.
    + rewrite resolve_snoc by exact Hne.
      rewrite resolve_findTaskAndUpdate by reflexivity.
      induction (resolve tasks pp) as [|t l IH]; [reflexivity|].
      cbn [map flat_map subtasks set_subtasks].
      rewrite filter_filter_negb, IH. reflexivity.
Qed.

Lemma nodes_of_subtask (u t c : task) :
  In t (nodes_of u) -> In c (subtasks t) -> In c (nodes_of u).
Proof.
  induction u as [u Hsub] using task_nested_ind. intros Ht Hc.
  rewrite nodes_of_eq in *. destruct Ht as [<- | Ht].
  - right. apply in_flat_map. exists c. split; [exact Hc|].
    rewrite nodes_of_eq. left. reflexivity.
  - right. apply in_flat_map in Ht. destruct Ht as (s & Hs & Hts).
    apply in_flat_map. exists s. split; [exact Hs|].
    rewrite Forall_forall in Hsub. exact (Hsub s Hs Hts Hc).
Qed.

Lemma nodes_subtask (tasks : list task) (t c : task) :
  In t (nodes tasks) -> In c (subtasks t) -> In c (nodes tasks).
Proof.
  unfold nodes. intros Ht Hc. apply in_flat_map in Ht.
  destruct Ht as (u & Hu & Ht). apply in_flat_map. exists u.
  split; [exact Hu | eapply nodes_of_subtask; eassumption].
Qed.

Lemma nodes_root (tasks : list task) (t : task) :
  In t tasks -> In t (nodes tasks).
Proof.
  intros Ht. unfold nodes. apply in_flat_map. exists t.
  split; [exact Ht | rewrite nodes_of_eq; left; reflexivity].
Qed.

(** The tasks a path leads to are nodes of the forest. *)
Lemma resolve_nodes :
  forall (idPath : path) (tasks : list task) (t : task),
    In t (resolve tasks idPath) -> In t (nodes tasks).
Proof.
  induction idPath as [|x rest IH]; intros tasks t Ht; [contradiction|].
  destruct rest as [|y r].
  - cbn [resolve] in Ht. apply filter_In in Ht. apply nodes_root, Ht.
  - rewrite resolve_deeper in Ht. apply in_flat_map in Ht.
    destruct Ht as (u & Hu & Ht). apply filter_In in Hu.
    specialize (IH (subtasks u) t Ht).
    unfold nodes in IH. apply in_flat_map in IH. destruct IH as (c & Hc & Htc).
    assert (Hcn : In c (nodes tasks))
      by (eapply nodes_subtask; [apply nodes_root, Hu | exact Hc]).
    clear - Hcn Htc. revert Hcn Htc. unfold nodes. intros Hcn Htc.
    apply in_flat_map in Hcn. destruct Hcn as (root & Hroot & Hc).
    apply in_flat_map. exists root. split; [exact Hroot|].
    clear - Hc Htc. revert c t Hc Htc.
    induction root as [root Hsub] using task_nested_ind. intros c t Hc Htc.
    rewrite nodes_of_eq in Hc. destruct Hc as [<- | Hc]; [exact Htc|].
    rewrite nodes_of_eq. right. apply in_flat_map in Hc.
    destruct Hc as (s & Hs & Hcs). apply in_flat_map. exists s.
    split; [exact Hs|]. rewrite Forall_forall in Hsub.
    exact (Hsub s Hs c t Hcs Htc).
Qed.

Lemma not_in_ids (tasks : list task) (x : string) (t : task) :
  ~ In x (ids tasks) -> In t (nodes tasks) -> has_id x t = false.
Proof.
  intros Hx Ht. unfold has_id. apply String.eqb_neq. intros E. apply Hx.
  unfold ids. rewrite <- E. apply in_map, Ht.
Qed.

Lemma filter_none (f : task -> bool) (l : list task) :
  (forall t, In t l -> f t = false) -> filter f l = [].
Proof.
  induction l as [|a l IH]; intros H; [reflexivity|].
  cbn [filter]. rewrite H by (left; reflexivity).
  apply IH. intros t Ht. apply H. right. exact Ht.
Qed.

(** X8. Adding and deleting a root task: [ADD_TODO] puts the new task in
    front of the others; when no root task has its identifier, the new task
    is the one the identifier leads to, and [DELETE_TODO] with that
    identifier gives back the forest. *)
Theorem add_todo_round_trip (e e' : env) (r : nat) (tasks : forest)
        (p : fields) :
  todoReducer e (Some (mkArray r (map Some tasks))) (ADD_TODO p) =
  Some (mkArray (fresh e) (map Some (newTodo e p :: tasks))) /\
  (forallb (fun t => negb (has_id (uuid e) t)) tasks = true ->
   resolve (newTodo e p :: tasks) [uuid e] = [newTodo e p] /\
   reduceTasks e' (newTodo e p :: tasks) (DELETE_TODO (uuid e)) = tasks).
Proof.
  split; [reflexivity|]. intros Hfresh. rewrite forallb_forall in Hfresh.
  assert (Hself : has_id (uuid e) (newTodo e p) = true)
    by apply String.eqb_refl.
  split.
  - cbn [resolve filter]. rewrite Hself. f_equal. apply filter_none.
    intros t Ht. specialize (Hfresh t Ht).
    destruct (has_id (uuid e) t); [discriminate | reflexivity].
  - cbn [reduceTasks filter]. rewrite Hself. cbn [negb].
    apply filter_true_all. exact Hfresh.
Qed.

Lemma list_sum_const (l : list task) (k : nat) :
  list_sum (map (fun _ => k) l) = (k * List.length l)%nat.
Proof.
  induction l as [|t l IH]; [cbn; lia|].
  cbn [map List.length]. simpl list_sum. rewrite IH. lia.
Qed.

(** X9. Adding and deleting a subtask: [ADD_NESTED_TASK] puts the new task
    in front of the subtasks of every task the path leads to and changes
    nothing else, so the forest grows by one node for each of them; the new
    task is then found under the path extended by its identifier; and when
    the identifier is new to the forest, [DELETE_NESTED_TASK] with the
    extended path gives back the forest. *)
Theorem add_nested_round_trip (e e' : env) (tasks : forest) (idPath : path)
        (p : fields) :
  let result := reduceTasks e tasks (ADD_NESTED_TASK idPath p) in
  resolve result idPath =
  map (fun parentTask =>
         set_subtasks parentTask (newSubtask e p :: subtasks parentTask))
      (resolve tasks idPath) /\
  List.length (nodes result) =
  (List.length (nodes tasks) + List.length (resolve tasks idPath))%nat /\
  (resolve tasks idPath <> [] ->
   In (newSubtask e p) (resolve result (idPath ++ [uuid e]))) /\
  (~ In (uuid e) (ids tasks) ->
   reduceTasks e' result (DELETE_NESTED_TASK (idPath ++ [uuid e])) = tasks).
Proof.
  intros result. unfold result.
  set (add := fun parentTask : task =>
                set_subtasks parentTask
                             (newSubtask e p :: subtasks parentTask)).
  change (reduceTasks e tasks (ADD_NESTED_TASK idPath p))
    with (findTaskAndUpdate tasks idPath add).
  assert (Hself : has_id (uuid e) (newSubtask e p) = true)
    by apply String.eqb_refl.
  split; [|split; [|split]].
  - apply resolve_findTaskAndUpdate. reflexivity.
  - destruct idPath as [|x rest].
    + cbn [findTaskAndUpdate resolve List.length]. rewrite map_id. lia.
    + pose proof (nodes_findTaskAndUpdate add (fun _ => 0%nat)
                    (fun _ => 1%nat)) as Hcount.
      assert (Hadd : forall t,
                 (List.length (nodes_of (add t)) + 0)%nat =
                 (List.length (nodes_of t) + 1)%nat).
      { intros t. unfold add. rewrite !nodes_of_eq.
        cbn [subtasks set_subtasks flat_map List.length].
        rewrite length_app, !nodes_of_eq.
        cbn [List.length subtasks newSubtask flat_map]. lia. }
      specialize (Hcount Hadd (x :: rest) tasks ltac:(discriminate)).
      rewrite !list_sum_const in Hcount. lia.
  - intros Hne. destruct idPath as [|x rest]; [contradiction Hne; reflexivity|].
    rewrite resolve_snoc by discriminate.
    rewrite resolve_findTaskAndUpdate by reflexivity.
    destruct (resolve tasks (x :: rest)) as [|t l]; [contradiction Hne; reflexivity|].
    cbn [map flat_map]. apply in_or_app. left. unfold add.
    cbn [subtasks set_subtasks filter]. rewrite Hself. left. reflexivity.
  - intros Hfresh. destruct idPath as [|x rest].
    + cbn [app findTaskAndUpdate]. rewrite map_id.
      cbn [reduceTasks removelast]. apply filter_true_all. intros t Ht.
      cbn. rewrite (not_in_ids tasks (uuid e) t Hfresh (nodes_root _ _ Ht)).
      reflexivity.
    + rewrite delete_nested_snoc by discriminate.
      rewrite findTaskAndUpdate_twice by reflexivity.
      apply findTaskAndUpdate_fixed. intros t Ht. unfold add.
      cbn [subtasks set_subtasks filter]. rewrite Hself. cbn [negb].
      rewrite filter_true_all; [destruct t; reflexivity|].
      intros c Hc.
      rewrite (not_in_ids tasks (uuid e) c Hfresh); [reflexivity|].
      eapply nodes_subtask; [eapply resolve_nodes; exact Ht | exact Hc].
Qed.

(* ================================================================= *)
(** ** Updating and toggling twice *)

Lemma assign_same_key (t : task) (u v : update) :
  same_key u v = true -> assign (assign t u) v = assign t v.
Proof. destruct u, v; intros H; try discriminate H; reflexivity. Qed.

Lemma assign_other_key (t : task) (u v : update) :
  same_key u v = false -> assign (assign t u) v = assign (assign t v) u.
Proof. destruct u, v; intros H; try discriminate H; reflexivity. Qed.

Lemma same_key_refl (u : update) : same_key u u = true.
Proof. destruct u; reflexivity. Qed.

(** A key that the updates set is set in vain before them. *)
Lemma merge_absorb (u : update) (updates : list update) :
  existsb (same_key u) updates = true ->
  forall t, merge (assign t u) updates = merge t updates.
Proof.
  unfold merge. induction updates as [|v updates IH]; intros H t;
    [discriminate|].
  cbn [fold_left existsb] in *. destruct (same_key u v) eqn:E.
  - rewrite assign_same_key by exact E. reflexivity.
  - rewrite assign_other_key by exact E. apply IH. exact H.
Qed.

Lemma merge_idempotent (updates : list update) (t : task) :
  merge (merge t updates) updates = merge t updates.
Proof.
  assert (H : forall pre,
             (forall u, In u pre -> existsb (same_key u) updates = true) ->
             merge (fold_left assign pre t) updates = merge t updates).
  { induction pre as [|u pre IH] using rev_ind; intros Hpre; [reflexivity|].
    rewrite fold_left_app. cbn [fold_left].
    rewrite merge_absorb by (apply Hpre, in_elt).
    apply IH. intros v Hv. apply Hpre, in_or_app. left. exact Hv. }
  apply H. intros u Hu. apply existsb_exists. exists u.
  split; [exact Hu | apply same_key_refl].
Qed.

(** X10. Updating is idempotent: dispatching the same [UPDATE_TODO] or
    [UPDATE_NESTED_TASK] a second time changes nothing in the forest,
    whatever keys the updates hold. *)
Theorem update_idempotent (e1 e2 : env) (tasks : forest)
        (updates : list update) :
  (forall i,
      reduceTasks e2 (reduceTasks e1 tasks (UPDATE_TODO i updates))
                  (UPDATE_TODO i updates) =
      reduceTasks e1 tasks (UPDATE_TODO i updates)) /\
  (forall idPath,
      reduceTasks e2 (reduceTasks e1 tasks (UPDATE_NESTED_TASK idPath updates))
                  (UPDATE_NESTED_TASK idPath updates) =
      reduceTasks e1 tasks (UPDATE_NESTED_TASK idPath updates)).
Proof.
  split.
  - intros i.
    apply (findTaskAndUpdate_idempotent (fun t => merge t updates) [i] tasks).
    intros t. apply merge_idempotent.
  - intros idPath.
    apply (findTaskAndUpdate_idempotent (fun t => merge t updates) idPath
                                        tasks).
    intros t. apply merge_idempotent.
Qed.

Lemma toggleTask_twice (c c' : bool) (t : task) :
  toggleTask c (toggleTask c' t) = toggleTask c t.
Proof.
  induction t as [t Hsub] using task_nested_ind.
  destruct t as [i tx cp ca dd sd pr re tg de subs].
  cbn [subtasks] in Hsub. simpl. unfold set_completed_subtasks. simpl.
  f_equal. rewrite map_map. apply map_ext_in. intros s Hs.
  rewrite Forall_forall in Hsub. exact (Hsub s Hs).
Qed.

Lemma toggled_twice (e1 e2 : env) (t : task) :
  recurrence t = None ->
  toggled e2 (toggled e1 t) = toggleTask (completed t) t.
Proof.
  intros Hr. destruct t as [i tx cp ca dd sd pr re tg de subs].
  cbn [recurrence] in Hr. subst re.
  unfold toggled, toggleAllNestedTasks, set_toggled. simpl.
  unfold set_completed_subtasks. simpl.
  rewrite !andb_false_r, negb_involutive, map_map.
  f_equal. apply map_ext. intros s. apply toggleTask_twice.
Qed.

(** X11. Toggling twice does not undo the cascade: after two toggles of
    the tasks at a path, none of which recurs, each of them has its own
    [completed] flag back and its whole subtree set to that flag, whatever
    the flags of the subtree were. *)
Theorem toggle_twice (e1 e2 : env) (tasks : forest) (idPath : path) :
  Forall (fun t => recurrence t = None) (resolve tasks idPath) ->
  reduceTasks e2 (reduceTasks e1 tasks (TOGGLE_NESTED_TASK idPath))
              (TOGGLE_NESTED_TASK idPath) =
  findTaskAndUpdate tasks idPath (fun t => toggleTask (completed t) t) /\
  (forall i,
      idPath = [i] ->
      reduceTasks e2 (reduceTasks e1 tasks (TOGGLE_TODO i)) (TOGGLE_TODO i) =
      findTaskAndUpdate tasks [i] (fun t => toggleTask (completed t) t)).
Proof.
  intros Hrec. rewrite Forall_forall in Hrec.
  assert (H : findTaskAndUpdate (findTaskAndUpdate tasks idPath (toggled e1))
                                idPath (toggled e2) =
              findTaskAndUpdate tasks idPath
                                (fun t => toggleTask (completed t) t)).
  { rewrite findTaskAndUpdate_twice by reflexivity.
    apply findTaskAndUpdate_ext. intros t Ht.
    apply toggled_twice, Hrec, Ht. }
  split; [exact H|]. intros i ->. exact H.
Qed.

(* ================================================================= *)
(** ** The state stays a forest *)

Lemma tasks_of_Some (xs : list slot) (l : list task) :
  tasks_of xs = Some l -> xs = map Some l.
Proof.
  revert l. induction xs as [|[t|] xs IH]; intros l H; cbn [tasks_of] in H.
  - inversion H. reflexivity.
  - destruct (tasks_of xs) as [l'|]; [|discriminate].
    inversion H. cbn [map]. f_equal. apply IH. reflexivity.
  - discriminate.
Qed.

Lemma tasks_of_hole (xs : list slot) : In None xs -> tasks_of xs = None.
Proof.
  induction xs as [|[t|] xs IH]; intros H; cbn [tasks_of].
  - contradiction.
  - destruct H as [H|H]; [discriminate|]. rewrite IH by exact H. reflexivity.
  - reflexivity.
Qed.

Lemma map_Some_no_hole (l : list task) : ~ In None (map Some l).
Proof.
  intros H. apply in_map_iff in H. destruct H as (t & Ht & _). discriminate.
Qed.

(** [REORDER_TODOS] on a forest that is not empty. *)
Lemma reorderTodos_forest (t0 : task) (rest : list task)
      (dragId dropId : string) :
  exists result,
    reorderTodos (map Some (t0 :: rest)) dragId dropId =
    Some (map Some result) /\
    Permutation (t0 :: rest) result.
Proof.
  set (tasks := t0 :: rest).
  assert (Hdrop : exists dropIndex,
             findIndex (map Some tasks) dropId = Some dropIndex).
  { unfold findIndex.
    destruct (findIndexFrom_tasks dropId tasks 0)
      as [[_ H] | (l1 & u & l2 & _ & _ & _ & H)]; eauto. }
  destruct Hdrop as (dropIndex & Hdrop).
  destruct (findIndexFrom_tasks dragId tasks 0)
    as [[_ Hf] | (l1 & u & l2 & Hsplit & _ & _ & Hf)].
  - assert (Hlast : tasks = removelast tasks ++ [last tasks t0])
      by (apply app_removelast_last; discriminate).
    pose proof (reorderTodos_tasks (removelast tasks) (last tasks t0) []
                  dragId dropId (-1) dropIndex) as H.
    rewrite <- Hlast, app_nil_r in H. specialize (H Hf Hdrop).
    assert (Hrel : relativeIndex (Z.of_nat (List.length tasks)) (-1) =
                   Z.of_nat (List.length (removelast tasks))).
    { rewrite Hlast at 1. rewrite length_app. cbn [List.length].
      unfold relativeIndex. cbn. lia. }
    specialize (H Hrel). cbn zeta in H.
    eexists. split; [exact H|]. rewrite Hlast at 1.
    match goal with
    | |- Permutation _ (firstn ?p _ ++ _) =>
        pose proof (Permutation_reinsert (removelast tasks) []
                                         (last tasks t0) p) as HP
    end.
    rewrite app_nil_r in HP. exact HP.
  - pose proof (reorderTodos_tasks l1 u l2 dragId dropId
                  (Z.of_nat (List.length l1)) dropIndex) as H.
    rewrite <- Hsplit in H. rewrite Z.add_0_l in Hf. specialize (H Hf Hdrop).
    assert (Hrel : relativeIndex (Z.of_nat (List.length tasks))
                                 (Z.of_nat (List.length l1)) =
                   Z.of_nat (List.length l1)).
    { rewrite Hsplit, length_app. cbn [List.length]. unfold relativeIndex.
      destruct (Z.of_nat (List.length l1) <? 0) eqn:E; lia. }
    specialize (H Hrel). cbn zeta in H.
    eexists. split; [exact H|]. rewrite Hsplit. apply Permutation_reinsert.
Qed.

(** X12. The state stays a forest: on an array of tasks no action throws,
    and the result of every action other than [IMPORT_TODOS] is again an
    array of tasks, except for [REORDER_TODOS] on the empty forest, which
    leaves an array with one [undefined] element; [IMPORT_TODOS] returns its
    payload, whatever it holds. *)
Theorem reducer_keeps_forest (e : env) (r : nat) (tasks : forest)
        (a : action) :
  exists result,
    todoReducer e (Some (mkArray r (map Some tasks))) a = Some result /\
    (isIMPORT a = false ->
     (keepsForest tasks a = true <->
      exists tasks', elems result = map Some tasks') /\
     (keepsForest tasks a = false -> elems result = [None])) /\
    (forall payload, a = IMPORT_TODOS payload -> result = payload).
Proof.
  assert (Hread : forall a',
             readsEveryTask a' = true ->
             a' = a ->
             todoReducer e (Some (mkArray r (map Some tasks))) a =
             Some (mkArray (fresh e) (map Some (reduceTasks e tasks a))) /\
             keepsForest tasks a = true).
  { intros a' Hr <-. split.
    - destruct a'; try discriminate Hr; unfold todoReducer; cbn [elems];
        rewrite tasks_of_map_Some; reflexivity.
    - destruct a'; try discriminate Hr; reflexivity. }
  assert (Hkept : forall result,
             keepsForest tasks a = true ->
             (exists tasks', elems result = map Some tasks') ->
             (keepsForest tasks a = true <->
              exists tasks', elems result = map Some tasks') /\
             (keepsForest tasks a = false -> elems result = [None])).
  { intros result Hk Hex. split; [split; [intros _; exact Hex | intros _; exact Hk]|].
    intros Hf. rewrite Hk in Hf. discriminate Hf. }
  destruct (readsEveryTask a) eqn:Hr.
  - destruct (Hread a Hr eq_refl) as [-> Hk]. eexists. split; [reflexivity|].
    split.
    + intros _. apply Hkept; [exact Hk|]. cbn [elems]. eauto.
    + intros payload ->. discriminate Hr.
  - clear Hread. destruct a; try discriminate Hr.
    + (* ADD_TODO *)
      eexists. split; [reflexivity|]. split; [|discriminate].
      intros _. apply Hkept; [reflexivity|].
      exists (newTodo e payload :: tasks). reflexivity.
    + (* REORDER_TODOS *)
      destruct tasks as [|t0 rest].
      * eexists. split; [reflexivity|]. split; [|discriminate].
        intros _. cbn [elems keepsForest]. split; [|reflexivity].
        split; [discriminate|]. intros (tasks' & H).
        destruct tasks' as [|u l]; discriminate H.
      * destruct (reorderTodos_forest t0 rest dragId dropId)
          as (result & Hres & _).
        eexists. split.
        { unfold todoReducer. cbn [elems]. rewrite Hres. reflexivity. }
        split; [|discriminate].
        intros _. apply Hkept; [reflexivity|]. cbn [elems]. eauto.
    + (* IMPORT_TODOS *)
      eexists. split; [reflexivity|]. split; [discriminate|].
      intros payload' E. injection E as <-. reflexivity.
    + eexists. split; [reflexivity|]. split; [|discriminate].
      intros _. apply Hkept; [reflexivity|]. cbn [elems]. eauto.
    + eexists. split; [reflexivity|]. split; [|discriminate].
      intros _. apply Hkept; [reflexivity|]. cbn [elems]. eauto.
    + eexists. split; [reflexivity|]. split; [|discriminate].
      intros _. apply Hkept; [reflexivity|]. cbn [elems]. eauto.
Qed.

(** X13. An [undefined] element breaks the list: on an array with such an
    element every action that reads the tasks throws, while [ADD_TODO],
    [IMPORT_TODOS] and the actions the reducer does not know do not. *)
Theorem hole_throws (e : env) (r : nat) (xs : list slot) (a : action) :
  In None xs ->
  (readsEveryTask a = true ->
   todoReducer e (Some (mkArray r xs)) a = None) /\
  (forall p, todoReducer e (Some (mkArray r xs)) (ADD_TODO p) =
             Some (mkArray (fresh e) (Some (newTodo e p) :: xs))) /\
  (forall payload, todoReducer e (Some (mkArray r xs)) (IMPORT_TODOS payload) =
                   Some payload) /\
  todoReducer e (Some (mkArray r xs)) OTHER = Some (mkArray r xs).
Proof.
  intros Hhole. split; [|repeat split].
  intros Hr. destruct a; try discriminate Hr; unfold todoReducer;
    cbn [elems]; rewrite (tasks_of_hole xs Hhole); reflexivity.
Qed.

(* ================================================================= *)
(** ** Identifiers *)

Lemma weight_cons (w : task -> nat) (t : task) (l : list task) :
  weight w (t :: l) = (w t + weight w (subtasks t) + weight w l)%nat.
Proof.
  unfold weight. rewrite nodes_cons. cbn [map]. simpl list_sum.
  rewrite map_app, list_sum_app. lia.
Qed.

Lemma weight_nil (w : task -> nat) : weight w [] = 0%nat.
Proof. reflexivity. Qed.

Lemma weight_app (w : task -> nat) (l1 l2 : list task) :
  weight w (l1 ++ l2) = (weight w l1 + weight w l2)%nat.
Proof.
  unfold weight. rewrite nodes_app, map_app, list_sum_app. reflexivity.
Qed.

Lemma weight_filter (w : task -> nat) (f : task -> bool) (l : list task) :
  (weight w (filter f l) <= weight w l)%nat.
Proof.
  induction l as [|t l IH]; [apply Nat.le_refl|].
  cbn [filter]. destruct (f t); rewrite !weight_cons; lia.
Qed.

Lemma weight_Permutation (w : task -> nat) (l l' : list task) :
  Permutation l l' -> weight w l = weight w l'.
Proof.
  induction 1 as [|t l l' _ IH|t u l|l l' l'' _ IH1 _ IH2].
  - reflexivity.
  - rewrite !weight_cons, IH. reflexivity.
  - rewrite !weight_cons. lia.
  - rewrite IH1. exact IH2.
Qed.

(** The weight of a forest after an update that takes the weight [d t] out
    of each task [t] it is applied to and puts the weight [a t] in. *)
Lemma weight_findTaskAndUpdate (w : task -> nat) (g : task -> task)
      (d a : task -> nat) :
  (forall t s, w (set_subtasks t s) = w t) ->
  (forall t, (weight w [g t] + d t)%nat = (weight w [t] + a t)%nat) ->
  forall (idPath : path) (tasks : list task),
    idPath <> [] ->
    (weight w (findTaskAndUpdate tasks idPath g) +
     list_sum (map d (resolve tasks idPath)))%nat =
    (weight w tasks + list_sum (map a (resolve tasks idPath)))%nat.
Proof.
  intros Hw Hg. induction idPath as [|x rest IH]; intros tasks Hne;
    [contradiction|].
  assert (Hone : forall u l0,
             weight w (u :: l0) = (weight w [u] + weight w l0)%nat).
  { intros u l0. rewrite !weight_cons, weight_nil. lia. }
  destruct rest as [|y r].
  - cbn [findTaskAndUpdate resolve].
    induction tasks as [|t l IHl]; [reflexivity|].
    cbn [map filter]. specialize (Hg t).
    destruct (has_id x t).
    + cbn [map]. simpl list_sum. rewrite (Hone (g t)), (Hone t). lia.
    + rewrite (Hone t _), (Hone t l). lia.
  - rewrite findTaskAndUpdate_deeper, resolve_deeper.
    induction tasks as [|t l IHl]; [reflexivity|].
    cbn [map filter]. destruct (has_id x t).
    + cbn [flat_map]. rewrite !map_app, !list_sum_app, !weight_cons.
      cbn [subtasks set_subtasks].
      specialize (IH (subtasks t) ltac:(discriminate)). rewrite Hw. lia.
    + rewrite !weight_cons. lia.
Qed.

Lemma count_carries (x : string) (ns : list task) :
  count_occ string_dec (map id ns) x = list_sum (map (carries x) ns).
Proof.
  induction ns as [|n ns IH]; [reflexivity|].
  cbn [map count_occ]. simpl list_sum. unfold carries at 1, has_id.
  destruct (string_dec (id n) x) as [E|E].
  - rewrite (proj2 (String.eqb_eq _ _) E), IH. reflexivity.
  - rewrite (proj2 (String.eqb_neq _ _) E), IH. reflexivity.
Qed.

(** The identifiers of a forest are distinct when no identifier weighs more
    than one. *)
Lemma NoDup_ids (tasks : list task) :
  NoDup (ids tasks) <-> forall x, (weight (carries x) tasks <= 1)%nat.
Proof.
  unfold ids, weight. rewrite (NoDup_count_occ string_dec).
  split; intros H x; specialize (H x); rewrite count_carries in *; exact H.
Qed.

Lemma not_in_ids_weight (tasks : list task) (x : string) :
  ~ In x (ids tasks) -> weight (carries x) tasks = 0%nat.
Proof.
  intros H. unfold weight. rewrite <- count_carries.
  apply count_occ_not_In. exact H.
Qed.

Lemma carries_set_subtasks (x : string) (t : task) (s : list task) :
  carries x (set_subtasks t s) = carries x t.
Proof. reflexivity. Qed.

Lemma filter_id_weight (x : string) (l : list task) :
  (List.length (filter (has_id x) l) <= weight (carries x) l)%nat.
Proof.
  induction l as [|t l IH]; [apply Nat.le_refl|].
  cbn [filter]. rewrite weight_cons. unfold carries at 1.
  destruct (has_id x t); cbn [List.length]; lia.
Qed.

Lemma weight_subtasks (w : task -> nat) (l : list task) (t : task) :
  In t l -> (weight w (subtasks t) <= weight w l)%nat.
Proof.
  induction l as [|u l IH]; intros H; [contradiction|].
  rewrite weight_cons. destruct H as [-> | H]; [lia|].
  specialize (IH H). lia.
Qed.

Lemma resolve_at_most_one :
  forall (idPath : path) (tasks : list task),
    (forall x, (weight (carries x) tasks <= 1)%nat) ->
    (List.length (resolve tasks idPath) <= 1)%nat.
Proof.
  induction idPath as [|x rest IH]; intros tasks H; [cbn; lia|].
  destruct rest as [|y r].
  - cbn [resolve]. pose proof (filter_id_weight x tasks). specialize (H x). lia.
  - rewrite resolve_deeper.
    pose proof (filter_id_weight x tasks) as Hf. pose proof (H x) as Hx.
    destruct (filter (has_id x) tasks) as [|t [|u l]] eqn:E;
      [cbn; lia | | cbn [List.length] in Hf; lia].
    cbn [flat_map]. rewrite app_nil_r. apply IH. intros z.
    assert (Ht : In t tasks).
    { assert (Hin : In t (filter (has_id x) tasks))
        by (rewrite E; left; reflexivity).
      apply filter_In in Hin. apply Hin. }
    pose proof (weight_subtasks (carries z) tasks t Ht). specialize (H z). lia.
Qed.

Lemma resolve_single (tasks : forest) (idPath : path) (t : task) :
  NoDup (ids tasks) ->
  In t (resolve tasks idPath) ->
  resolve tasks idPath = [t].
Proof.
  intros Hnd Ht. rewrite NoDup_ids in Hnd.
  pose proof (resolve_at_most_one idPath tasks Hnd) as Hlen.
  destruct (resolve tasks idPath) as [|u [|v l]].
  - contradiction.
  - destruct Ht as [-> | []]. reflexivity.
  - cbn [List.length] in Hlen. lia.
Qed.

Lemma nodes_ADD_NESTED_TASK (e : env) (tasks : forest) (idPath : path)
      (p : fields) :
  List.length (nodes (reduceTasks e tasks (ADD_NESTED_TASK idPath p))) =
  (List.length (nodes tasks) + List.length (resolve tasks idPath))%nat.
Proof.
  set (add := fun parentTask : task =>
                set_subtasks parentTask
                             (newSubtask e p :: subtasks parentTask)).
  change (reduceTasks e tasks (ADD_NESTED_TASK idPath p))
    with (findTaskAndUpdate tasks idPath add).
  destruct idPath as [|x rest].
  - cbn [findTaskAndUpdate resolve List.length]. rewrite map_id. lia.
  - pose proof (nodes_findTaskAndUpdate add (fun _ => 0%nat)
                  (fun _ => 1%nat)) as Hcount.
    assert (Hadd : forall t,
               (List.length (nodes_of (add t)) + 0)%nat =
               (List.length (nodes_of t) + 1)%nat).
    { intros t. unfold add. rewrite !nodes_of_eq.
      cbn [subtasks set_subtasks flat_map List.length].
      rewrite length_app, !nodes_of_eq.
      cbn [List.length subtasks newSubtask flat_map]. lia. }
    specialize (Hcount Hadd (x :: rest) tasks ltac:(discriminate)).
    rewrite !list_sum_const in Hcount. lia.
Qed.

(** X14. With distinct identifiers the reducer changes one task: when the
    path leads to the task [t], an update along it depends on the
    transformation only through its value at [t], [TOGGLE_NESTED_TASK]
    leaves the toggled [t] as the one task under the path, and
    [ADD_NESTED_TASK] adds exactly one node to the forest. *)
Theorem path_hits_one_task (e : env) (tasks : forest) (idPath : path)
        (t : task) :
  NoDup (ids tasks) ->
  In t (resolve tasks idPath) ->
  (forall f g : task -> task,
      f t = g t ->
      findTaskAndUpdate tasks idPath f = findTaskAndUpdate tasks idPath g) /\
  resolve (reduceTasks e tasks (TOGGLE_NESTED_TASK idPath)) idPath =
  [toggled e t] /\
  (forall p,
      List.length (nodes (reduceTasks e tasks (ADD_NESTED_TASK idPath p))) =
      S (List.length (nodes tasks))).
Proof.
  intros Hnd Ht. pose proof (resolve_single tasks idPath t Hnd Ht) as Hres.
  split; [|split].
  - intros f g Hfg. apply findTaskAndUpdate_ext. intros u Hu.
    rewrite Hres in Hu. destruct Hu as [<- | []]. exact Hfg.
  - cbn [reduceTasks]. rewrite resolve_findTaskAndUpdate by reflexivity.
    rewrite Hres. reflexivity.
  - intros p. rewrite nodes_ADD_NESTED_TASK, Hres. cbn [List.length]. lia.
Qed.

Lemma weight_by_ids (x : string) (l l' : list task) :
  map id (nodes l) = map id (nodes l') ->
  weight (carries x) l = weight (carries x) l'.
Proof.
  intros Hid. unfold weight. rewrite <- !count_carries, Hid. reflexivity.
Qed.

Lemma ids_toggleAllNestedTasks (c : bool) (l : list task) :
  map id (nodes (toggleAllNestedTasks l c)) = map id (nodes l).
Proof.
  pose proof (toggleAllNestedTasks_labels c l) as H.
  apply (f_equal (map id)) in H. rewrite !map_map in H. exact H.
Qed.

Lemma weight_toggled (x : string) (e : env) (t : task) :
  weight (carries x) [toggled e t] = weight (carries x) [t].
Proof.
  rewrite !weight_cons, weight_nil.
  change (carries x (toggled e t)) with (carries x t).
  change (subtasks (toggled e t))
    with (toggleAllNestedTasks (subtasks t) (negb (completed t))).
  rewrite (weight_by_ids x (toggleAllNestedTasks (subtasks t)
                              (negb (completed t))) (subtasks t));
    [reflexivity|].
  apply ids_toggleAllNestedTasks.
Qed.

Lemma merge_plain (updates : list update) (t : task) :
  forallb plain updates = true ->
  id (merge t updates) = id t /\ subtasks (merge t updates) = subtasks t.
Proof.
  unfold merge. revert t. induction updates as [|u us IH]; intros t H;
    [split; reflexivity|].
  cbn [forallb fold_left] in *. apply andb_true_iff in H.
  destruct H as [Hu Hus]. destruct (IH (assign t u) Hus) as [-> ->].
  destruct u; try discriminate Hu; split; reflexivity.
Qed.

Lemma weight_merge (x : string) (updates : list update) (t : task) :
  forallb plain updates = true ->
  weight (carries x) [merge t updates] = weight (carries x) [t].
Proof.
  intros H. destruct (merge_plain updates t H) as [Hid Hsub].
  rewrite !weight_cons, weight_nil, Hsub. unfold carries, has_id.
  rewrite Hid. reflexivity.
Qed.

Lemma weight_clearNestedCompleted (w : task -> nat) :
  (forall t s, w (set_subtasks t s) = w t) ->
  forall l, (weight w (clearNestedCompleted l) <= weight w l)%nat.
Proof.
  intros Hw.
  assert (Hlist : forall l,
             Forall (fun s => (weight w (clearNestedCompleted (subtasks s))
                               <= weight w (subtasks s))%nat) l ->
             (weight w (clearNestedCompleted l) <= weight w l)%nat).
  { induction 1 as [|s l Hs _ IH]; [apply Nat.le_refl|].
    rewrite (clearNestedCompleted_eq (s :: l)). cbn [filter].
    destruct (negb (completed s)); cbn [map];
      rewrite <- (clearNestedCompleted_eq l), !weight_cons;
      [cbn [subtasks set_subtasks]; rewrite Hw; lia | lia]. }
  assert (Htask : forall t,
             (weight w (clearNestedCompleted (subtasks t))
              <= weight w (subtasks t))%nat).
  { induction t as [t Hsub] using task_nested_ind. apply Hlist, Hsub. }
  intros l. apply Hlist, Forall_forall. intros t _. apply Htask.
Qed.

Lemma map_Some_inj (l l' : list task) : map Some l = map Some l' -> l = l'.
Proof.
  revert l'. induction l as [|t l IH]; intros [|t' l'] H; try discriminate H.
  - reflexivity.
  - cbn [map] in H. injection H as -> H. f_equal. apply IH, H.
Qed.

(** The weight of an identifier after the actions that read the tasks. *)
Lemma weight_reduceTasks (e : env) (tasks : list task) (a : action) :
  (forall x, (weight (carries x) tasks <= 1)%nat) ->
  weight (carries (uuid e)) tasks = 0%nat ->
  keepsIdentifiers a = true ->
  forall x, (weight (carries x) (reduceTasks e tasks a) <= 1)%nat.
Proof.
  intros H Hu Hk x.
  assert (Hle : forall g idPath,
             (forall t, (weight (carries x) [g t]
                         <= weight (carries x) [t])%nat) ->
             (weight (carries x) (findTaskAndUpdate tasks idPath g)
              <= weight (carries x) tasks)%nat).
  { intros g idPath Hg. destruct idPath as [|y r].
    - cbn. rewrite map_id. apply Nat.le_refl.
    - pose proof (weight_findTaskAndUpdate (carries x) g
                    (fun t => (weight (carries x) [t]
                               - weight (carries x) [g t])%nat)
                    (fun _ => 0%nat) (carries_set_subtasks x)) as Hw.
      cbv beta in Hw.
      specialize (Hw ltac:(intros t; specialize (Hg t); lia)
                     (y :: r) tasks ltac:(discriminate)).
      rewrite list_sum_const in Hw. lia. }
  pose proof (H x) as Hx.
  destruct a; cbn [reduceTasks]; try exact Hx.
  - (* ADD_NESTED_TASK *)
    destruct idPath as [|y r]; [cbn; rewrite map_id; exact Hx|].
    pose proof (weight_findTaskAndUpdate (carries x)
                  (fun parentTask =>
                     set_subtasks parentTask
                       (newSubtask e payload :: subtasks parentTask))
                  (fun _ => 0%nat)
                  (fun _ => carries x (newSubtask e payload))
                  (carries_set_subtasks x)) as Hw.
    cbv beta in Hw.
    specialize (Hw ltac:(intros t; rewrite !weight_cons, !weight_nil;
                          cbn [subtasks set_subtasks newSubtask];
                          rewrite weight_cons; cbn [subtasks newSubtask];
                          rewrite weight_nil, carries_set_subtasks; lia)
                   (y :: r) tasks ltac:(discriminate)).
    rewrite !list_sum_const in Hw.
    pose proof (resolve_at_most_one (y :: r) tasks H) as Hone.
    unfold carries at 3 in Hw. unfold has_id in Hw.
    change (id (newSubtask e payload)) with (uuid e) in Hw.
    destruct (String.eqb_spec (uuid e) x) as [<- | Hne]; nia.
  - (* TOGGLE_TODO *)
    pose proof (Hle (toggled e) [i]
                  ltac:(intros t; rewrite weight_toggled; lia)) as Hl.
    cbn [findTaskAndUpdate] in Hl. lia.
  - (* TOGGLE_NESTED_TASK *)
    pose proof (Hle (toggled e) idPath
                  ltac:(intros t; rewrite weight_toggled; lia)). lia.
  - (* DELETE_TODO *)
    pose proof (weight_filter (carries x)
                  (fun todo => negb (has_id i todo)) tasks). lia.
  - (* DELETE_NESTED_TASK *)
    destruct (removelast idPath) as [|y r].
    + pose proof (weight_filter (carries x)
                    (not_target (get idPath
                                   (Z.of_nat (List.length idPath) - 1)))
                    tasks). lia.
    + match goal with
      | |- (weight _ (findTaskAndUpdate _ _ ?g) <= 1)%nat =>
          pose proof (Hle g (y :: r)) as Hl
      end.
      cbv beta in Hl.
      specialize (Hl ltac:(intros t; rewrite !weight_cons, !weight_nil;
                            cbn [subtasks set_subtasks];
                            rewrite carries_set_subtasks;
                            pose proof (weight_filter (carries x)
                              (not_target (get idPath
                                 (Z.of_nat (List.length idPath) - 1)))
                              (subtasks t)); lia)).
      lia.
  - (* UPDATE_TODO *)
    cbn [keepsIdentifiers] in Hk.
    pose proof (Hle (fun t => merge t updates) [i]
                  ltac:(intros t; cbv beta; rewrite weight_merge by exact Hk; lia))
      as Hl.
    cbn [findTaskAndUpdate] in Hl. lia.
  - (* UPDATE_NESTED_TASK *)
    cbn [keepsIdentifiers] in Hk.
    pose proof (Hle (fun t => merge t updates) idPath
                  ltac:(intros t; cbv beta; rewrite weight_merge by exact Hk; lia)).
    lia.
  - (* CLEAR_COMPLETED *)
    fold (reduceTasks e tasks CLEAR_COMPLETED).
    rewrite reduceTasks_CLEAR_COMPLETED.
    pose proof (weight_clearNestedCompleted (carries x)
                  (carries_set_subtasks x) tasks). lia.
Qed.

(** X15. Identifiers stay distinct: when the identifiers of the forest are
    distinct and the generated identifier is new, they are distinct after
    every action, except an import and an update that sets the key [id] or
    [subtasks]. *)
Theorem unique_ids_kept (e : env) (r : nat) (tasks tasks' : forest)
        (a : action) (result : array) :
  NoDup (ids tasks) ->
  ~ In (uuid e) (ids tasks) ->
  keepsIdentifiers a = true ->
  todoReducer e (Some (mkArray r (map Some tasks))) a = Some result ->
  elems result = map Some tasks' ->
  NoDup (ids tasks').
Proof.
  intros Hnd Hfresh Hk Hred Helems.
  rewrite NoDup_ids in *. pose proof (not_in_ids_weight _ _ Hfresh) as Hu.
  destruct (readsEveryTask a) eqn:Hr.
  - assert (Hres : result =
                   mkArray (fresh e) (map Some (reduceTasks e tasks a))).
    { destruct a; try discriminate Hr; unfold todoReducer in Hred;
        cbn [elems] in Hred; rewrite tasks_of_map_Some in Hred;
        inversion Hred; reflexivity. }
    subst result. cbn [elems] in Helems. apply map_Some_inj in Helems.
    subst tasks'. apply weight_reduceTasks; assumption.
  - intros x. destruct a; try discriminate Hr; try discriminate Hk.
    + (* ADD_TODO *)
      inversion Hred; subst result. cbn [elems] in Helems.
      change (Some (newTodo e payload) :: map Some tasks)
        with (map Some (newTodo e payload :: tasks)) in Helems.
      apply map_Some_inj in Helems. subst tasks'.
      rewrite weight_cons. cbn [subtasks newTodo]. rewrite weight_nil.
      unfold carries at 1, has_id. change (id (newTodo e payload)) with (uuid e).
      destruct (String.eqb_spec (uuid e) x) as [<- | Hne];
        [lia | specialize (Hnd x); lia].
    + (* REORDER_TODOS *)
      destruct tasks as [|t0 rest].
      * inversion Hred; subst result. cbn [elems] in Helems.
        destruct tasks'; discriminate Helems.
      * destruct (reorderTodos_forest t0 rest dragId dropId)
          as (res & Hres & Hperm).
        unfold todoReducer in Hred. cbn [elems] in Hred. rewrite Hres in Hred.
        inversion Hred; subst result. cbn [elems] in Helems.
        apply map_Some_inj in Helems. subst tasks'.
        rewrite <- (weight_Permutation _ _ _ Hperm). apply Hnd.
    + inversion Hred; subst result. cbn [elems] in Helems.
      apply map_Some_inj in Helems. subst tasks'. apply Hnd.
    + inversion Hred; subst result. cbn [elems] in Helems.
      apply map_Some_inj in Helems. subst tasks'. apply Hnd.
    + inversion Hred; subst result. cbn [elems] in Helems.
      apply map_Some_inj in Helems. subst tasks'. apply Hnd.
Qed.

(* ================================================================= *)
(** ** The paths the components dispatch with *)

Lemma has_id_own (t : task) : has_id (id t) t = true.
Proof. apply String.eqb_refl. Qed.

Lemma nestedItemPaths_resolve (tasks : list task) :
  forall (t : task) (parentIdPath : path),
    parentIdPath <> [] ->
    In t (resolve tasks parentIdPath) ->
    forall p u,
      In (p, u) (flat_map (nestedItemPaths parentIdPath) (subtasks t)) ->
      In u (resolve tasks p).
Proof.
  induction t as [t Hsub] using task_nested_ind.
  intros parentIdPath Hne Ht p u Hin. rewrite Forall_forall in Hsub.
  apply in_flat_map in Hin. destruct Hin as (c & Hc & Hin).
  assert (Hcur : In c (resolve tasks (parentIdPath ++ [id c]))).
  { rewrite resolve_snoc by exact Hne. apply in_flat_map. exists t.
    split; [exact Ht|]. apply filter_In.
    split; [exact Hc | apply has_id_own]. }
  destruct c as [i tx cp ca dd sd pr re tg de subs] eqn:Ec.
  cbn [nestedItemPaths] in Hin. rewrite <- Ec in *. clear Ec.
  destruct Hin as [E | Hin].
  - inversion E; subst. exact Hcur.
  - apply (Hsub c Hc (parentIdPath ++ [id c])); try assumption.
    destruct parentIdPath; discriminate.
Qed.

(** X16. The paths of the components lead to their tasks: the identifier
    path a [NestedTaskItem] below a root task dispatches with leads to the
    task it shows, and with distinct identifiers to no other task. *)
Theorem item_paths_resolve (tasks : forest) (todo : task) (p : path)
        (t : task) :
  In todo tasks ->
  In (p, t) (todoItemPaths todo) ->
  In t (resolve tasks p) /\
  (NoDup (ids tasks) -> resolve tasks p = [t]).
Proof.
  intros Htodo Hin.
  assert (Ht : In t (resolve tasks p)).
  { apply (nestedItemPaths_resolve tasks todo [id todo]);
      [discriminate | | exact Hin].
    cbn [resolve]. apply filter_In. split; [exact Htodo | apply has_id_own]. }
  split; [exact Ht|]. intros Hnd. rewrite NoDup_ids in Hnd.
  pose proof (resolve_at_most_one p tasks Hnd) as Hlen.
  destruct (resolve tasks p) as [|u [|v l]].
  - contradiction.
  - destruct Ht as [-> | []]. reflexivity.
  - cbn [List.length] in Hlen. lia.
Qed.

(* ================================================================= *)
(** ** Where a reordered task lands *)

Lemma findIndexFrom_first (x : string) (l1 : list task) (t : task)
      (l2 : list task) :
  forallb (fun t => negb (has_id x t)) l1 = true ->
  has_id x t = true ->
  forall i,
    findIndexFrom i (map Some (l1 ++ t :: l2)) x =
    Some (i + Z.of_nat (List.length l1)).
Proof.
  intros Hl1 Ht. induction l1 as [|u l1 IH]; intros i.
  - cbn [app map findIndexFrom List.length]. rewrite Ht. f_equal. lia.
  - cbn [forallb] in Hl1. apply andb_true_iff in Hl1. destruct Hl1 as [Hu Hl1].
    apply negb_true_iff in Hu.
    cbn [app map findIndexFrom List.length]. rewrite Hu, (IH Hl1). f_equal. lia.
Qed.

Lemma nth_error_reinsert {A} (l : list A) (x : A) (p : nat) :
  (p <= List.length l)%nat ->
  nth_error (firstn p l ++ x :: skipn p l) p = Some x.
Proof.
  intros Hp. rewrite nth_error_app2; rewrite length_firstn, Nat.min_l by lia;
    [|lia].
  rewrite Nat.sub_diag. reflexivity.
Qed.

(** X17. The dragged task lands at the position of the drop target: when
    [t] is the first root task with the identifier [dragId] and the first
    root task with the identifier [dropId] is at position [j], the result of
    [REORDER_TODOS] has [t] at position [j] and the other root tasks in their
    order around it; dropping a task on itself leaves the order as it is. *)
Theorem reorder_lands_at_drop (e : env) (r : nat) (l1 l2 m1 m2 : list task)
        (t u : task) (dragId dropId : string) :
  l1 ++ t :: l2 = m1 ++ u :: m2 ->
  has_id dragId t = true ->
  forallb (fun t => negb (has_id dragId t)) l1 = true ->
  has_id dropId u = true ->
  forallb (fun t => negb (has_id dropId t)) m1 = true ->
  let j := List.length m1 in
  let result := firstn j (l1 ++ l2) ++ t :: skipn j (l1 ++ l2) in
  todoReducer e (Some (mkArray r (map Some (l1 ++ t :: l2))))
              (REORDER_TODOS dragId dropId) =
  Some (mkArray (fresh e) (map Some result)) /\
  nth_error result j = Some t /\
  (dragId = dropId -> result = l1 ++ t :: l2).
Proof.
  intros Hsplit Ht Hl1 Hu Hm1 j result.
  assert (Hlen : (j <= List.length (l1 ++ l2))%nat).
  { apply (f_equal (@List.length task)) in Hsplit.
    rewrite !length_app in *. cbn [List.length] in Hsplit. unfold j. lia. }
  pose proof (findIndexFrom_first dragId l1 t l2 Hl1 Ht 0) as Hdrag.
  pose proof (findIndexFrom_first dropId m1 u m2 Hm1 Hu 0) as Hdrop.
  rewrite <- Hsplit in Hdrop. rewrite Z.add_0_l in Hdrag, Hdrop.
  split; [|split].
  - pose proof (reorderTodos_tasks l1 t l2 dragId dropId
                  (Z.of_nat (List.length l1)) (Z.of_nat (List.length m1))
                  Hdrag Hdrop) as H.
    assert (Hrel : relativeIndex (Z.of_nat (List.length (l1 ++ t :: l2)))
                                 (Z.of_nat (List.length l1)) =
                   Z.of_nat (List.length l1)).
    { rewrite length_app. cbn [List.length]. unfold relativeIndex.
      destruct (Z.of_nat (List.length l1) <? 0) eqn:E; lia. }
    specialize (H Hrel). cbn zeta in H.
    replace (Z.to_nat (relativeIndex (Z.of_nat (List.length (l1 ++ l2)))
                                     (Z.of_nat (List.length m1))))
      with j in H.
    + unfold todoReducer. cbn [elems]. rewrite H. reflexivity.
    + unfold relativeIndex, j.
      destruct (Z.of_nat (List.length m1) <? 0) eqn:E; lia.
  - apply nth_error_reinsert, Hlen.
  - intros Heq. subst dropId. rewrite Hdrag in Hdrop.
    assert (Hj : j = List.length l1) by (unfold j; injection Hdrop; lia).
    unfold result. rewrite Hj.
    rewrite firstn_app, firstn_all, Nat.sub_diag, skipn_app, skipn_all,
      Nat.sub_diag.
    cbn [firstn skipn app]. rewrite app_nil_r. reflexivity.
Qed.

(* ================================================================= *)
(** ** The other sort orders *)

Lemma priority_le_trans (a b c : task) :
  priority_le a b -> priority_le b c -> priority_le a c.
Proof. unfold priority_le. lia. Qed.

Lemma priority_ge_trans (a b c : task) :
  priority_ge a b -> priority_ge b c -> priority_ge a c.
Proof. unfold priority_ge. lia. Qed.

Lemma newer_first_trans (a b c : task) :
  newer_first a b -> newer_first b c -> newer_first a c.
Proof. unfold newer_first. lia. Qed.

Lemma due_ge_trans (a b c : task) : due_ge a b -> due_ge b c -> due_ge a c.
Proof. unfold due_ge. intros H1 H2. exact (due_le_trans c b a H2 H1). Qed.

Lemma positive_minus (x y : Z) :
  (positive (minus (Num x) (Num y)) = false -> x <= y) /\
  (positive (minus (Num x) (Num y)) = true -> y <= x).
Proof.
  cbn [minus positive]. split; intros H.
  - apply Z.ltb_ge in H. lia.
  - apply Z.ltb_lt in H. lia.
Qed.

Lemma existsb_eqb (x : string) (l : list string) :
  existsb (String.eqb x) l = true <-> In x l.
Proof.
  rewrite existsb_exists. split.
  - intros (y & Hy & E). apply String.eqb_eq in E. subst y. exact Hy.
  - intros H. exists x. split; [exact H | apply String.eqb_refl].
Qed.

(** What the lookup in [priorityOrder] gives: not a number for the name of
    an inherited property, and the rank of the priority otherwise. *)
Lemma priorityOrder_cases (p : string) :
  priorityOrder p =
  if existsb (String.eqb p) inheritedKeys then NaN else Num (priorityRank p).
Proof.
  unfold priorityOrder, priorityRank.
  destruct (String.eqb_spec p "High") as [-> | _]; [reflexivity|].
  destruct (String.eqb_spec p "Medium") as [-> | _]; [reflexivity|].
  destruct (String.eqb_spec p "Low") as [-> | _]; [reflexivity|].
  destruct (existsb (String.eqb p) inheritedKeys); reflexivity.
Qed.

Lemma priorityOrder_plain (t : task) :
  plainPriority t -> priorityOrder (priority t) = Num (priorityRank (priority t)).
Proof.
  intros H. rewrite priorityOrder_cases.
  destruct (existsb (String.eqb (priority t)) inheritedKeys) eqn:E;
    [|reflexivity].
  apply existsb_eqb in E. contradiction.
Qed.

Lemma compareTodos_priority_asc (a b : task) :
  compareTodos "priority" "asc" a b =
  minus (priorityOrder (priority a)) (priorityOrder (priority b)).
Proof. reflexivity. Qed.

Lemma compareTodos_priority_desc (sortOrder : string) (a b : task) :
  sortOrder <> "asc"%string ->
  compareTodos "priority" sortOrder a b =
  minus (priorityOrder (priority b)) (priorityOrder (priority a)).
Proof.
  intros H. apply String.eqb_neq in H. unfold compareTodos.
  change (String.eqb "priority" "priority") with true. cbv iota zeta.
  rewrite H. reflexivity.
Qed.

Lemma compareTodos_dueDate_desc (sortOrder : string) (a b : task) :
  sortOrder <> "asc"%string ->
  compareTodos "dueDate" sortOrder a b = minus (dueVal b) (dueVal a).
Proof.
  intros H. apply String.eqb_neq in H. unfold compareTodos.
  change (String.eqb "dueDate" "priority") with false.
  change (String.eqb "dueDate" "dueDate") with true. cbv iota zeta.
  rewrite H. reflexivity.
Qed.

Lemma compareTodos_default (sortBy sortOrder : string) (a b : task) :
  sortBy <> "priority"%string -> sortBy <> "dueDate"%string ->
  compareTodos sortBy sortOrder a b =
  minus (Num (createdAt b)) (Num (createdAt a)).
Proof.
  intros H1 H2. apply String.eqb_neq in H1, H2. unfold compareTodos.
  rewrite H1, H2. reflexivity.
Qed.

Section SortedOn.

Context {A : Type}.
Variable cmp : A -> A -> number.
Variable le : A -> A -> Prop.
Variable P : A -> Prop.
Hypothesis le_trans : forall a b c, le a b -> le b c -> le a c.
Hypothesis cmp_le :
  forall a b, P a -> P b -> positive (cmp a b) = false -> le a b.
Hypothesis cmp_gt :
  forall a b, P a -> P b -> positive (cmp a b) = true -> le b a.

Lemma insert_sorted_on (x : A) (l : list A) :
  P x -> Forall P l -> StronglySorted le l ->
  StronglySorted le (insert cmp x l).
Proof.
  intros Hx Hl Hs. induction Hs as [|y l Hsl IH Hy]; cbn [insert].
  - constructor; constructor.
  - inversion Hl as [|? ? Py Pl]; subst.
    destruct (positive (cmp x y)) eqn:E.
    + constructor; [exact (IH Pl)|].
      rewrite <- insert_Permutation. constructor; [|exact Hy].
      apply cmp_gt; assumption.
    + constructor; [constructor; assumption|].
      constructor; [apply cmp_le; assumption|].
      eapply Forall_impl; [|exact Hy]. intros z Hz.
      eapply le_trans; [apply cmp_le; eassumption | exact Hz].
Qed.

Lemma sort_sorted_on (l : list A) :
  Forall P l -> StronglySorted le (sort cmp l).
Proof.
  induction l as [|x l IH]; intros Hl; cbn [sort fold_right]; [constructor|].
  inversion Hl as [|? ? Px Pl]; subst.
  apply insert_sorted_on; [exact Px | | exact (IH Pl)].
  apply (Permutation_Forall (sort_Permutation cmp l)), Pl.
Qed.

End SortedOn.

(** X18. Priority sort order: sorted by priority, the tasks that pass the
    filters are in non-decreasing order of priority when the sort order is
    ["asc"] and in non-increasing order for every other sort order, where
    High is above Medium, Medium above Low, and every other priority value
    below Low, provided that no priority of these tasks is the name of a
    property that [priorityOrder] inherits (for which the lookup is not a
    number). *)
Theorem priority_sort_order (todos : list task) (searchQuery : string)
        (filteredTag : option string) (statusFilter sortOrder : string) :
  Forall plainPriority
         (filterTodos todos searchQuery filteredTag statusFilter) ->
  let sorted := getFilteredAndSortedTodos todos searchQuery filteredTag
                                          statusFilter "priority" sortOrder in
  Permutation (filterTodos todos searchQuery filteredTag statusFilter) sorted /\
  (sortOrder = "asc"%string -> StronglySorted priority_le sorted) /\
  (sortOrder <> "asc"%string -> StronglySorted priority_ge sorted) /\
  (forall p, priorityOrder p =
             if existsb (String.eqb p) inheritedKeys then NaN
             else Num (priorityRank p)).
Proof.
  intros Hplain sorted. split; [apply sort_Permutation|].
  split; [|split; [|exact priorityOrder_cases]].
  - intros ->.
    apply (sort_sorted_on _ priority_le plainPriority priority_le_trans);
      [| |exact Hplain].
    + intros a b Ha Hb. rewrite compareTodos_priority_asc.
      rewrite !priorityOrder_plain by assumption. apply positive_minus.
    + intros a b Ha Hb. rewrite compareTodos_priority_asc.
      rewrite !priorityOrder_plain by assumption. apply positive_minus.
  - intros Hne.
    apply (sort_sorted_on _ priority_ge plainPriority priority_ge_trans);
      [| |exact Hplain].
    + intros a b Ha Hb. rewrite compareTodos_priority_desc by exact Hne.
      rewrite !priorityOrder_plain by assumption. apply positive_minus.
    + intros a b Ha Hb. rewrite compareTodos_priority_desc by exact Hne.
      rewrite !priorityOrder_plain by assumption. apply positive_minus.
Qed.

(** X19. Default sort order: for every sort key other than ["priority"]
    and ["dueDate"] the tasks that pass the filters are shown newest first,
    whatever the sort order is set to. *)
Theorem default_sort_order (todos : list task) (searchQuery : string)
        (filteredTag : option string) (statusFilter sortBy sortOrder : string) :
  sortBy <> "priority"%string -> sortBy <> "dueDate"%string ->
  let sorted := getFilteredAndSortedTodos todos searchQuery filteredTag
                                          statusFilter sortBy sortOrder in
  Permutation (filterTodos todos searchQuery filteredTag statusFilter) sorted /\
  StronglySorted newer_first sorted /\
  sorted = getFilteredAndSortedTodos todos searchQuery filteredTag
                                     statusFilter sortBy "asc".
Proof.
  intros H1 H2 sorted. split; [apply sort_Permutation|]. split.
  - apply (sort_sorted _ newer_first newer_first_trans).
    + intros a b. rewrite compareTodos_default by assumption.
      apply positive_minus.
    + intros a b. rewrite compareTodos_default by assumption.
      apply positive_minus.
  - unfold sorted, getFilteredAndSortedTodos. f_equal.
    unfold compareTodos. apply String.eqb_neq in H1, H2. rewrite H1, H2.
    reflexivity.
Qed.

(** X20. Descending due-date order: sorted by due date in an order other
    than ["asc"], the tasks without a due date come first and the dated
    tasks follow with the latest date first. *)
Theorem due_date_descending (todos : list task) (searchQuery : string)
        (filteredTag : option string) (statusFilter sortOrder : string) :
  sortOrder <> "asc"%string ->
  let sorted := getFilteredAndSortedTodos todos searchQuery filteredTag
                                          statusFilter "dueDate" sortOrder in
  Permutation (filterTodos todos searchQuery filteredTag statusFilter) sorted /\
  StronglySorted due_ge sorted /\
  (forall l1 a l2 b l3,
      sorted = l1 ++ a :: l2 ++ b :: l3 ->
      match dueDate a with
      | Some x => exists y, dueDate b = Some y /\ y <= x
      | None => True
      end).
Proof.
  intros Hne sorted.
  assert (Hsorted : StronglySorted due_ge sorted).
  { apply (sort_sorted _ due_ge due_ge_trans).
    - intros a b. rewrite compareTodos_dueDate_desc by exact Hne.
      unfold due_ge, due_le, dueVal, newDate, msPerDay.
      destruct (dueDate a), (dueDate b); cbn; try discriminate; try tauto.
      intros H. apply Z.ltb_ge in H. lia.
    - intros a b. rewrite compareTodos_dueDate_desc by exact Hne.
      unfold due_ge, due_le, dueVal, newDate, msPerDay.
      destruct (dueDate a), (dueDate b); cbn; try discriminate; try tauto.
      intros H. apply Z.ltb_lt in H. lia. }
  split; [apply sort_Permutation|]. split; [exact Hsorted|].
  intros l1 a l2 b l3 E. rewrite E in Hsorted.
  apply StronglySorted_suffix in Hsorted. apply StronglySorted_inv in Hsorted.
  destruct Hsorted as [_ H]. rewrite Forall_forall in H.
  specialize (H b (in_elt b l2 l3)).
  unfold due_ge, due_le in H. destruct (dueDate a), (dueDate b); try tauto.
  eexists; split; [reflexivity | exact H].
Qed.

(* ================================================================= *)
(** ** The filters *)

Lemma includes_empty (s : string) : includes s EmptyString = true.
Proof. destruct s; reflexivity. Qed.

Lemma filter_all {A} (f : A -> bool) (l : list A) :
  (forall x, In x l -> f x = true) -> filter f l = l.
Proof.
  induction l as [|x l IH]; intros H; [reflexivity|].
  cbn [filter]. rewrite (H x (or_introl eq_refl)), IH; [reflexivity|].
  intros y Hy. apply H. right. exact Hy.
Qed.

Lemma filter_split {A} (f : A -> bool) (l : list A) :
  Permutation (filter (fun x => negb (f x)) l ++ filter f l) l.
Proof.
  induction l as [|x l IH]; [reflexivity|].
  cbn [filter]. destruct (f x); cbn [negb app].
  - rewrite <- Permutation_middle. apply perm_skip, IH.
  - apply perm_skip, IH.
Qed.

Lemma filterTodos_status (todos : list task) (searchQuery : string)
      (filteredTag : option string) (statusFilter : string) :
  statusFilter <> "active"%string -> statusFilter <> "completed"%string ->
  filterTodos todos searchQuery filteredTag "active" =
  filter (fun todo => negb (completed todo))
         (filterTodos todos searchQuery filteredTag statusFilter) /\
  filterTodos todos searchQuery filteredTag "completed" =
  filter (fun todo => completed todo)
         (filterTodos todos searchQuery filteredTag statusFilter).
Proof.
  intros H1 H2. apply String.eqb_neq in H1, H2.
  unfold filterTodos. rewrite H1, H2. split; reflexivity.
Qed.

(** X21. The status filter splits the list: for every search query and
    tag, the active and the completed tasks shown are together the tasks
    shown under a status filter that is neither ["active"] nor
    ["completed"], no task is shown under both, and with an empty search
    query and no tag such a filter shows every root task. *)
Theorem status_filter_splits (todos : list task) (searchQuery : string)
        (filteredTag : option string) (statusFilter : string) :
  statusFilter <> "active"%string -> statusFilter <> "completed"%string ->
  let shown st := filterTodos todos searchQuery filteredTag st in
  Permutation (shown "active"%string ++ shown "completed"%string)
              (shown statusFilter) /\
  (forall t, In t (shown "active"%string) ->
             ~ In t (shown "completed"%string)) /\
  filterTodos todos EmptyString None statusFilter = todos.
Proof.
  intros H1 H2 shown.
  destruct (filterTodos_status todos searchQuery filteredTag statusFilter
              H1 H2) as [Ha Hc].
  unfold shown. rewrite Ha, Hc. split; [apply filter_split|]. split.
  - intros t Hact Hdone. apply filter_In in Hact, Hdone.
    destruct Hact as [_ Hact], Hdone as [_ Hdone].
    rewrite Hdone in Hact. discriminate.
  - apply String.eqb_neq in H1, H2. unfold filterTodos. rewrite H1, H2.
    apply filter_all. intros t _. cbn [toLowerCase].
    rewrite includes_empty. reflexivity.
Qed.

(* ================================================================= *)
(** ** The board columns *)

Lemma filterReading_overdue (clock : nat -> Z) (todos : list task) :
  forall n,
    (n <= snd (filterReading (overdueCallback clock) n todos))%nat /\
    forall t,
      In t (fst (filterReading (overdueCallback clock) n todos)) ->
      In t todos /\ completed t = false /\
      exists d m,
        dueDate t = Some d /\
        (n <= m < snd (filterReading (overdueCallback clock) n todos))%nat /\
        newDate d < clock m.
Proof.
  induction todos as [|u l IH]; intros n.
  - cbn. split; [lia | contradiction].
  - cbn [filterReading]. unfold overdueCallback at 1 3 5.
    destruct (dueDate u) as [d|] eqn:Ed; [destruct (completed u) eqn:Ec|];
      cbn [negb].
    + destruct (IH n) as [Hn Hin].
      destruct (filterReading (overdueCallback clock) n l) as [kept n2].
      cbn [fst snd] in *. split; [exact Hn|]. intros t Ht.
      destruct (Hin t Ht) as (H1 & H2 & H3). split; [right; exact H1|].
      split; assumption.
    + destruct (IH (S n)) as [Hn Hin].
      destruct (filterReading (overdueCallback clock) (S n) l) as [kept n2].
      cbn [fst snd] in *. split; [lia|]. intros t Ht.
      assert (Hcase : (t = u /\ newDate d < clock n) \/ In t kept).
      { destruct (Z.ltb_spec (newDate d) (clock n)) as [Hlt|Hge].
        - destruct Ht as [<- | Ht]; [left; split; [reflexivity | exact Hlt]|].
          right. exact Ht.
        - right. exact Ht. }
      destruct Hcase as [[-> Hlt] | Hk].
      * split; [left; reflexivity|]. split; [exact Ec|].
        exists d, n. split; [exact Ed|]. split; [lia | exact Hlt].
      * destruct (Hin t Hk) as (H1 & H2 & d' & m & H3 & H4 & H5).
        split; [right; exact H1|]. split; [exact H2|].
        exists d', m. split; [exact H3|]. split; [lia | exact H5].
    + destruct (IH n) as [Hn Hin].
      destruct (filterReading (overdueCallback clock) n l) as [kept n2].
      cbn [fst snd] in *. split; [exact Hn|]. intros t Ht.
      destruct (Hin t Ht) as (H1 & H2 & H3). split; [right; exact H1|].
      split; assumption.
Qed.

Lemma filterReading_upcoming (clock : nat -> Z) (todos : list task) :
  forall n t,
    In t (fst (filterReading (upcomingCallback clock) n todos)) ->
    In t todos /\ completed t = false /\
    exists d m, dueDate t = Some d /\ (n <= m)%nat /\ clock m <= newDate d.
Proof.
  induction todos as [|u l IH]; intros n t.
  - cbn. contradiction.
  - cbn [filterReading]. unfold upcomingCallback at 1.
    destruct (dueDate u) as [d|] eqn:Ed; [destruct (completed u) eqn:Ec|];
      cbn [negb].
    + specialize (IH n t).
      destruct (filterReading (upcomingCallback clock) n l) as [kept n2].
      cbn [fst] in *. intros Ht.
      destruct (IH Ht) as (H1 & H2 & H3). split; [right; exact H1|].
      split; assumption.
    + specialize (IH (S n) t).
      destruct (filterReading (upcomingCallback clock) (S n) l) as [kept n2].
      cbn [fst] in *. intros Ht.
      assert (Hcase : (t = u /\ clock n <= newDate d) \/ In t kept).
      { destruct (Z.leb_spec (clock n) (newDate d)) as [Hle|Hgt].
        - destruct Ht as [<- | Ht]; [left; split; [reflexivity | exact Hle]|].
          right. exact Ht.
        - right. exact Ht. }
      destruct Hcase as [[-> Hle] | Hk].
      * split; [left; reflexivity|]. split; [exact Ec|].
        exists d, n. split; [exact Ed|]. split; [lia | exact Hle].
      * destruct (IH Hk) as (H1 & H2 & d' & m & H3 & H4 & H5).
        split; [right; exact H1|]. split; [exact H2|].
        exists d', m. split; [exact H3|]. split; [lia | exact H5].
    + specialize (IH n t).
      destruct (filterReading (upcomingCallback clock) n l) as [kept n2].
      cbn [fst] in *. intros Ht.
      destruct (IH Ht) as (H1 & H2 & H3). split; [right; exact H1|].
      split; assumption.
Qed.

(** With a clock that stands still a filter that reads it is a filter. *)
Lemma filterReading_still (clock : nat -> Z)
      (callback : (nat -> Z) -> task -> nat -> bool * nat) (todos : list task) :
  (forall t n m, fst (callback clock t n) = fst (callback clock t m)) ->
  forall n,
    fst (filterReading (callback clock) n todos) =
    filter (fun t => fst (callback clock t 0%nat)) todos.
Proof.
  intros Hstill. induction todos as [|u l IH]; intros n; [reflexivity|].
  cbn [filterReading filter].
  rewrite <- (Hstill u n 0%nat). destruct (callback clock u n) as [keep n1].
  specialize (IH n1).
  destruct (filterReading (callback clock) n1 l) as [kept n2].
  cbn [fst] in *. rewrite <- IH. reflexivity.
Qed.

Lemma getKanbanColumns_fields (clock : nat -> Z) (n : nat)
      (todos : list task) :
  let o := filterReading (overdueCallback clock) n todos in
  overdue (getKanbanColumns clock n todos) = fst o /\
  upcoming (getKanbanColumns clock n todos) =
  fst (filterReading (upcomingCallback clock) (snd o) todos) /\
  completedColumn (getKanbanColumns clock n todos) =
  filter (fun t => completed t) todos.
Proof.
  cbn zeta. unfold getKanbanColumns.
  destruct (filterReading (overdueCallback clock) n todos) as [o n1].
  cbn [fst snd].
  destruct (filterReading (upcomingCallback clock) n1 todos) as [u n2].
  repeat split.
Qed.

(** X22. No task is in two columns of the board: with a clock that does
    not run backwards, an overdue task is not upcoming, and a task of the
    completed column is in neither of the other two; a task without a due
    date that is not completed is in no column. *)
Theorem kanban_columns_disjoint (clock : nat -> Z) (n : nat)
        (todos : list task) (t : task) :
  monotone clock ->
  let board := getKanbanColumns clock n todos in
  (In t (overdue board) -> ~ In t (upcoming board)) /\
  (In t (completedColumn board) ->
   ~ In t (overdue board) /\ ~ In t (upcoming board)) /\
  (dueDate t = None -> completed t = false ->
   ~ In t (overdue board) /\ ~ In t (upcoming board) /\
   ~ In t (completedColumn board)).
Proof.
  intros Hmono board.
  destruct (getKanbanColumns_fields clock n todos) as (Ho & Hu & Hc).
  fold board in Ho, Hu, Hc. rewrite Ho, Hu, Hc.
  destruct (filterReading_overdue clock todos n) as [_ Hover].
  pose proof (filterReading_upcoming clock todos
                (snd (filterReading (overdueCallback clock) n todos)) t)
    as Hup.
  split; [|split].
  - intros Hin1 Hin2.
    destruct (Hover t Hin1) as (_ & _ & d & m & Hd & Hm & Hlt).
    destruct (Hup Hin2) as (_ & _ & d' & m' & Hd' & Hm' & Hle).
    rewrite Hd in Hd'. injection Hd' as <-.
    pose proof (Hmono m m' ltac:(lia)). lia.
  - intros Hin. apply filter_In in Hin. destruct Hin as [_ Hdone].
    split; intros Hin.
    + destruct (Hover t Hin) as (_ & Hact & _). congruence.
    + destruct (Hup Hin) as (_ & Hact & _). congruence.
  - intros Hnone Hact. split; [|split]; intros Hin.
    + destruct (Hover t Hin) as (_ & _ & d & m & Hd & _). congruence.
    + destruct (Hup Hin) as (_ & _ & d & m & Hd & _). congruence.
    + apply filter_In in Hin. destruct Hin as [_ Hdone]. congruence.
Qed.

Lemma Permutation_three_filters {A} (f g h : A -> bool) (l : list A) :
  (forall x, In x l ->
             (f x = true -> g x = false /\ h x = false) /\
             (g x = true -> h x = false)) ->
  Permutation (filter f l ++ filter g l ++ filter h l)
              (filter (fun x => f x || g x || h x) l).
Proof.
  induction l as [|x l IH]; intros H; [reflexivity|].
  assert (IH' := IH (fun y Hy => H y (or_intror Hy))).
  destruct (H x (or_introl eq_refl)) as [Hf Hg].
  cbn [filter]. destruct (f x) eqn:Ef.
  - destruct (Hf eq_refl) as [-> ->]. cbn [orb app].
    apply perm_skip, IH'.
  - destruct (g x) eqn:Eg.
    + rewrite (Hg eq_refl). cbn [orb app].
      rewrite <- Permutation_middle. apply perm_skip, IH'.
    + destruct (h x) eqn:Eh; cbn [orb app]; [|exact IH'].
      rewrite app_assoc, <- Permutation_middle, <- app_assoc.
      apply perm_skip, IH'.
Qed.

(** X23. With a clock that stands still while the board is computed, the
    three columns together are the root tasks that are completed or have a
    due date, each of them once: an active task with a due date is overdue
    when its date is before the time of the clock and upcoming otherwise. *)
Theorem kanban_columns_cover (clock : nat -> Z) (now : Z) (n : nat)
        (todos : list task) :
  (forall i, clock i = now) ->
  let board := getKanbanColumns clock n todos in
  let dated (t : task) :=
    match dueDate t with Some _ => true | None => false end in
  Permutation (overdue board ++ upcoming board ++ completedColumn board)
              (filter (fun t => completed t || dated t) todos) /\
  overdue board =
  filter (fun t => match dueDate t with
                   | Some d => negb (completed t) && (newDate d <? now)
                   | None => false
                   end) todos /\
  upcoming board =
  filter (fun t => match dueDate t with
                   | Some d => negb (completed t) && (now <=? newDate d)
                   | None => false
                   end) todos.
Proof.
  intros Hstill board dated.
  destruct (getKanbanColumns_fields clock n todos) as (Ho & Hu & Hc).
  fold board in Ho, Hu, Hc.
  assert (Ho' : overdue board =
                filter (fun t => match dueDate t with
                                 | Some d => negb (completed t) &&
                                             (newDate d <? now)
                                 | None => false
                                 end) todos).
  { rewrite Ho, (filterReading_still clock overdueCallback).
    - apply filter_ext. intros t. unfold overdueCallback.
      rewrite Hstill. destruct (dueDate t), (completed t); reflexivity.
    - intros t i j. unfold overdueCallback. rewrite !Hstill.
      destruct (dueDate t), (completed t); reflexivity. }
  assert (Hu' : upcoming board =
                filter (fun t => match dueDate t with
                                 | Some d => negb (completed t) &&
                                             (now <=? newDate d)
                                 | None => false
                                 end) todos).
  { rewrite Hu, (filterReading_still clock upcomingCallback).
    - apply filter_ext. intros t. unfold upcomingCallback.
      rewrite Hstill. destruct (dueDate t), (completed t); reflexivity.
    - intros t i j. unfold upcomingCallback. rewrite !Hstill.
      destruct (dueDate t), (completed t); reflexivity. }
  split; [|split; assumption].
  rewrite Ho', Hu', Hc. rewrite Permutation_three_filters.
  - apply Permutation_refl'. apply filter_ext. intros t. unfold dated.
    destruct (dueDate t) as [d|], (completed t); cbn [negb andb orb];
      try reflexivity.
    destruct (Z.ltb_spec (newDate d) now), (Z.leb_spec now (newDate d));
      try reflexivity; lia.
  - intros t _. destruct (dueDate t) as [d|], (completed t);
      cbn [negb andb]; split; intros H; try discriminate H;
      try (split; reflexivity); try reflexivity.
    split; [|reflexivity]. apply Z.ltb_lt in H. apply Z.leb_gt. exact H.
Qed.

(* ================================================================= *)
(** ** The tasks the hourly check notifies of *)

(** X24. The hourly check notifies of the active root tasks that are due on
    the day after the current day (in UTC), and of no others: a task due on
    the current day is already past its due time, the start of that day, and
    is not notified of. *)
Theorem notified_due_next_day (now : Z) (todos : list task) :
  upcomingTasks now todos =
  filter (fun todo =>
            negb (completed todo) &&
            match dueDate todo with
            | Some d => d =? Day now + 1
            | None => false
            end)
         todos.
Proof.
  unfold upcomingTasks. apply filter_ext. intros t.
  destruct (dueDate t) as [d|], (completed t); cbn [negb andb];
    try reflexivity.
  cbv zeta. change (24 * 60 * 60 * 1000) with 86400000.
  unfold newDate, Day, msPerDay.
  destruct (Z.ltb_spec 0 (d * 86400000 - now)),
    (Z.leb_spec (d * 86400000 - now) 86400000),
    (Z.eqb_spec d (now / 86400000 + 1));
    cbn [andb]; try reflexivity; exfalso;
    Z.div_mod_to_equations; lia.
Qed.

(* ================================================================= *)
(** ** The tag bar *)

Lemma setOf_In (xs : list string) :
  forall seen x, In x (setOf seen xs) <-> In x xs /\ ~ In x seen.
Proof.
  induction xs as [|y rest IH]; intros seen x; cbn [setOf].
  - cbn. tauto.
  - destruct (existsb (String.eqb y) seen) eqn:E.
    + apply existsb_eqb in E. rewrite IH. cbn [In]. split.
      * intros [H1 H2]. split; [right; exact H1 | exact H2].
      * intros [[-> | H1] H2]; [contradiction | split; assumption].
    + assert (Hy : ~ In y seen).
      { intros H. apply existsb_eqb in H. congruence. }
      cbn [In]. rewrite IH. cbn [In].
      destruct (string_dec y x) as [-> | Hne]; [tauto|]. tauto.
Qed.

Lemma setOf_NoDup (xs : list string) : forall seen, NoDup (setOf seen xs).
Proof.
  induction xs as [|y rest IH]; intros seen; cbn [setOf]; [constructor|].
  destruct (existsb (String.eqb y) seen); [apply IH|].
  constructor; [|apply IH].
  rewrite setOf_In. cbn [In]. tauto.
Qed.

(** X25. The tag bar shows each tag once: its tags are pairwise distinct,
    they are the non-empty tags of the root tasks, and filtering by one of
    them (with an empty search query and a status filter that is neither
    ["active"] nor ["completed"]) shows at least one task. *)
Theorem tag_bar_tags (todos : list task) :
  NoDup (tagBar todos) /\
  (forall x, In x (tagBar todos) <->
             x <> EmptyString /\
             exists todo, In todo todos /\ In x (tags todo)) /\
  (forall x statusFilter,
      In x (tagBar todos) ->
      statusFilter <> "active"%string ->
      statusFilter <> "completed"%string ->
      exists todo,
        In todo (filterTodos todos EmptyString (Some x) statusFilter) /\
        In x (tags todo)).
Proof.
  assert (Hin : forall x, In x (tagBar todos) <->
                          x <> EmptyString /\
                          exists todo, In todo todos /\ In x (tags todo)).
  { intros x. unfold tagBar. rewrite setOf_In, filter_In, in_flat_map.
    cbn [In]. rewrite negb_true_iff, String.eqb_neq. tauto. }
  split; [apply setOf_NoDup|]. split; [exact Hin|].
  intros x statusFilter Hx H1 H2. apply Hin in Hx.
  destruct Hx as (_ & todo & Htodo & Htag).
  exists todo. split; [|exact Htag].
  apply String.eqb_neq in H1, H2. unfold filterTodos. rewrite H1, H2.
  apply filter_In. split.
  - apply filter_In. split; [exact Htodo|]. cbn [toLowerCase].
    rewrite includes_empty. reflexivity.
  - apply existsb_eqb. exact Htag.
Qed.

(* ================================================================= *)
(** ** The progress counters *)

Lemma countTasks_eq (t : task) (c : counters) :
  countTasks t c =
  fold_left (fun acc s => countTasks s acc) (subtasks t)
            (mkCounters (totalTasks c + 1)
                        (if completed t then completedTasks c + 1
                         else completedTasks c)).
Proof. destruct t; reflexivity. Qed.

Lemma countTasks_fold (l : list task) :
  Forall (fun t => forall c,
              countTasks t c =
              mkCounters
                (totalTasks c + Z.of_nat (List.length (nodes_of t)))
                (completedTasks c +
                 Z.of_nat (List.length
                             (filter (fun n => completed n) (nodes_of t)))))
         l ->
  forall c,
    fold_left (fun acc s => countTasks s acc) l c =
    mkCounters
      (totalTasks c + Z.of_nat (List.length (nodes l)))
      (completedTasks c +
       Z.of_nat (List.length (filter (fun n => completed n) (nodes l)))).
Proof.
  unfold nodes. induction 1 as [|t l Ht _ IH]; intros c.
  - cbn. destruct c. cbn. f_equal; lia.
  - cbn [fold_left flat_map]. rewrite IH, Ht. cbn [totalTasks completedTasks].
    rewrite filter_app, !length_app. f_equal; lia.
Qed.

Lemma countTasks_nodes (t : task) :
  forall c,
    countTasks t c =
    mkCounters
      (totalTasks c + Z.of_nat (List.length (nodes_of t)))
      (completedTasks c +
       Z.of_nat (List.length (filter (fun n => completed n) (nodes_of t)))).
Proof.
  induction t as [t Hsub] using task_nested_ind. intros c.
  rewrite countTasks_eq, (countTasks_fold _ Hsub), nodes_of_eq.
  cbn [totalTasks completedTasks filter List.length]. unfold nodes.
  destruct (completed t); cbn [List.length]; f_equal; lia.
Qed.

Lemma progressCounters_nodes (tasks : list task) :
  progressCounters tasks =
  mkCounters
    (Z.of_nat (List.length (nodes tasks)))
    (Z.of_nat (List.length (filter (fun n => completed n) (nodes tasks)))).
Proof.
  unfold progressCounters. rewrite countTasks_fold.
  - reflexivity.
  - apply Forall_forall. intros t _. apply countTasks_nodes.
Qed.

(** X26. The progress counters count the nodes: after its traversal
    [getProgress] holds the number of nodes of the forest in [totalTasks]
    and the number of completed nodes in [completedTasks], at every depth;
    so the second is between 0 and the first. *)
Theorem progress_counts_nodes (tasks : list task) :
  let c := progressCounters tasks in
  totalTasks c = Z.of_nat (List.length (nodes tasks)) /\
  completedTasks c =
  Z.of_nat (List.length (filter (fun n => completed n) (nodes tasks))) /\
  0 <= completedTasks c <= totalTasks c.
Proof.
  cbn zeta. rewrite progressCounters_nodes. cbn [totalTasks completedTasks].
  split; [reflexivity|]. split; [reflexivity|].
  pose proof (filter_length_le (fun n => completed n) (nodes tasks)). lia.
Qed.

(** X27. Progress after a toggle: when a task has been toggled, the
    progress counters of its subtasks show all of them completed if the task
    became completed and none of them if it became active, and as many
    subtasks as before. *)
Theorem progress_after_toggle (e : env) (t : task) :
  let c := progressCounters (subtasks (toggled e t)) in
  totalTasks c = totalTasks (progressCounters (subtasks t)) /\
  completedTasks c = if completed (toggled e t) then totalTasks c else 0.
Proof.
  cbn zeta.
  assert (Hsub : subtasks (toggled e t) =
                 toggleAllNestedTasks (subtasks t) (negb (completed t)))
    by reflexivity.
  assert (Hc : completed (toggled e t) = negb (completed t)) by reflexivity.
  rewrite Hsub, Hc, !progressCounters_nodes. cbn [totalTasks completedTasks].
  pose proof (toggleAllNestedTasks_all (negb (completed t)) (subtasks t))
    as Hall.
  rewrite Forall_forall in Hall. split.
  - rewrite <- (length_map label), toggleAllNestedTasks_labels, length_map.
    reflexivity.
  - destruct (negb (completed t)).
    + rewrite filter_all by exact Hall. reflexivity.
    + rewrite filter_none by exact Hall. reflexivity.
Qed.

(* ================================================================= *)
(** ** The next occurrence: how far it is *)

(** X28. The next occurrence is near and stable, in a time zone with a
    constant offset from UTC: the date the recurrence calculator returns is
    not before the start date and, read as a date, not before the current
    time; for a start date in the past it is less than one period (1, 7 or
    at most 31 days) after the current time; and the calculator returns it
    unchanged when it is given its own result at the same time. *)
Theorem next_occurrence_window (tz : timeZone) (tza now s : Z) (r : period) :
  constantOffset tz tza ->
  exists d,
    getNextRecurrenceDate tz now (Some s) (Some r) = Some d /\
    s <= d /\ now <= newDate d /\
    (newDate s < now -> newDate d < now + periodDays r * msPerDay) /\
    getNextRecurrenceDate tz now (Some d) (Some r) = Some d.
Proof.
  intros Hc.
  destruct (getNextRecurrenceDate_first tz tza now s r Hc)
    as (k & n & _ & Hget & Hn & Hres & Hnow & Hfirst & Hlast).
  cbn zeta in *. rewrite Hres in Hnow.
  exists (s + n). split; [exact Hget|]. split; [lia|].
  split; [exact Hnow|]. split.
  - intros Hpast. destruct k as [|k].
    + cbn [advanced] in Hres. unfold newDate in *. lia.
    + destruct (Hlast ltac:(discriminate)) as (m & Hm & E).
      cbn [Nat.pred] in E. specialize (Hfirst k (Nat.lt_succ_diag_r k)).
      rewrite <- Hres, E. unfold msPerDay in *. nia.
  - apply getNextRecurrenceDate_future, Hnow.
Qed.


(* ================================================================= *)
(** ** Instances of the properties *)

(** After one added task: undo, then redo. *)
Lemma undo_then_redo_witness :
  reachable isUNDO isREDO same_array todoReducer
            (mkHistory [sampleS0; sampleS1] 1) /\
  canUndo (mkHistory [sampleS0; sampleS1] 1) = true /\
  exists mid,
    todoUndoable (sampleEnv 2 "id-2") (mkHistory [sampleS0; sampleS1] 1) UNDO =
    Some mid /\
    historyIndex mid = 1 - 1 /\
    todoUndoable (sampleEnv 3 "id-3") mid REDO =
    Some (mkHistory [sampleS0; sampleS1] 1).
Proof.
  assert (H : reachable isUNDO isREDO same_array todoReducer
                        (mkHistory [sampleS0; sampleS1] 1)).
  { eapply reachable_step
      with (e := sampleEnv 1 "id-1") (action := ADD_TODO sampleFields).
    - apply (reachable_start isUNDO isREDO same_array todoReducer sampleS0).
    - reflexivity. }
  split; [exact H|]. split; [reflexivity|].
  exact (undo_then_redo isUNDO isREDO same_array todoReducer
           (mkHistory [sampleS0; sampleS1] 1)
           (sampleEnv 2 "id-2") (sampleEnv 3 "id-3") UNDO REDO
           H eq_refl eq_refl eq_refl eq_refl).
Defined.

(** After one added task and its undo: redo, then undo. *)
Lemma redo_then_undo_witness :
  reachable isUNDO isREDO same_array todoReducer
            (mkHistory [sampleS0; sampleS1] 0) /\
  canRedo (mkHistory [sampleS0; sampleS1] 0) = true /\
  exists mid,
    todoUndoable (sampleEnv 3 "id-3") (mkHistory [sampleS0; sampleS1] 0) REDO =
    Some mid /\
    historyIndex mid = 0 + 1 /\
    todoUndoable (sampleEnv 2 "id-2") mid UNDO =
    Some (mkHistory [sampleS0; sampleS1] 0).
Proof.
  assert (H : reachable isUNDO isREDO same_array todoReducer
                        (mkHistory [sampleS0; sampleS1] 0)).
  { eapply reachable_step with (e := sampleEnv 2 "id-2") (action := UNDO).
    - eapply reachable_step
        with (e := sampleEnv 1 "id-1") (action := ADD_TODO sampleFields).
      + apply (reachable_start isUNDO isREDO same_array todoReducer sampleS0).
      + reflexivity.
    - reflexivity. }
  split; [exact H|]. split; [reflexivity|].
  exact (redo_then_undo isUNDO isREDO same_array todoReducer
           (mkHistory [sampleS0; sampleS1] 0)
           (sampleEnv 2 "id-2") (sampleEnv 3 "id-3") UNDO REDO
           H eq_refl eq_refl eq_refl eq_refl).
Defined.

(** At the end of the history undo is possible and redo is not. *)
Lemma flags_decide_witness :
  reachable isUNDO isREDO same_array todoReducer
            (mkHistory [sampleS0; sampleS1] 1) /\
  canRedo (mkHistory [sampleS0; sampleS1] 1) = false /\
  todoUndoable (sampleEnv 2 "id-2") (mkHistory [sampleS0; sampleS1] 1) REDO =
  Some (mkHistory [sampleS0; sampleS1] 1).
Proof.
  assert (H : reachable isUNDO isREDO same_array todoReducer
                        (mkHistory [sampleS0; sampleS1] 1)).
  { eapply reachable_step
      with (e := sampleEnv 1 "id-1") (action := ADD_TODO sampleFields).
    - apply (reachable_start isUNDO isREDO same_array todoReducer sampleS0).
    - reflexivity. }
  split; [exact H|]. split; [reflexivity|].
  exact (proj2 (proj2 (flags_decide isUNDO isREDO same_array todoReducer
                         (mkHistory [sampleS0; sampleS1] 1)
                         (sampleEnv 2 "id-2") UNDO REDO
                         H eq_refl eq_refl eq_refl))
               eq_refl).
Defined.

(** A task added after an undo takes the place of the undone one. *)
Lemma action_drops_future_witness :
  reachable isUNDO isREDO same_array todoReducer
            (mkHistory [sampleS0; sampleS1] 0) /\
  present (mkHistory [sampleS0; sampleS1] 0) = Some sampleS0 /\
  todoReducer (sampleEnv 2 "id-2") (Some sampleS0) (ADD_TODO sampleFields) =
  Some (mkArray 2 [Some (newTodo (sampleEnv 2 "id-2") sampleFields)]) /\
  same_array (mkArray 2 [Some (newTodo (sampleEnv 2 "id-2") sampleFields)])
             sampleS0 = false /\
  exists state',
    todoUndoable (sampleEnv 2 "id-2") (mkHistory [sampleS0; sampleS1] 0)
                 (ADD_TODO sampleFields) = Some state' /\
    history state' =
    [sampleS0; mkArray 2 [Some (newTodo (sampleEnv 2 "id-2") sampleFields)]] /\
    canRedo state' = false /\ canUndo state' = true.
Proof.
  assert (H : reachable isUNDO isREDO same_array todoReducer
                        (mkHistory [sampleS0; sampleS1] 0)).
  { eapply reachable_step with (e := sampleEnv 2 "id-2") (action := UNDO).
    - eapply reachable_step
        with (e := sampleEnv 1 "id-1") (action := ADD_TODO sampleFields).
      + apply (reachable_start isUNDO isREDO same_array todoReducer sampleS0).
      + reflexivity.
    - reflexivity. }
  split; [exact H|]. do 3 (split; [reflexivity|]).
  destruct (action_drops_future isUNDO isREDO same_array todoReducer
              (mkHistory [sampleS0; sampleS1] 0) (sampleEnv 2 "id-2")
              (ADD_TODO sampleFields) sampleS0
              (mkArray 2 [Some (newTodo (sampleEnv 2 "id-2") sampleFields)])
              H eq_refl eq_refl eq_refl eq_refl eq_refl)
    as (state' & Hstep & Hhist & _ & _ & Hredo & Hundo).
  exists state'. split; [exact Hstep|]. split; [exact Hhist|].
  split; [exact Hredo | exact Hundo].
Defined.

(** Adding the first task, undoing and redoing it. *)
Lemma undo_reverts_action_witness :
  reachable isUNDO isREDO same_array todoReducer (startState sampleS0) /\
  present (startState sampleS0) = Some sampleS0 /\
  todoReducer (sampleEnv 1 "id-1") (Some sampleS0) (ADD_TODO sampleFields) =
  Some sampleS1 /\
  same_array sampleS1 sampleS0 = false /\
  exists state' undone redone,
    todoUndoable (sampleEnv 1 "id-1") (startState sampleS0)
                 (ADD_TODO sampleFields) = Some state' /\
    todoUndoable (sampleEnv 2 "id-2") state' UNDO = Some undone /\
    present undone = Some sampleS0 /\
    todoUndoable (sampleEnv 3 "id-3") undone REDO = Some redone /\
    present redone = Some sampleS1 /\
    redone = state'.
Proof.
  assert (H : reachable isUNDO isREDO same_array todoReducer
                        (startState sampleS0))
    by apply reachable_start.
  split; [exact H|]. do 3 (split; [reflexivity|]).
  exact (undo_reverts_action isUNDO isREDO same_array todoReducer
           (startState sampleS0) (sampleEnv 1 "id-1") (sampleEnv 2 "id-2")
           (sampleEnv 3 "id-3") (ADD_TODO sampleFields) UNDO REDO
           sampleS0 sampleS1
           H eq_refl eq_refl eq_refl eq_refl eq_refl eq_refl eq_refl eq_refl).
Defined.

(** A new text and then a new priority, or both at once. *)
Lemma updates_compose_witness :
  (forall t, id (merge t [u_text "x"]) = id t) /\
  reduceTasks (sampleEnv 2 "id-2")
    (reduceTasks (sampleEnv 1 "id-1") [sampleTask "a" false []]
                 (UPDATE_NESTED_TASK ["a"%string] [u_text "x"]))
    (UPDATE_NESTED_TASK ["a"%string] [u_priority "High"]) =
  reduceTasks (sampleEnv 3 "id-3") [sampleTask "a" false []]
    (UPDATE_NESTED_TASK ["a"%string] ([u_text "x"] ++ [u_priority "High"])).
Proof.
  assert (H : forall t, id (merge t [u_text "x"]) = id t)
    by (intros t; reflexivity).
  split; [exact H|].
  exact (updates_compose (sampleEnv 1 "id-1") (sampleEnv 2 "id-2")
           (sampleEnv 3 "id-3") [sampleTask "a" false []] ["a"%string]
           [u_text "x"] [u_priority "High"] H).
Defined.

(** A task added in front of another one, and deleted again. *)
Lemma add_todo_round_trip_witness :
  forallb (fun t => negb (has_id (uuid (sampleEnv 1 "id-1")) t))
          [sampleTask "a" false []] = true /\
  resolve (newTodo (sampleEnv 1 "id-1") sampleFields
           :: [sampleTask "a" false []]) ["id-1"%string] =
  [newTodo (sampleEnv 1 "id-1") sampleFields] /\
  reduceTasks (sampleEnv 2 "id-2")
    (newTodo (sampleEnv 1 "id-1") sampleFields :: [sampleTask "a" false []])
    (DELETE_TODO "id-1") =
  [sampleTask "a" false []].
Proof.
  split; [reflexivity|].
  exact (proj2 (add_todo_round_trip (sampleEnv 1 "id-1") (sampleEnv 2 "id-2")
                  0 [sampleTask "a" false []] sampleFields)
               eq_refl).
Defined.

(** A subtask added to a root task, and deleted again. *)
Lemma add_nested_round_trip_witness :
  resolve [sampleTask "a" false []] ["a"%string] <> [] /\
  ~ In (uuid (sampleEnv 1 "id-1")) (ids [sampleTask "a" false []]) /\
  In (newSubtask (sampleEnv 1 "id-1") sampleFields)
     (resolve (reduceTasks (sampleEnv 1 "id-1") [sampleTask "a" false []]
                           (ADD_NESTED_TASK ["a"%string] sampleFields))
              (["a"%string] ++ ["id-1"%string])) /\
  reduceTasks (sampleEnv 2 "id-2")
    (reduceTasks (sampleEnv 1 "id-1") [sampleTask "a" false []]
                 (ADD_NESTED_TASK ["a"%string] sampleFields))
    (DELETE_NESTED_TASK (["a"%string] ++ ["id-1"%string])) =
  [sampleTask "a" false []].
Proof.
  assert (H1 : resolve [sampleTask "a" false []] ["a"%string] <> [])
    by (vm_compute; discriminate).
  assert (H2 : ~ In (uuid (sampleEnv 1 "id-1"))
                    (ids [sampleTask "a" false []])).
  { vm_compute. intros [H | []]. discriminate H. }
  split; [exact H1|]. split; [exact H2|].
  destruct (add_nested_round_trip (sampleEnv 1 "id-1") (sampleEnv 2 "id-2")
              [sampleTask "a" false []] ["a"%string] sampleFields)
    as (_ & _ & Hin & Hdel).
  split; [exact (Hin H1) | exact (Hdel H2)].
Defined.

(** Two toggles of an active task with a completed subtask leave the
    subtask active. *)
Lemma toggle_twice_witness :
  Forall (fun t => recurrence t = None)
         (resolve [sampleTask "a" false [sampleTask "b" true []]]
                  ["a"%string]) /\
  reduceTasks (sampleEnv 2 "id-2")
    (reduceTasks (sampleEnv 1 "id-1")
                 [sampleTask "a" false [sampleTask "b" true []]]
                 (TOGGLE_NESTED_TASK ["a"%string]))
    (TOGGLE_NESTED_TASK ["a"%string]) =
  [sampleTask "a" false [sampleTask "b" false []]] /\
  reduceTasks (sampleEnv 2 "id-2")
    (reduceTasks (sampleEnv 1 "id-1")
                 [sampleTask "a" false [sampleTask "b" true []]]
                 (TOGGLE_TODO "a"))
    (TOGGLE_TODO "a") =
  [sampleTask "a" false [sampleTask "b" false []]].
Proof.
  assert (H : Forall (fun t => recurrence t = None)
                     (resolve [sampleTask "a" false [sampleTask "b" true []]]
                              ["a"%string]))
    by (vm_compute; repeat constructor).
  split; [exact H|].
  destruct (toggle_twice (sampleEnv 1 "id-1") (sampleEnv 2 "id-2")
              [sampleTask "a" false [sampleTask "b" true []]] ["a"%string] H)
    as [Hnested Hroot].
  split; [exact Hnested | exact (Hroot "a"%string eq_refl)].
Defined.

(** Clearing the completed tasks of a list of one active task. *)
Lemma reducer_keeps_forest_witness :
  isIMPORT CLEAR_COMPLETED = false /\
  keepsForest [sampleTask "a" false []] CLEAR_COMPLETED = true /\
  exists result,
    todoReducer (sampleEnv 1 "id-1")
                (Some (mkArray 0 (map Some [sampleTask "a" false []])))
                CLEAR_COMPLETED = Some result /\
    exists tasks', elems result = map Some tasks'.
Proof.
  split; [reflexivity|]. split; [reflexivity|].
  destruct (reducer_keeps_forest (sampleEnv 1 "id-1") 0
              [sampleTask "a" false []] CLEAR_COMPLETED)
    as (result & Hred & Hkeeps & _).
  exists result. split; [exact Hred|].
  exact (proj1 (proj1 (Hkeeps eq_refl)) eq_refl).
Defined.

(** The array that [REORDER_TODOS] leaves of the empty list. *)
Lemma hole_throws_witness :
  In None [@None task] /\
  readsEveryTask CLEAR_COMPLETED = true /\
  todoReducer (sampleEnv 1 "id-1") (Some (mkArray 0 [None])) CLEAR_COMPLETED =
  None.
Proof.
  assert (H : In None [@None task]) by (left; reflexivity).
  split; [exact H|]. split; [reflexivity|].
  exact (proj1 (hole_throws (sampleEnv 1 "id-1") 0 [None] CLEAR_COMPLETED H)
               eq_refl).
Defined.

Lemma path_hits_one_task_witness :
  NoDup (ids [sampleTask "a" false [sampleTask "b" false []]]) /\
  In (sampleTask "b" false [])
     (resolve [sampleTask "a" false [sampleTask "b" false []]]
              ["a"%string; "b"%string]) /\
  resolve (reduceTasks (sampleEnv 1 "id-1")
                       [sampleTask "a" false [sampleTask "b" false []]]
                       (TOGGLE_NESTED_TASK ["a"%string; "b"%string]))
          ["a"%string; "b"%string] =
  [toggled (sampleEnv 1 "id-1") (sampleTask "b" false [])] /\
  List.length
    (nodes (reduceTasks (sampleEnv 1 "id-1")
                        [sampleTask "a" false [sampleTask "b" false []]]
                        (ADD_NESTED_TASK ["a"%string; "b"%string]
                                         sampleFields))) =
  3%nat.
Proof.
  assert (H1 : NoDup (ids [sampleTask "a" false [sampleTask "b" false []]])).
  { vm_compute. constructor; [intros [H | []]; discriminate H|].
    constructor; [intros []|]. constructor. }
  assert (H2 : In (sampleTask "b" false [])
                  (resolve [sampleTask "a" false [sampleTask "b" false []]]
                           ["a"%string; "b"%string]))
    by (left; reflexivity).
  split; [exact H1|]. split; [exact H2|].
  destruct (path_hits_one_task (sampleEnv 1 "id-1")
              [sampleTask "a" false [sampleTask "b" false []]]
              ["a"%string; "b"%string] (sampleTask "b" false []) H1 H2)
    as (_ & Htoggle & Hadd).
  split; [exact Htoggle | exact (Hadd sampleFields)].
Defined.

Lemma unique_ids_kept_witness :
  NoDup (ids [sampleTask "a" false []]) /\
  ~ In (uuid (sampleEnv 1 "id-1")) (ids [sampleTask "a" false []]) /\
  keepsIdentifiers (ADD_TODO sampleFields) = true /\
  todoReducer (sampleEnv 1 "id-1")
              (Some (mkArray 0 (map Some [sampleTask "a" false []])))
              (ADD_TODO sampleFields) =
  Some (mkArray 1 (map Some [newTodo (sampleEnv 1 "id-1") sampleFields;
                             sampleTask "a" false []])) /\
  NoDup (ids [newTodo (sampleEnv 1 "id-1") sampleFields;
              sampleTask "a" false []]).
Proof.
  assert (H1 : NoDup (ids [sampleTask "a" false []])).
  { vm_compute. constructor; [intros []|]. constructor. }
  assert (H2 : ~ In (uuid (sampleEnv 1 "id-1"))
                    (ids [sampleTask "a" false []])).
  { vm_compute. intros [H | []]. discriminate H. }
  split; [exact H1|]. split; [exact H2|]. split; [reflexivity|].
  split; [reflexivity|].
  exact (unique_ids_kept (sampleEnv 1 "id-1") 0 [sampleTask "a" false []]
           [newTodo (sampleEnv 1 "id-1") sampleFields; sampleTask "a" false []]
           (ADD_TODO sampleFields)
           (mkArray 1 (map Some [newTodo (sampleEnv 1 "id-1") sampleFields;
                                 sampleTask "a" false []]))
           H1 H2 eq_refl eq_refl eq_refl).
Defined.

(** The path of a subtask item below a root task. *)
Lemma item_paths_resolve_witness :
  In (sampleTask "a" false [sampleTask "b" false []])
     [sampleTask "a" false [sampleTask "b" false []]] /\
  In (["a"%string; "b"%string], sampleTask "b" false [])
     (todoItemPaths (sampleTask "a" false [sampleTask "b" false []])) /\
  NoDup (ids [sampleTask "a" false [sampleTask "b" false []]]) /\
  resolve [sampleTask "a" false [sampleTask "b" false []]]
          ["a"%string; "b"%string] =
  [sampleTask "b" false []].
Proof.
  assert (H1 : In (sampleTask "a" false [sampleTask "b" false []])
                  [sampleTask "a" false [sampleTask "b" false []]])
    by (left; reflexivity).
  assert (H2 : In (["a"%string; "b"%string], sampleTask "b" false [])
                  (todoItemPaths
                     (sampleTask "a" false [sampleTask "b" false []])))
    by (left; reflexivity).
  assert (H3 : NoDup (ids [sampleTask "a" false [sampleTask "b" false []]])).
  { vm_compute. constructor; [intros [H | []]; discriminate H|].
    constructor; [intros []|]. constructor. }
  split; [exact H1|]. split; [exact H2|]. split; [exact H3|].
  exact (proj2 (item_paths_resolve
                  [sampleTask "a" false [sampleTask "b" false []]]
                  (sampleTask "a" false [sampleTask "b" false []])
                  ["a"%string; "b"%string] (sampleTask "b" false []) H1 H2)
               H3).
Defined.

(** The first of three tasks dropped on the last one. *)
Lemma reorder_lands_at_drop_witness :
  [] ++ sampleTask "a" false []
     :: [sampleTask "b" false []; sampleTask "c" false []] =
  [sampleTask "a" false []; sampleTask "b" false []]
    ++ sampleTask "c" false [] :: [] /\
  has_id "a" (sampleTask "a" false []) = true /\
  forallb (fun t => negb (has_id "a" t)) [] = true /\
  has_id "c" (sampleTask "c" false []) = true /\
  forallb (fun t => negb (has_id "c" t))
          [sampleTask "a" false []; sampleTask "b" false []] = true /\
  todoReducer (sampleEnv 1 "id-1")
    (Some (mkArray 0 (map Some [sampleTask "a" false [];
                                sampleTask "b" false [];
                                sampleTask "c" false []])))
    (REORDER_TODOS "a" "c") =
  Some (mkArray 1 (map Some [sampleTask "b" false [];
                             sampleTask "c" false [];
                             sampleTask "a" false []])) /\
  nth_error [sampleTask "b" false []; sampleTask "c" false [];
             sampleTask "a" false []] 2 =
  Some (sampleTask "a" false []).
Proof.
  do 5 (split; [reflexivity|]).
  destruct (reorder_lands_at_drop (sampleEnv 1 "id-1") 0
              [] [sampleTask "b" false []; sampleTask "c" false []]
              [sampleTask "a" false []; sampleTask "b" false []] []
              (sampleTask "a" false []) (sampleTask "c" false []) "a" "c"
              eq_refl eq_refl eq_refl eq_refl eq_refl)
    as (Hred & Hnth & _).
  split; [exact Hred | exact Hnth].
Defined.

Lemma priority_sort_order_witness :
  Forall plainPriority
         (filterTodos
            [mkTask "1" "one" false 0 None None "High" None [] None [];
             mkTask "2" "two" false 0 None None "Low" None [] None []]
            EmptyString None "all") /\
  "asc"%string = "asc"%string /\
  StronglySorted priority_le
    (getFilteredAndSortedTodos
       [mkTask "1" "one" false 0 None None "High" None [] None [];
        mkTask "2" "two" false 0 None None "Low" None [] None []]
       EmptyString None "all" "priority" "asc").
Proof.
  assert (H : Forall plainPriority
                (filterTodos
                   [mkTask "1" "one" false 0 None None "High" None [] None [];
                    mkTask "2" "two" false 0 None None "Low" None [] None []]
                   EmptyString None "all")).
  { repeat constructor; intros Hin; apply existsb_eqb in Hin;
      vm_compute in Hin; discriminate Hin. }
  split; [exact H|]. split; [reflexivity|].
  exact (proj1 (proj2 (priority_sort_order
           [mkTask "1" "one" false 0 None None "High" None [] None [];
            mkTask "2" "two" false 0 None None "Low" None [] None []]
           EmptyString None "all" "asc" H))
         eq_refl).
Defined.

Lemma default_sort_order_witness :
  "createdAt"%string <> "priority"%string /\
  "createdAt"%string <> "dueDate"%string /\
  StronglySorted newer_first
    (getFilteredAndSortedTodos
       [mkTask "1" "one" false 10 None None "High" None [] None [];
        mkTask "2" "two" false 20 None None "Low" None [] None []]
       EmptyString None "all" "createdAt" "asc").
Proof.
  assert (H1 : "createdAt"%string <> "priority"%string) by discriminate.
  assert (H2 : "createdAt"%string <> "dueDate"%string) by discriminate.
  split; [exact H1|]. split; [exact H2|].
  exact (proj1 (proj2 (default_sort_order
           [mkTask "1" "one" false 10 None None "High" None [] None [];
            mkTask "2" "two" false 20 None None "Low" None [] None []]
           EmptyString None "all" "createdAt" "asc" H1 H2))).
Defined.

Lemma due_date_descending_witness :
  "desc"%string <> "asc"%string /\
  StronglySorted due_ge
    (getFilteredAndSortedTodos
       [mkTask "1" "one" false 0 (Some 3) None "Low" None [] None [];
        mkTask "2" "two" false 0 None None "Low" None [] None []]
       EmptyString None "all" "dueDate" "desc").
Proof.
  assert (H : "desc"%string <> "asc"%string) by discriminate.
  split; [exact H|].
  exact (proj1 (proj2 (due_date_descending
           [mkTask "1" "one" false 0 (Some 3) None "Low" None [] None [];
            mkTask "2" "two" false 0 None None "Low" None [] None []]
           EmptyString None "all" "desc" H))).
Defined.

Lemma status_filter_splits_witness :
  "all"%string <> "active"%string /\
  "all"%string <> "completed"%string /\
  filterTodos [sampleTask "a" false []; sampleTask "b" true []]
              EmptyString None "all" =
  [sampleTask "a" false []; sampleTask "b" true []].
Proof.
  assert (H1 : "all"%string <> "active"%string) by discriminate.
  assert (H2 : "all"%string <> "completed"%string) by discriminate.
  split; [exact H1|]. split; [exact H2|].
  exact (proj2 (proj2 (status_filter_splits
           [sampleTask "a" false []; sampleTask "b" true []]
           EmptyString None "all" H1 H2))).
Defined.

(** A task that was due before the time of a clock that stands still. *)
Lemma kanban_columns_disjoint_witness :
  monotone (fun _ => 1000) /\
  In (mkTask "1" "one" false 0 (Some 0) None "Low" None [] None [])
     (overdue (getKanbanColumns (fun _ => 1000) 0
                 [mkTask "1" "one" false 0 (Some 0) None "Low" None [] None []]))
  /\
  ~ In (mkTask "1" "one" false 0 (Some 0) None "Low" None [] None [])
       (upcoming (getKanbanColumns (fun _ => 1000) 0
                    [mkTask "1" "one" false 0 (Some 0) None "Low" None []
                            None []])).
Proof.
  assert (H : monotone (fun _ => 1000)) by (intros i j _; lia).
  split; [exact H|].
  assert (Hin : In (mkTask "1" "one" false 0 (Some 0) None "Low" None [] None [])
                   (overdue (getKanbanColumns (fun _ => 1000) 0
                               [mkTask "1" "one" false 0 (Some 0) None "Low"
                                       None [] None []])))
    by (left; reflexivity).
  split; [exact Hin|].
  exact (proj1 (kanban_columns_disjoint (fun _ => 1000) 0
                  [mkTask "1" "one" false 0 (Some 0) None "Low" None [] None []]
                  (mkTask "1" "one" false 0 (Some 0) None "Low" None [] None [])
                  H)
               Hin).
Defined.

Lemma kanban_columns_cover_witness :
  (forall i : nat, (fun _ : nat => 1000) i = 1000) /\
  overdue (getKanbanColumns (fun _ => 1000) 0
             [mkTask "1" "one" false 0 (Some 0) None "Low" None [] None [];
              sampleTask "a" false []]) =
  filter (fun t => match dueDate t with
                   | Some d => negb (completed t) && (newDate d <? 1000)
                   | None => false
                   end)
         [mkTask "1" "one" false 0 (Some 0) None "Low" None [] None [];
          sampleTask "a" false []].
Proof.
  assert (H : forall i : nat, (fun _ : nat => 1000) i = 1000)
    by (intros i; reflexivity).
  split; [exact H|].
  exact (proj1 (proj2 (kanban_columns_cover (fun _ => 1000) 1000 0
           [mkTask "1" "one" false 0 (Some 0) None "Low" None [] None [];
            sampleTask "a" false []] H))).
Defined.

Lemma tag_bar_tags_witness :
  In "home"%string
     (tagBar [mkTask "1" "one" false 0 None None "Low" None ["home"%string]
                     None []]) /\
  "all"%string <> "active"%string /\
  "all"%string <> "completed"%string /\
  exists todo,
    In todo (filterTodos
               [mkTask "1" "one" false 0 None None "Low" None ["home"%string]
                       None []]
               EmptyString (Some "home"%string) "all") /\
    In "home"%string (tags todo).
Proof.
  assert (H : In "home"%string
                 (tagBar [mkTask "1" "one" false 0 None None "Low" None
                                 ["home"%string] None []]))
    by (left; reflexivity).
  assert (H1 : "all"%string <> "active"%string) by discriminate.
  assert (H2 : "all"%string <> "completed"%string) by discriminate.
  split; [exact H|]. split; [exact H1|]. split; [exact H2|].
  exact (proj2 (proj2 (tag_bar_tags
           [mkTask "1" "one" false 0 None None "Low" None ["home"%string]
                   None []]))
         "home"%string "all"%string H H1 H2).
Defined.

(** A daily task due 2024-06-10, seen on 2024-06-15 in UTC. *)
Lemma next_occurrence_window_witness :
  constantOffset (fixedZone 0) 0 /\
  newDate (ymd 2024 6 10) < newDate (ymd 2024 6 15) + 1 /\
  exists d,
    getNextRecurrenceDate (fixedZone 0) (newDate (ymd 2024 6 15) + 1)
                          (Some (ymd 2024 6 10)) (Some daily) = Some d /\
    newDate d < newDate (ymd 2024 6 15) + 1 + periodDays daily * msPerDay.
Proof.
  assert (Hc : constantOffset (fixedZone 0) 0)
    by (split; intros t; reflexivity).
  assert (H : newDate (ymd 2024 6 10) < newDate (ymd 2024 6 15) + 1)
    by (vm_compute; reflexivity).
  split; [exact Hc|]. split; [exact H|].
  destruct (next_occurrence_window (fixedZone 0) 0
              (newDate (ymd 2024 6 15) + 1) (ymd 2024 6 10) daily Hc)
    as (d & Hd & _ & _ & Hwin & _).
  exists d. split; [exact Hd | exact (Hwin H)].
Defined.

